(** * OpenUI agent session engine: session manager and HTTP routes

    A shallow embedding of [server/services/sessionManager.ts] and of the
    session routes of [server/routes/api.ts], with the properties of the
    engine's specification proved about it.

    Conventions.
    - A JavaScript string is the list of its UTF-16 code units ([jsstring]).
    - A JavaScript value read out of [JSON.parse] is a [jsval].  A number
      is kept as the decimal literal it was read from ([jsnum]); it stands
      for the IEEE double nearest to that decimal.  The engine only ever
      tests numbers for truthiness, which [num_truthy] decides exactly.
    - An exception is [None] in an [option] result.
    - Session objects live in a store ([heap]) and are passed by reference:
      the registry, the timers and the pty handlers all hold references. *)

From Stdlib Require Import ZArith NArith Ascii String List Lia Bool.
From Stdlib Require Import DecimalString.
From stdpp Require Import base option list gmap strings.

Open Scope Z_scope.
Set Warnings "-register-all".

(** ** Strings *)

Abbreviation jsstring := (list N).

(** Code units of an ASCII literal. *)
Definition lit (s : string) : jsstring :=
  List.map N_of_ascii (list_ascii_of_string s).

#[global] Arguments lit : simpl never.

(** [s.length] *)
Definition js_length (s : jsstring) : Z := Z.of_nat (length s).

(** [s.slice(start, end)], with JavaScript's treatment of negative and
    out-of-range indices. *)
Definition clamp_index (len i : Z) : Z :=
  if i <? 0 then Z.max (len + i) 0 else Z.min i len.

Definition js_slice {A} (s : list A) (start stop : Z) : list A :=
  let len := Z.of_nat (length s) in
  let from := clamp_index len start in
  let to := clamp_index len stop in
  take (Z.to_nat (Z.max (to - from) 0)) (drop (Z.to_nat from) s).

(** [s.slice(start)] *)
Definition js_slice_from {A} (s : list A) (start : Z) : list A :=
  js_slice s start (Z.of_nat (length s)).

(** [l.startsWith(p)] on code units; returns the rest after the prefix. *)
Fixpoint strip_prefix (p l : jsstring) : option jsstring :=
  match p, l with
  | [], _ => Some l
  | a :: p', b :: l' => if N.eqb a b then strip_prefix p' l' else None
  | _ :: _, [] => None
  end.

(** [s.includes(p)] *)
Fixpoint js_includes (p s : jsstring) : bool :=
  match strip_prefix p s with
  | Some _ => true
  | None => match s with [] => false | _ :: s' => js_includes p s' end
  end.

(** [arr.join("")] *)
Definition js_join_empty (chunks : list jsstring) : jsstring := concat chunks.

(** The class [\s] of a regular expression without the [u] flag, which is
    also the white space that [parseFloat] skips. *)
Definition is_space (c : N) : bool :=
  ((9 <=? c) && (c <=? 13) || (c =? 32) || (c =? 160) || (c =? 5760)
   || (8192 <=? c) && (c <=? 8202) || (c =? 8232) || (c =? 8233)
   || (c =? 8239) || (c =? 8287) || (c =? 12288) || (c =? 65279))%N.

Definition is_digit (c : N) : bool := ((48 <=? c) && (c <=? 57))%N.

Definition digit_val (c : N) : N := (c - 48)%N.

(** Longest prefix of characters in a class, and the rest. *)
Fixpoint span (p : N -> bool) (l : jsstring) : jsstring * jsstring :=
  match l with
  | c :: l' => if p c then let '(a, b) := span p l' in (c :: a, b) else ([], l)
  | [] => ([], [])
  end.

Definition digits_val (ds : jsstring) : N :=
  fold_left (fun acc d => (10 * acc + digit_val d)%N) ds 0%N.

(** ** Regular expressions of [parseMetrics] *)

(** [/\x1b\[[0-9;]*m/] anchored at the head of [l]: the number of code units
    matched.  The starred class is greedy, and since [m] is not in it no
    backtracking can turn a failure into a match. *)
Definition ansi_match (l : jsstring) : option nat :=
  match l with
  | esc :: bracket :: l' =>
      if ((esc =? 27) && (bracket =? 91))%N then
        let '(params, rest) := span (fun c => is_digit c || (c =? 59)%N) l' in
        match rest with
        | m :: _ => if (m =? 109)%N then Some (3 + length params)%nat else None
        | [] => None
        end
      else None
  | _ => None
  end.

(** [data.replace(/\x1b\[[0-9;]*m/g, '')].  [skip] counts the code units of
    the current match that are still to be dropped. *)
Fixpoint strip_ansi_from (skip : nat) (l : jsstring) : jsstring :=
  match l with
  | [] => []
  | c :: l' =>
      match skip with
      | S k => strip_ansi_from k l'
      | O =>
          match ansi_match l with
          | Some n => strip_ansi_from (n - 1) l'
          | None => c :: strip_ansi_from 0 l'
          end
      end
  end.

Definition strip_ansi (data : jsstring) : jsstring := strip_ansi_from 0 data.

(** [cleanData.replace(/\s+/g, ' ')].  [inrun] tells that the previous code
    unit was white space, already replaced. *)
Fixpoint normalize_ws_from (inrun : bool) (l : jsstring) : jsstring :=
  match l with
  | [] => []
  | c :: l' =>
      if is_space c
      then (if inrun then normalize_ws_from true l'
            else 32%N :: normalize_ws_from true l')
      else c :: normalize_ws_from false l'
  end.

Definition normalize_ws (s : jsstring) : jsstring := normalize_ws_from false s.

Definition OPENUI_OPEN : jsstring := lit "[OPENUI:{".

(** [/\[OPENUI:\{[^}]+\}\]/] anchored at the head of [l]: the matched text.
    [[^}]+] is greedy and stops at the first closing brace; giving code
    units back cannot help, for the next one must be that brace. *)
Definition tag_match (l : jsstring) : option jsstring :=
  match strip_prefix OPENUI_OPEN l with
  | Some l' =>
      let '(body, rest) := span (fun c => negb (c =? 125)%N) l' in
      match body, rest with
      | _ :: _, brace :: bracket :: _ =>
          if ((brace =? 125) && (bracket =? 93))%N
          then Some (OPENUI_OPEN ++ body ++ [125%N; 93%N]) else None
      | _, _ => None
      end
  | None => None
  end.

(** [normalized.match(/\[OPENUI:\{[^}]+\}\]/g)]: all matches, leftmost first
    and not overlapping.  JavaScript returns [null] where this returns the
    empty list; [parseMetrics] treats the two alike. *)
Fixpoint match_all_from (skip : nat) (l : jsstring) : list jsstring :=
  match l with
  | [] => []
  | _ :: l' =>
      match skip with
      | S k => match_all_from k l'
      | O =>
          match tag_match l with
          | Some m => m :: match_all_from (length m - 1) l'
          | None => match_all_from 0 l'
          end
      end
  end.

Definition match_all (s : jsstring) : list jsstring := match_all_from 0 s.

(** ** JavaScript values *)

(** A number: not-a-number, an infinity, or the double nearest to
    [(-1)^neg * m * 10^e]. *)
Inductive jsnum :=
| NaN
| Infinity (neg : bool)
| Dec (neg : bool) (m : N) (e : Z).

Inductive jsval :=
| JUndefined
| JNull
| JBool (b : bool)
| JNum (n : jsnum)
| JStr (s : jsstring)
| JArr (elems : list jsval)
| JObj (members : list (jsstring * jsval)).

(** A decimal rounds to zero exactly when it is at most [2^-1075], half the
    least positive double (the tie goes to the even neighbour, zero). *)
Definition dec_rounds_to_zero (m : N) (e : Z) : bool :=
  if (m =? 0)%N then true
  else if 0 <=? e then false
  else Z.of_N m * 2 ^ 1075 <=? 10 ^ (- e).

(** [ToBoolean] *)
Definition num_truthy (n : jsnum) : bool :=
  match n with
  | NaN => false
  | Infinity _ => true
  | Dec _ m e => negb (dec_rounds_to_zero m e)
  end.

Definition truthy (v : jsval) : bool :=
  match v with
  | JUndefined | JNull => false
  | JBool b => b
  | JNum n => num_truthy n
  | JStr s => match s with [] => false | _ => true end
  | JArr _ | JObj _ => true
  end.

(** [a || b] *)
Definition js_or (a b : jsval) : jsval := if truthy a then a else b.

Definition is_undefined (v : jsval) : bool :=
  match v with JUndefined => true | _ => false end.

(** [obj[key]] on a parsed object: a later duplicate of a key wins. *)
Fixpoint assoc_last (key : jsstring) (ms : list (jsstring * jsval)) (found : jsval) : jsval :=
  match ms with
  | [] => found
  | (k, v) :: ms' =>
      assoc_last key ms' (if decide (k = key) then v else found)
  end.

(** [v.key] for one of the short keys of the metrics tag: [None] is the
    [TypeError] of reading a property of [null] or [undefined]; numbers,
    booleans, strings and arrays have no such property. *)
Definition get_prop (v : jsval) (key : jsstring) : option jsval :=
  match v with
  | JUndefined | JNull => None
  | JObj ms => Some (assoc_last key ms JUndefined)
  | _ => Some JUndefined
  end.

(** ** [JSON.parse] *)

Definition is_json_ws (c : N) : bool :=
  ((c =? 32) || (c =? 9) || (c =? 10) || (c =? 13))%N.

Fixpoint skip_json_ws (l : jsstring) : jsstring :=
  match l with
  | c :: l' => if is_json_ws c then skip_json_ws l' else l
  | [] => []
  end.

Definition hex_val (c : N) : option N :=
  if is_digit c then Some (c - 48)%N
  else if ((97 <=? c) && (c <=? 102))%N then Some (c - 87)%N
  else if ((65 <=? c) && (c <=? 70))%N then Some (c - 55)%N
  else None.

Definition simple_escape (c : N) : option N :=
  match c with
  | 34%N => Some 34%N    (* quotation mark *)
  | 92%N => Some 92%N    (* backslash *)
  | 47%N => Some 47%N    (* solidus *)
  | 98%N => Some 8%N     (* backspace *)
  | 102%N => Some 12%N   (* form feed *)
  | 110%N => Some 10%N   (* line feed *)
  | 114%N => Some 13%N   (* carriage return *)
  | 116%N => Some 9%N    (* tab *)
  | _ => None
  end.

Definition hex4 (a b c d : N) : option N :=
  match hex_val a, hex_val b, hex_val c, hex_val d with
  | Some x, Some y, Some z, Some w => Some (((x * 16 + y) * 16 + z) * 16 + w)%N
  | _, _, _, _ => None
  end.

(** The body of a string, after its opening quote. *)
Fixpoint json_string (l : jsstring) (acc : jsstring) : option (jsstring * jsstring) :=
  match l with
  | [] => None
  | c :: l' =>
      if (c =? 34)%N then Some (rev acc, l')
      else if (c =? 92)%N then
        match l' with
        | [] => None
        | e :: l'' =>
            match simple_escape e with
            | Some ch => json_string l'' (ch :: acc)
            | None =>
                if (e =? 117)%N then
                  match l'' with
                  | h1 :: h2 :: h3 :: h4 :: l3 =>
                      match hex4 h1 h2 h3 h4 with
                      | Some ch => json_string l3 (ch :: acc)
                      | None => None
                      end
                  | _ => None
                  end
                else None
            end
        end
      else if (c <? 32)%N then None
      else json_string l' (c :: acc)
  end.

Definition json_sign (l : jsstring) : bool * jsstring :=
  match l with
  | c :: l' => if (c =? 45)%N then (true, l') else (false, l)
  | [] => (false, l)
  end.

Definition json_int (l : jsstring) : option (jsstring * jsstring) :=
  match l with
  | c :: l' =>
      if (c =? 48)%N then Some ([48%N], l')
      else match span is_digit l with
           | ([], _) => None
           | r => Some r
           end
  | [] => None
  end.

Definition json_frac (l : jsstring) : option (jsstring * jsstring) :=
  match l with
  | c :: l' =>
      if (c =? 46)%N then
        match span is_digit l' with
        | ([], _) => None
        | r => Some r
        end
      else Some ([], l)
  | [] => Some ([], l)
  end.

Definition exp_sign (l : jsstring) : bool * jsstring :=
  match l with
  | c :: l' =>
      if (c =? 45)%N then (true, l')
      else if (c =? 43)%N then (false, l')
      else (false, l)
  | [] => (false, l)
  end.

Definition signed (neg : bool) (n : N) : Z :=
  if neg then - Z.of_N n else Z.of_N n.

Definition json_exp (l : jsstring) : option (Z * jsstring) :=
  match l with
  | c :: l' =>
      if ((c =? 101) || (c =? 69))%N then
        let '(neg, l1) := exp_sign l' in
        match span is_digit l1 with
        | ([], _) => None
        | (ds, l2) => Some (signed neg (digits_val ds), l2)
        end
      else Some (0, l)
  | [] => Some (0, l)
  end.

Definition json_number (l : jsstring) : option (jsnum * jsstring) :=
  let '(neg, l1) := json_sign l in
  '(ip, l2) ← json_int l1;
  '(fp, l3) ← json_frac l2;
  '(ex, l4) ← json_exp l3;
  Some (Dec neg (digits_val (ip ++ fp)) (ex - Z.of_nat (length fp)), l4).

Definition json_atom (l : jsstring) : option (jsval * jsstring) :=
  match strip_prefix (lit "true") l with
  | Some r => Some (JBool true, r)
  | None =>
  match strip_prefix (lit "false") l with
  | Some r => Some (JBool false, r)
  | None =>
  match strip_prefix (lit "null") l with
  | Some r => Some (JNull, r)
  | None => '(n, r) ← json_number l; Some (JNum n, r)
  end end end.

(** Recursive descent.  A value costs one unit of fuel and an array or
    an object one more, and each is at least one code unit long, so
    [fuel] above twice the length of the text is never used up. *)
Fixpoint json_value (fuel : nat) (l : jsstring) : option (jsval * jsstring) :=
  match fuel with
  | O => None
  | S f =>
      match skip_json_ws l with
      | c :: t =>
          if (c =? 123)%N then
            match skip_json_ws t with
            | c' :: t' =>
                if (c' =? 125)%N then Some (JObj [], t')
                else json_members f (c' :: t') []
            | [] => None
            end
          else if (c =? 91)%N then
            match skip_json_ws t with
            | c' :: t' =>
                if (c' =? 93)%N then Some (JArr [], t')
                else json_elements f t []
            | [] => None
            end
          else if (c =? 34)%N then '(s, r) ← json_string t []; Some (JStr s, r)
          else json_atom (c :: t)
      | [] => None
      end
  end
with json_members (fuel : nat) (l : jsstring) (acc : list (jsstring * jsval))
  : option (jsval * jsstring) :=
  match fuel with
  | O => None
  | S f =>
      match l with
      | quote :: t =>
          if (quote =? 34)%N then
            '(k, r) ← json_string t [];
            match skip_json_ws r with
            | colon :: r1 =>
                if (colon =? 58)%N then
                  '(v, r2) ← json_value f r1;
                  match skip_json_ws r2 with
                  | d :: r3 =>
                      if (d =? 44)%N
                      then json_members f (skip_json_ws r3) (acc ++ [(k, v)])
                      else if (d =? 125)%N then Some (JObj (acc ++ [(k, v)]), r3)
                      else None
                  | [] => None
                  end
                else None
            | [] => None
            end
          else None
      | [] => None
      end
  end
with json_elements (fuel : nat) (l : jsstring) (acc : list jsval)
  : option (jsval * jsstring) :=
  match fuel with
  | O => None
  | S f =>
      '(v, r) ← json_value f l;
      match skip_json_ws r with
      | d :: r1 =>
          if (d =? 44)%N then json_elements f r1 (acc ++ [v])
          else if (d =? 93)%N then Some (JArr (acc ++ [v]), r1)
          else None
      | [] => None
      end
  end.

(** [JSON.parse(text)]; [None] is the [SyntaxError]. *)
Definition JSON_parse (text : jsstring) : option jsval :=
  '(v, r) ← json_value (S (2 * length text)) text;
  match skip_json_ws r with
  | [] => Some v
  | _ => None
  end.

(** ** [parseFloat] *)

Definition N_to_jsstring (n : N) : jsstring :=
  lit (NilZero.string_of_uint (N.to_uint n)).

Definition Z_to_jsstring (z : Z) : jsstring :=
  if z <? 0 then 45%N :: N_to_jsstring (Z.to_N (- z)) else N_to_jsstring (Z.to_N z).

(** [Number::toString], up to the choice of digits: the text printed here
    is a decimal literal of the same value, which is all [parseFloat]
    reads back; a zero prints without its sign, as in JavaScript. *)
Definition num_to_string (n : jsnum) : jsstring :=
  match n with
  | NaN => lit "NaN"
  | Infinity neg => (if neg then [45%N] else []) ++ lit "Infinity"
  | Dec neg m e =>
      if dec_rounds_to_zero m e then lit "0"
      else (if neg then [45%N] else []) ++ N_to_jsstring m ++ [101%N] ++ Z_to_jsstring e
  end.

(** [ToString] *)
Fixpoint to_string (v : jsval) : jsstring :=
  match v with
  | JUndefined => lit "undefined"
  | JNull => lit "null"
  | JBool true => lit "true"
  | JBool false => lit "false"
  | JNum n => num_to_string n
  | JStr s => s
  | JArr es =>
      (fix join (es : list jsval) : jsstring :=
         match es with
         | [] => []
         | x :: rest =>
             (match x with
              | JUndefined | JNull => []
              | _ => to_string x
              end) ++
             (match rest with
              | [] => []
              | _ :: _ => 44%N :: join rest
              end)
         end) es
  | JObj _ => lit "[object Object]"
  end.

Definition float_exp (l : jsstring) : Z :=
  match l with
  | c :: l' =>
      if ((c =? 101) || (c =? 69))%N then
        let '(neg, l1) := exp_sign l' in
        signed neg (digits_val (fst (span is_digit l1)))
      else 0
  | [] => 0
  end.

(** [parseFloat] of a string: the longest prefix, after leading white
    space, that is a decimal literal; [NaN] when there is none. *)
Definition parse_float_str (s : jsstring) : jsnum :=
  let s1 := snd (span is_space s) in
  let '(neg, s2) := exp_sign s1 in
  match strip_prefix (lit "Infinity") s2 with
  | Some _ => Infinity neg
  | None =>
      let '(ip, s3) := span is_digit s2 in
      let '(fp, s4) := match s3 with
                       | c :: t => if (c =? 46)%N then span is_digit t else ([], s3)
                       | [] => ([], s3)
                       end in
      match ip ++ fp with
      | [] => NaN
      | ds => Dec neg (digits_val ds) (float_exp s4 - Z.of_nat (length fp))
      end
  end.

Definition parseFloat (v : jsval) : jsnum := parse_float_str (to_string v).

(** ** The metrics extractor *)

(** [ClaudeMetrics].  The TypeScript interface types the fields, but the
    values are whatever the tag carried: [model: json.m || "Claude"] is
    the number 7 when the tag says ["m":7].  Only [cost] is a number on
    every path. *)
Record ClaudeMetrics := mkMetrics {
  model : jsval;
  cost : jsnum;
  linesAdded : jsval;
  linesRemoved : jsval;
  contextPercent : jsval;
  inputTokens : jsval;
  outputTokens : jsval;
  state : jsval
}.

Definition num_zero : jsnum := Dec false 0 0.

Definition DEFAULT_MODEL : jsval := JStr (lit "Claude").

(** [typeof c === 'number' ? c : parseFloat(c) || 0] *)
Definition cost_of (c : jsval) : jsnum :=
  match c with
  | JNum n => n
  | _ => let f := parseFloat c in if num_truthy f then f else num_zero
  end.

(** The object literal returned for an accepted candidate. *)
Definition snapshot (json : jsval) : option ClaudeMetrics :=
  m ← get_prop json (lit "m");
  c ← get_prop json (lit "c");
  la ← get_prop json (lit "la");
  lr ← get_prop json (lit "lr");
  cp ← get_prop json (lit "cp");
  it ← get_prop json (lit "it");
  ot ← get_prop json (lit "ot");
  s ← get_prop json (lit "s");
  Some {| model := js_or m DEFAULT_MODEL;
          cost := cost_of c;
          linesAdded := js_or la (JNum num_zero);
          linesRemoved := js_or lr (JNum num_zero);
          contextPercent := js_or cp (JNum num_zero);
          inputTokens := js_or it (JNum num_zero);
          outputTokens := js_or ot (JNum num_zero);
          state := js_or s JUndefined |}.

(** [json.m !== undefined || json.c !== undefined]; [None] when reading
    a property throws. *)
Definition has_expected_fields (json : jsval) : option bool :=
  m ← get_prop json (lit "m");
  if negb (is_undefined m) then Some true
  else c ← get_prop json (lit "c"); Some (negb (is_undefined c)).

(** One turn of the loop body's [try]: it returns from [parseMetrics],
    leaves the [try] without returning, or lands in the [catch]. *)
Inductive attempt :=
| Returned (m : ClaudeMetrics)
| FellThrough
| Caught.

Definition or_caught (o : option attempt) : attempt :=
  match o with Some a => a | None => Caught end.

Definition try_candidate (jsonStr : jsstring) : attempt :=
  or_caught (
    json ← JSON_parse jsonStr;
    ok ← has_expected_fields json;
    if ok : bool then r ← snapshot json; Some (Returned r)
    else Some FellThrough).

(** [for (let i = matches.length - 1; i >= 0; i--)], entered with
    [n = i + 1]. *)
Fixpoint scan_back (matches : list jsstring) (n : nat) : option ClaudeMetrics :=
  match n with
  | O => None
  | S i =>
      match matches !! i with
      | Some m =>
          match try_candidate (js_slice m 8 (-1)) with
          | Returned r => Some r
          | FellThrough | Caught => scan_back matches i
          end
      | None => None
      end
  end.

Definition parseMetrics (data : jsstring) : option ClaudeMetrics :=
  let cleanData := strip_ansi data in
  let normalized := normalize_ws cleanData in
  let matches := match_all normalized in
  if (length matches =? 0)%nat then None
  else scan_back matches (length matches).

(** ** Sessions *)

Inductive AgentStatus :=
| starting | running | waiting_input | tool_calling | idle | disconnected | error.

#[global] Instance AgentStatus_eq_dec : EqDecision AgentStatus.
Proof. solve_decision. Defined.

(** [Session] of [server/types.ts].  [pty] is the handle of the spawned
    pseudo-terminal or [None] for [null]; [clients] is the set of attached
    sockets in insertion order, the order in which [for ... of] visits it;
    an optional field is an [option]. *)
Record Session := mkSession {
  pty : option nat;
  agentId : jsstring;
  agentName : jsstring;
  command : jsstring;
  cwd : jsstring;
  gitBranch : option jsstring;
  worktreePath : option jsstring;
  createdAt : jsstring;
  clients : list nat;
  outputBuffer : list jsstring;
  status : AgentStatus;
  lastOutputTime : Z;
  lastInputTime : Z;
  recentOutputSize : Z;
  customName : option jsstring;
  customColor : option jsstring;
  notes : option jsstring;
  nodeId : jsstring;
  isRestored : bool;
  metrics : option ClaudeMetrics;
  ticketId : option jsstring;
  ticketTitle : option jsstring;
  ticketUrl : option jsstring;
  position : option (Z * Z)
}.

Definition set_pty (v : option nat) (s : Session) : Session :=
  {| pty := v;
     agentId := agentId s;
     agentName := agentName s;
     command := command s;
     cwd := cwd s;
     gitBranch := gitBranch s;
     worktreePath := worktreePath s;
     createdAt := createdAt s;
     clients := clients s;
     outputBuffer := outputBuffer s;
     status := status s;
     lastOutputTime := lastOutputTime s;
     lastInputTime := lastInputTime s;
     recentOutputSize := recentOutputSize s;
     customName := customName s;
     customColor := customColor s;
     notes := notes s;
     nodeId := nodeId s;
     isRestored := isRestored s;
     metrics := metrics s;
     ticketId := ticketId s;
     ticketTitle := ticketTitle s;
     ticketUrl := ticketUrl s;
     position := position s |}.

Definition set_outputBuffer (v : list jsstring) (s : Session) : Session :=
  {| pty := pty s;
     agentId := agentId s;
     agentName := agentName s;
     command := command s;
     cwd := cwd s;
     gitBranch := gitBranch s;
     worktreePath := worktreePath s;
     createdAt := createdAt s;
     clients := clients s;
     outputBuffer := v;
     status := status s;
     lastOutputTime := lastOutputTime s;
     lastInputTime := lastInputTime s;
     recentOutputSize := recentOutputSize s;
     customName := customName s;
     customColor := customColor s;
     notes := notes s;
     nodeId := nodeId s;
     isRestored := isRestored s;
     metrics := metrics s;
     ticketId := ticketId s;
     ticketTitle := ticketTitle s;
     ticketUrl := ticketUrl s;
     position := position s |}.

Definition set_status (v : AgentStatus) (s : Session) : Session :=
  {| pty := pty s;
     agentId := agentId s;
     agentName := agentName s;
     command := command s;
     cwd := cwd s;
     gitBranch := gitBranch s;
     worktreePath := worktreePath s;
     createdAt := createdAt s;
     clients := clients s;
     outputBuffer := outputBuffer s;
     status := v;
     lastOutputTime := lastOutputTime s;
     lastInputTime := lastInputTime s;
     recentOutputSize := recentOutputSize s;
     customName := customName s;
     customColor := customColor s;
     notes := notes s;
     nodeId := nodeId s;
     isRestored := isRestored s;
     metrics := metrics s;
     ticketId := ticketId s;
     ticketTitle := ticketTitle s;
     ticketUrl := ticketUrl s;
     position := position s |}.

Definition set_lastOutputTime (v : Z) (s : Session) : Session :=
  {| pty := pty s;
     agentId := agentId s;
     agentName := agentName s;
     command := command s;
     cwd := cwd s;
     gitBranch := gitBranch s;
     worktreePath := worktreePath s;
     createdAt := createdAt s;
     clients := clients s;
     outputBuffer := outputBuffer s;
     status := status s;
     lastOutputTime := v;
     lastInputTime := lastInputTime s;
     recentOutputSize := recentOutputSize s;
     customName := customName s;
     customColor := customColor s;
     notes := notes s;
     nodeId := nodeId s;
     isRestored := isRestored s;
     metrics := metrics s;
     ticketId := ticketId s;
     ticketTitle := ticketTitle s;
     ticketUrl := ticketUrl s;
     position := position s |}.

Definition set_recentOutputSize (v : Z) (s : Session) : Session :=
  {| pty := pty s;
     agentId := agentId s;
     agentName := agentName s;
     command := command s;
     cwd := cwd s;
     gitBranch := gitBranch s;
     worktreePath := worktreePath s;
     createdAt := createdAt s;
     clients := clients s;
     outputBuffer := outputBuffer s;
     status := status s;
     lastOutputTime := lastOutputTime s;
     lastInputTime := lastInputTime s;
     recentOutputSize := v;
     customName := customName s;
     customColor := customColor s;
     notes := notes s;
     nodeId := nodeId s;
     isRestored := isRestored s;
     metrics := metrics s;
     ticketId := ticketId s;
     ticketTitle := ticketTitle s;
     ticketUrl := ticketUrl s;
     position := position s |}.

Definition set_customName (v : option jsstring) (s : Session) : Session :=
  {| pty := pty s;
     agentId := agentId s;
     agentName := agentName s;
     command := command s;
     cwd := cwd s;
     gitBranch := gitBranch s;
     worktreePath := worktreePath s;
     createdAt := createdAt s;
     clients := clients s;
     outputBuffer := outputBuffer s;
     status := status s;
     lastOutputTime := lastOutputTime s;
     lastInputTime := lastInputTime s;
     recentOutputSize := recentOutputSize s;
     customName := v;
     customColor := customColor s;
     notes := notes s;
     nodeId := nodeId s;
     isRestored := isRestored s;
     metrics := metrics s;
     ticketId := ticketId s;
     ticketTitle := ticketTitle s;
     ticketUrl := ticketUrl s;
     position := position s |}.

Definition set_customColor (v : option jsstring) (s : Session) : Session :=
  {| pty := pty s;
     agentId := agentId s;
     agentName := agentName s;
     command := command s;
     cwd := cwd s;
     gitBranch := gitBranch s;
     worktreePath := worktreePath s;
     createdAt := createdAt s;
     clients := clients s;
     outputBuffer := outputBuffer s;
     status := status s;
     lastOutputTime := lastOutputTime s;
     lastInputTime := lastInputTime s;
     recentOutputSize := recentOutputSize s;
     customName := customName s;
     customColor := v;
     notes := notes s;
     nodeId := nodeId s;
     isRestored := isRestored s;
     metrics := metrics s;
     ticketId := ticketId s;
     ticketTitle := ticketTitle s;
     ticketUrl := ticketUrl s;
     position := position s |}.

Definition set_notes (v : option jsstring) (s : Session) : Session :=
  {| pty := pty s;
     agentId := agentId s;
     agentName := agentName s;
     command := command s;
     cwd := cwd s;
     gitBranch := gitBranch s;
     worktreePath := worktreePath s;
     createdAt := createdAt s;
     clients := clients s;
     outputBuffer := outputBuffer s;
     status := status s;
     lastOutputTime := lastOutputTime s;
     lastInputTime := lastInputTime s;
     recentOutputSize := recentOutputSize s;
     customName := customName s;
     customColor := customColor s;
     notes := v;
     nodeId := nodeId s;
     isRestored := isRestored s;
     metrics := metrics s;
     ticketId := ticketId s;
     ticketTitle := ticketTitle s;
     ticketUrl := ticketUrl s;
     position := position s |}.

Definition set_isRestored (v : bool) (s : Session) : Session :=
  {| pty := pty s;
     agentId := agentId s;
     agentName := agentName s;
     command := command s;
     cwd := cwd s;
     gitBranch := gitBranch s;
     worktreePath := worktreePath s;
     createdAt := createdAt s;
     clients := clients s;
     outputBuffer := outputBuffer s;
     status := status s;
     lastOutputTime := lastOutputTime s;
     lastInputTime := lastInputTime s;
     recentOutputSize := recentOutputSize s;
     customName := customName s;
     customColor := customColor s;
     notes := notes s;
     nodeId := nodeId s;
     isRestored := v;
     metrics := metrics s;
     ticketId := ticketId s;
     ticketTitle := ticketTitle s;
     ticketUrl := ticketUrl s;
     position := position s |}.

Definition set_metrics (v : option ClaudeMetrics) (s : Session) : Session :=
  {| pty := pty s;
     agentId := agentId s;
     agentName := agentName s;
     command := command s;
     cwd := cwd s;
     gitBranch := gitBranch s;
     worktreePath := worktreePath s;
     createdAt := createdAt s;
     clients := clients s;
     outputBuffer := outputBuffer s;
     status := status s;
     lastOutputTime := lastOutputTime s;
     lastInputTime := lastInputTime s;
     recentOutputSize := recentOutputSize s;
     customName := customName s;
     customColor := customColor s;
     notes := notes s;
     nodeId := nodeId s;
     isRestored := isRestored s;
     metrics := v;
     ticketId := ticketId s;
     ticketTitle := ticketTitle s;
     ticketUrl := ticketUrl s;
     position := position s |}.

Definition set_position (v : option (Z * Z)) (s : Session) : Session :=
  {| pty := pty s;
     agentId := agentId s;
     agentName := agentName s;
     command := command s;
     cwd := cwd s;
     gitBranch := gitBranch s;
     worktreePath := worktreePath s;
     createdAt := createdAt s;
     clients := clients s;
     outputBuffer := outputBuffer s;
     status := status s;
     lastOutputTime := lastOutputTime s;
     lastInputTime := lastInputTime s;
     recentOutputSize := recentOutputSize s;
     customName := customName s;
     customColor := customColor s;
     notes := notes s;
     nodeId := nodeId s;
     isRestored := isRestored s;
     metrics := metrics s;
     ticketId := ticketId s;
     ticketTitle := ticketTitle s;
     ticketUrl := ticketUrl s;
     position := v |}.

(** ** The world around the sessions *)

(** [PersistedNode] of [server/types.ts]. *)
Record PersistedNode := mkNode {
  node_nodeId : jsstring;
  node_sessionId : jsstring;
  node_agentId : jsstring;
  node_agentName : jsstring;
  node_command : jsstring;
  node_cwd : jsstring;
  node_createdAt : jsstring;
  node_customName : option jsstring;
  node_customColor : option jsstring;
  node_notes : option jsstring;
  node_position : Z * Z
}.

(** The three event shapes sent to an attached socket. *)
Inductive Message :=
| MsgOutput (data : jsstring)
| MsgStatus (st : AgentStatus) (restored : bool)
| MsgMetrics (m : ClaudeMetrics).

(** One constructor for each message handed to [log] or [logError]. *)
Inductive LogEntry :=
| LogWorktreeExists (path : jsstring)
| LogFetching
| LogWorktreeLocal (branch : jsstring)
| LogWorktreeTracking (branch : jsstring)
| LogWorktreeNew (branch base : jsstring)
| LogWorktreeAddFailed (stderr : jsstring)
| LogWorktreeCreated (path : jsstring)
| LogUsingWorktree (dir : jsstring)
| LogProvisionFailed (reason : option jsstring)
| LogFoundOpenui (len : Z)
| LogMetricsParsed (m : ClaudeMetrics)
| LogCreated (sessionId agentName : jsstring) (ticket : option jsstring)
| LogKilled (sessionId : jsstring)
| LogRestoreFound (n : nat)
| LogRestored (sessionId agentName : jsstring) (branch : option jsstring)
| LogRestarted (sessionId : jsstring)
| LogScanned (sessionId : jsstring) (m : ClaudeMetrics).

(** What is written to a pty: the launch command followed by a carriage
    return, or the ticket prompt, kept as its template and arguments. *)
Inductive PtyText :=
| TextCommand (command : jsstring)
| TextTicketPrompt (template : option jsstring) (url : jsstring) (id title : option jsstring).

(** Everything the engine does to the outside, in the order it does it. *)
Inductive Effect :=
| EffLog (err : bool) (e : LogEntry)      (* a call of [log] or [logError] *)
| EffConsole (err : bool) (e : LogEntry)  (* a line that reaches the console *)
| EffSend (client : nat) (msg : Message)  (* [client.send] *)
| EffSpawn (handle : nat) (dir : jsstring)
| EffKill (handle : nat)
| EffWrite (handle : nat) (text : PtyText)
| EffMkdir (path : jsstring)
| EffGit (args : list jsstring) (dir : jsstring)
| EffSaveState
| EffSavePositions.

Record GitResult := mkGitResult {
  exitCode : Z;
  stdout : jsstring;
  stderr : jsstring
}.

(** What a handler reads from outside this source tree while it runs: the
    clock, the sockets, the file system and git, the process environment,
    and the two sibling modules that are not part of the tree,
    [./statusDetector] ([detectStatus]) and [./persistence] ([loadState],
    [loadBuffer]).  [existsSync] always answers; [mkdirSync] can throw, and
    so can [spawnSync]: always when git is not installed, and in a single
    call although git is there.  Inside the [try] of [getGitBranch] and
    [getGitRoot] a call that throws is answered like a command that fails,
    and [git] stands for both there; [spawn_ok] is asked where no [try]
    surrounds the call. *)
Record Env := mkEnv {
  now : Z;                                    (* Date.now() *)
  isoNow : jsstring;                          (* new Date().toISOString() *)
  randomTag : jsstring;                       (* Math.random().toString(36).substr(2, 9) *)
  LAUNCH_CWD : jsstring;
  QUIET : bool;                               (* !!process.env.OPENUI_QUIET *)
  readyState : nat -> Z;                      (* client.readyState *)
  detectStatus : Session -> AgentStatus;
  loadState : list PersistedNode;             (* loadState().nodes *)
  loadBuffer : jsstring -> list jsstring;
  git_available : bool;
  git : list jsstring -> jsstring -> GitResult;
  existsSync : jsstring -> bool;
  mkdirSync_ok : jsstring -> bool;            (* false: mkdirSync throws on that directory *)
  spawn_ok : list jsstring -> jsstring -> bool; (* false: this spawnSync, outside a try, throws *)
  path_join : list jsstring -> jsstring;
  path_basename : jsstring -> jsstring;
  pty_spawns : jsstring -> bool;              (* false: spawnPty throws in that directory *)
  ticketPromptTemplate : option jsstring      (* loadConfig().ticketPromptTemplate *)
}.

(** The closure registered with [ptyProcess.onData]: the one of
    [createSession], which captured [session] and [agentId], or the shorter
    one of the restart route. *)
Inductive Handler :=
| OnDataCreate (session : nat) (agent : jsstring)
| OnDataRestart (session : nat).

Record PtyRec := mkPty {
  pty_dir : jsstring;
  pty_onData : option Handler;
  pty_killed : bool
}.

(** A [setInterval(..., 500)] decay timer with the [sessionId] and
    [session] its closure captured. *)
Record Interval := mkInterval {
  iv_period : Z;
  iv_sessionId : jsstring;
  iv_session : nat;
  iv_cleared : bool
}.

Inductive Task :=
| TaskLaunch (handle : nat) (command : jsstring)
    (ticketUrl ticketId ticketTitle template : option jsstring)
| TaskTicketPrompt (handle : nat) (template : option jsstring) (url : jsstring)
    (id title : option jsstring)
| TaskRelaunch (handle : nat) (session : nat).

(** A pending [setTimeout]. *)
Record Timeout := mkTimeout {
  to_delay : Z;
  to_task : Task;
  to_fired : bool
}.

(** The process state.  [heap] holds the session objects, a reference being
    an index into it; [sessions] is the exported [Map], in insertion
    order, from session id to reference. *)
Record World := mkWorld {
  heap : list Session;
  sessions : list (jsstring * nat);
  ptys : list PtyRec;
  intervals : list Interval;
  timeouts : list Timeout;
  metricsCache : gmap jsstring (ClaudeMetrics * Z);
  trace : list Effect
}.

Definition set_heap (v : list Session) (w : World) : World :=
  {| heap := v; sessions := sessions w; ptys := ptys w; intervals := intervals w;
     timeouts := timeouts w; metricsCache := metricsCache w; trace := trace w |}.

Definition set_sessions (v : list (jsstring * nat)) (w : World) : World :=
  {| heap := heap w; sessions := v; ptys := ptys w; intervals := intervals w;
     timeouts := timeouts w; metricsCache := metricsCache w; trace := trace w |}.

Definition set_ptys (v : list PtyRec) (w : World) : World :=
  {| heap := heap w; sessions := sessions w; ptys := v; intervals := intervals w;
     timeouts := timeouts w; metricsCache := metricsCache w; trace := trace w |}.

Definition set_intervals (v : list Interval) (w : World) : World :=
  {| heap := heap w; sessions := sessions w; ptys := ptys w; intervals := v;
     timeouts := timeouts w; metricsCache := metricsCache w; trace := trace w |}.

Definition set_timeouts (v : list Timeout) (w : World) : World :=
  {| heap := heap w; sessions := sessions w; ptys := ptys w; intervals := intervals w;
     timeouts := v; metricsCache := metricsCache w; trace := trace w |}.

Definition set_metricsCache (v : gmap jsstring (ClaudeMetrics * Z)) (w : World) : World :=
  {| heap := heap w; sessions := sessions w; ptys := ptys w; intervals := intervals w;
     timeouts := timeouts w; metricsCache := v; trace := trace w |}.

(** Append to the trace. *)
Definition emit (es : list Effect) (w : World) : World :=
  {| heap := heap w; sessions := sessions w; ptys := ptys w; intervals := intervals w;
     timeouts := timeouts w; metricsCache := metricsCache w; trace := trace w ++ es |}.

Definition empty_world : World :=
  {| heap := []; sessions := []; ptys := []; intervals := []; timeouts := [];
     metricsCache := ∅; trace := [] |}.

(** *** [Map] operations on the registry *)

Fixpoint map_get {V} (k : jsstring) (m : list (jsstring * V)) : option V :=
  match m with
  | [] => None
  | (k', v) :: m' => if decide (k' = k) then Some v else map_get k m'
  end.

Definition map_has {V} (k : jsstring) (m : list (jsstring * V)) : bool :=
  match map_get k m with Some _ => true | None => false end.

(** [m.set(k, v)]: a key already present keeps its place. *)
Fixpoint map_set {V} (k : jsstring) (v : V) (m : list (jsstring * V)) : list (jsstring * V) :=
  match m with
  | [] => [(k, v)]
  | (k', v') :: m' =>
      if decide (k' = k) then (k', v) :: m' else (k', v') :: map_set k v m'
  end.

Fixpoint map_delete {V} (k : jsstring) (m : list (jsstring * V)) : list (jsstring * V) :=
  match m with
  | [] => []
  | (k', v') :: m' =>
      if decide (k' = k) then m' else (k', v') :: map_delete k m'
  end.

(** [sessions.get(id)], followed through the reference. *)
Definition lookup_session (w : World) (id : jsstring) : option Session :=
  r ← map_get id (sessions w); heap w !! r.

(** *** Logging: [log] and [logError] are no-ops under [OPENUI_QUIET] *)

Definition do_log (env : Env) (err : bool) (e : LogEntry) : list Effect :=
  EffLog err e :: (if QUIET env then [] else [EffConsole err e]).

(** [for (const client of clients) if (client.readyState === 1) ...send...] *)
Definition send_all (env : Env) (cs : list nat) (msgs : list Message) : list Effect :=
  flat_map (fun c => if readyState env c =? 1 then List.map (EffSend c) msgs else []) cs.

(** Truthiness of an optional string. *)
Definition str_truthy (o : option jsstring) : bool :=
  match o with Some (_ :: _) => true | _ => false end.

(** [x || undefined] for an optional string *)
Definition or_undefined (o : option jsstring) : option jsstring :=
  match o with Some (_ :: _) => o | _ => None end.

Fixpoint drop_spaces (s : jsstring) : jsstring :=
  match s with
  | c :: s' => if is_space c then drop_spaces s' else s
  | [] => []
  end.

(** [s.trim()] *)
Definition js_trim (s : jsstring) : jsstring :=
  rev (drop_spaces (rev (drop_spaces s))).

(** ** Git helpers *)

(** [spawnSync(["git", ...])]: [None] when it throws. *)
Definition spawnSync (env : Env) (args : list jsstring) (dir : jsstring) : option GitResult :=
  if git_available env then Some (git env args dir) else None.

Definition git_query (env : Env) (args : list jsstring) (dir : jsstring) : option jsstring :=
  match spawnSync env args dir with
  | Some r => if exitCode r =? 0 then Some (js_trim (stdout r)) else None
  | None => None
  end.

Definition getGitBranch (env : Env) (dir : jsstring) : option jsstring :=
  git_query env [lit "git"; lit "rev-parse"; lit "--abbrev-ref"; lit "HEAD"] dir.

Definition getGitRoot (env : Env) (dir : jsstring) : option jsstring :=
  git_query env [lit "git"; lit "rev-parse"; lit "--show-toplevel"] dir.

Record WorktreeResult := mkWorktreeResult {
  success : bool;
  wt_worktreePath : option jsstring;
  wt_error : option jsstring
}.

(** [branchName.replace(/\//g, "-")] *)
Definition sanitize_branch (b : jsstring) : jsstring :=
  List.map (fun c => if (c =? 47)%N then 45%N else c) b.

(** [spawnSync([...])] with no [try] around it, as [createWorktree] calls
    it: [None] when it throws. *)
Definition spawnSync_unguarded (env : Env) (args : list jsstring) (dir : jsstring)
  : option GitResult :=
  if spawn_ok env args dir then spawnSync env args dir else None.

(** What a function that can throw leaves behind: the effects it had, and
    its result unless it threw. *)
Definition Outcome (A : Type) : Type := list Effect * option A.

(** The effects and the result of a function that returned. *)
Definition returned {A} (o : Outcome A) : option (list Effect * A) :=
  match o with
  | (es, Some a) => Some (es, a)
  | (_, None) => None
  end.

(** [createWorktree], statement by statement.  Nothing in it catches: a
    throw of [mkdirSync] or of one of the four [spawnSync] ends it, after
    the effects it had up to there. *)
Definition createWorktree_run (env : Env) (dir branchName baseBranch : jsstring)
  : Outcome WorktreeResult :=
  match getGitRoot env dir with
  | Some ((_ :: _) as gitRoot) =>
      let repoName := path_basename env gitRoot in
      let worktreesDir := path_join env [gitRoot; lit ".."; repoName ++ lit "-worktrees"] in
      if negb (existsSync env worktreesDir) && negb (mkdirSync_ok env worktreesDir)
      then ([], None)
      else
        let e_mkdir := if existsSync env worktreesDir then [] else [EffMkdir worktreesDir] in
        let dirName := sanitize_branch branchName in
        let worktreePath := path_join env [worktreesDir; dirName] in
        if existsSync env worktreePath then
          (e_mkdir ++ do_log env false (LogWorktreeExists worktreePath),
           Some (mkWorktreeResult true (Some worktreePath) None))
        else
          let fetch := [lit "git"; lit "fetch"; lit "origin"] in
          let origin_branch := lit "origin/" ++ branchName in
          match spawnSync_unguarded env fetch gitRoot with
          | None => (e_mkdir ++ do_log env false LogFetching, None)
          | Some _ =>
          match spawnSync_unguarded env
                  [lit "git"; lit "rev-parse"; lit "--verify"; branchName] gitRoot with
          | None => (e_mkdir ++ do_log env false LogFetching ++ [EffGit fetch gitRoot], None)
          | Some localBranch =>
          match spawnSync_unguarded env
                  [lit "git"; lit "rev-parse"; lit "--verify"; origin_branch] gitRoot with
          | None => (e_mkdir ++ do_log env false LogFetching ++ [EffGit fetch gitRoot], None)
          | Some remoteBranch =>
              let '(entry, add) :=
                if exitCode localBranch =? 0 then
                  (LogWorktreeLocal branchName,
                   [lit "git"; lit "worktree"; lit "add"; worktreePath; branchName])
                else if exitCode remoteBranch =? 0 then
                  (LogWorktreeTracking branchName,
                   [lit "git"; lit "worktree"; lit "add"; lit "--track"; lit "-b"; branchName;
                    worktreePath; origin_branch])
                else
                  (LogWorktreeNew branchName baseBranch,
                   [lit "git"; lit "worktree"; lit "add"; lit "-b"; branchName; worktreePath;
                    lit "origin/" ++ baseBranch]) in
              match spawnSync_unguarded env add gitRoot with
              | None =>
                  (e_mkdir ++ do_log env false LogFetching ++ [EffGit fetch gitRoot]
                     ++ do_log env false entry, None)
              | Some result =>
                  let before := e_mkdir ++ do_log env false LogFetching ++ [EffGit fetch gitRoot]
                                  ++ do_log env false entry ++ [EffGit add gitRoot] in
                  if negb (exitCode result =? 0) then
                    (before ++ do_log env true (LogWorktreeAddFailed (stderr result)),
                     Some (mkWorktreeResult false None (Some (stderr result))))
                  else
                    (before ++ do_log env false (LogWorktreeCreated worktreePath),
                     Some (mkWorktreeResult true (Some worktreePath) None))
              end
          end
          end
          end
  | _ => ([], Some (mkWorktreeResult false None (Some (lit "Not a git repository"))))
  end.

(** [createWorktree] when it returns: its effects and its result; [None]
    if it throws. *)
Definition createWorktree (env : Env) (dir branchName baseBranch : jsstring)
  : option (list Effect * WorktreeResult) :=
  returned (createWorktree_run env dir branchName baseBranch).

(** ** The session manager *)

Definition MAX_BUFFER_SIZE : nat := 1000.

(** [outputBuffer.push(data); if (outputBuffer.length > MAX_BUFFER_SIZE)
    outputBuffer.shift()] *)
Definition push_chunk (buf : list jsstring) (data : jsstring) : list jsstring :=
  let pushed := buf ++ [data] in
  if (MAX_BUFFER_SIZE <? length pushed)%nat then drop 1 pushed else pushed.

Definition scanBufferForMetrics (s : Session) : option ClaudeMetrics :=
  if decide (agentId s = lit "claude") then
    let buffer := js_join_empty (outputBuffer s) in
    let recentBuffer := js_slice_from buffer (-5000) in
    parseMetrics recentBuffer
  else None.

(** The metrics branch of the output handler. *)
Definition onData_metrics (env : Env) (agent data : jsstring) (s : Session)
  : Session * list Effect :=
  if decide (agent = lit "claude") then
    match parseMetrics data with
    | Some m =>
        (set_metrics (Some m) s,
         do_log env false (LogMetricsParsed m) ++ send_all env (clients s) [MsgMetrics m])
    | None => (s, [])
    end
  else (s, []).

(** The handler that [createSession] registers with [ptyProcess.onData],
    as a function of the session object it captured. *)
Definition onData_create (env : Env) (agent data : jsstring) (s : Session)
  : Session * list Effect :=
  let e_debug :=
    if js_includes (lit "OPENUI") data
    then do_log env false (LogFoundOpenui (js_length data)) else [] in
  let s := set_outputBuffer (push_chunk (outputBuffer s) data) s in
  let s := set_lastOutputTime (now env) s in
  let s := set_recentOutputSize (recentOutputSize s + js_length data) s in
  let '(s, e_metrics) := onData_metrics env agent data s in
  let newStatus := detectStatus env s in
  let statusChanged := negb (bool_decide (newStatus = status s)) in
  let s := set_status newStatus s in
  (s, e_debug ++ e_metrics ++
      send_all env (clients s)
        (MsgOutput data ::
         if statusChanged then [MsgStatus (status s) (isRestored s)] else [])).

(** The handler that the restart route registers. *)
Definition onData_restart (env : Env) (data : jsstring) (s : Session)
  : Session * list Effect :=
  let s := set_outputBuffer (push_chunk (outputBuffer s) data) s in
  let s := set_lastOutputTime (now env) s in
  let s := set_recentOutputSize (recentOutputSize s + js_length data) s in
  (s, send_all env (clients s) [MsgOutput data]).

(** Run a closure on the session object it holds. *)
Definition with_session (r : nat) (f : Session -> Session * list Effect) (w : World) : World :=
  match heap w !! r with
  | Some s => let '(s', es) := f s in emit es (set_heap (<[r := s']> (heap w)) w)
  | None => w
  end.

(** The pty with this handle emits a chunk. *)
Definition pty_data (env : Env) (handle : nat) (data : jsstring) (w : World) : World :=
  match ptys w !! handle with
  | Some p =>
      match pty_onData p with
      | Some (OnDataCreate r agent) => with_session r (onData_create env agent data) w
      | Some (OnDataRestart r) => with_session r (onData_restart env data) w
      | None => w
      end
  | None => w
  end.

Definition DECAY_PERIOD : Z := 500.
Definition DECAY_STEP : Z := 50.

(** [session.recentOutputSize = Math.max(0, session.recentOutputSize - 50)] *)
Definition decayed (s : Session) : Session :=
  set_recentOutputSize (Z.max 0 (recentOutputSize s - DECAY_STEP)) s.

Definition clear_interval (iv : Interval) : Interval :=
  mkInterval (iv_period iv) (iv_sessionId iv) (iv_session iv) true.

(** One firing of the decay timer: the callback given to [setInterval]. *)
Definition decay_tick (i : nat) (w : World) : World :=
  match intervals w !! i with
  | Some iv =>
      if iv_cleared iv then w
      else
        match heap w !! iv_session iv with
        | Some s =>
            if negb (map_has (iv_sessionId iv) (sessions w)) || negb (bool_decide (is_Some (pty s)))
            then set_intervals (<[i := clear_interval iv]> (intervals w)) w
            else set_heap (<[iv_session iv := decayed s]> (heap w)) w
        | None => w
        end
  | None => w
  end.

Record CreateParams := mkCreateParams {
  p_sessionId : jsstring;
  p_agentId : jsstring;
  p_agentName : jsstring;
  p_command : jsstring;
  p_cwd : jsstring;
  p_nodeId : jsstring;
  p_customName : option jsstring;
  p_customColor : option jsstring;
  p_ticketId : option jsstring;
  p_ticketTitle : option jsstring;
  p_ticketUrl : option jsstring;
  p_branchName : option jsstring;
  p_baseBranch : option jsstring;
  p_createWorktreeFlag : bool;
  p_ticketPromptTemplate : option jsstring
}.

Record CreateResult := mkCreateResult {
  res_session : nat;
  res_cwd : jsstring;
  res_gitBranch : option jsstring
}.

(** The three variables that the worktree branch of [createSession] sets. *)
Record Provision := mkProvision {
  workingDir : jsstring;
  prov_worktreePath : option jsstring;
  prov_gitBranch : option jsstring
}.

(** Lines 224-243 of [createSession].  The call of [createWorktree] stands
    in no [try]: when it throws, so does this. *)
Definition provision_run (env : Env) (p : CreateParams) : Outcome Provision :=
  let original := mkProvision (p_cwd p) None None in
  match p_createWorktreeFlag p, p_branchName p, p_baseBranch p with
  | true, Some ((_ :: _) as branchName), Some ((_ :: _) as baseBranch) =>
      match createWorktree_run env (p_cwd p) branchName baseBranch with
      | (es, None) => (es, None)
      | (es, Some result) =>
          match success result, wt_worktreePath result with
          | true, Some ((_ :: _) as path) =>
              (es ++ do_log env false (LogUsingWorktree path),
               Some (mkProvision path (Some path) (Some branchName)))
          | _, _ =>
              (es ++ do_log env true (LogProvisionFailed (wt_error result)), Some original)
          end
      end
  | _, _, _ => ([], Some original)
  end.

(** Those lines when they are passed: [None] if [createWorktree] throws. *)
Definition provision (env : Env) (p : CreateParams) : option (list Effect * Provision) :=
  returned (provision_run env p).

Definition new_session (env : Env) (p : CreateParams) (pv : Provision)
  (gitBranch : option jsstring) (handle : nat) : Session :=
  {| pty := Some handle;
     agentId := p_agentId p;
     agentName := p_agentName p;
     command := p_command p;
     cwd := workingDir pv;
     gitBranch := or_undefined gitBranch;
     worktreePath := prov_worktreePath pv;
     createdAt := isoNow env;
     clients := [];
     outputBuffer := [];
     status := starting;
     lastOutputTime := now env;
     lastInputTime := 0;
     recentOutputSize := 0;
     customName := p_customName p;
     customColor := p_customColor p;
     notes := None;
     nodeId := p_nodeId p;
     isRestored := false;
     metrics := None;
     ticketId := p_ticketId p;
     ticketTitle := p_ticketTitle p;
     ticketUrl := p_ticketUrl p;
     position := None |}.

(** [createSession]: the world it leaves, and its result or [None] if it
    throws. *)
Definition createSession (env : Env) (p : CreateParams) (w : World)
  : World * option CreateResult :=
  match provision_run env p with
  | (es, None) => (emit es w, None)
  | (es, Some pv) =>
      let w := emit es w in
      let gitBranch :=
        if str_truthy (prov_gitBranch pv) then prov_gitBranch pv
        else getGitBranch env (workingDir pv) in
      if pty_spawns env (workingDir pv) then
        let handle := length (ptys w) in
        let r := length (heap w) in
        let session := new_session env p pv gitBranch handle in
        let w := emit [EffSpawn handle (workingDir pv)] w in
        let w := set_heap (heap w ++ [session]) w in
        let w := set_sessions (map_set (p_sessionId p) r (sessions w)) w in
        let w := set_intervals
                   (intervals w ++ [mkInterval DECAY_PERIOD (p_sessionId p) r false]) w in
        let w := set_ptys
                   (ptys w ++ [mkPty (workingDir pv) (Some (OnDataCreate r (p_agentId p))) false]) w in
        let w := set_timeouts
                   (timeouts w ++
                    [mkTimeout 300
                       (TaskLaunch handle (p_command p) (p_ticketUrl p) (p_ticketId p)
                          (p_ticketTitle p) (p_ticketPromptTemplate p)) false]) w in
        let w := emit (do_log env false
                         (LogCreated (p_sessionId p) (p_agentName p) (or_undefined (p_ticketId p)))) w in
        (w, Some (mkCreateResult r (workingDir pv) (or_undefined gitBranch)))
      else (w, None)
  end.

Definition kill_pty (p : PtyRec) : PtyRec := mkPty (pty_dir p) (pty_onData p) true.

Definition deleteSession (env : Env) (id : jsstring) (w : World) : World * bool :=
  match map_get id (sessions w) with
  | None => (w, false)
  | Some r =>
      let w :=
        match heap w !! r ≫= pty with
        | Some h => emit [EffKill h] (set_ptys (alter kill_pty h (ptys w)) w)
        | None => w
        end in
      let w := set_sessions (map_delete id (sessions w)) w in
      (emit (do_log env false (LogKilled id)) w, true)
  end.

(** The placeholder that [restoreSessions] builds for a persisted node. *)
Definition placeholder (env : Env) (node : PersistedNode) : Session :=
  let buffer := loadBuffer env (node_sessionId node) in
  let gitBranch := getGitBranch env (node_cwd node) in
  {| pty := None;
     agentId := node_agentId node;
     agentName := node_agentName node;
     command := node_command node;
     cwd := node_cwd node;
     gitBranch := or_undefined gitBranch;
     worktreePath := None;
     createdAt := node_createdAt node;
     clients := [];
     outputBuffer := buffer;
     status := disconnected;
     lastOutputTime := 0;
     lastInputTime := 0;
     recentOutputSize := 0;
     customName := node_customName node;
     customColor := node_customColor node;
     notes := node_notes node;
     nodeId := node_nodeId node;
     isRestored := true;
     metrics := None;
     ticketId := None;
     ticketTitle := None;
     ticketUrl := None;
     position := None |}.

(** One turn of the loop of [restoreSessions]. *)
Definition restore_node (env : Env) (w : World) (node : PersistedNode) : World :=
  let session := placeholder env node in
  let r := length (heap w) in
  let w := set_heap (heap w ++ [session]) w in
  let w := set_sessions (map_set (node_sessionId node) r (sessions w)) w in
  emit (do_log env false
          (LogRestored (node_sessionId node) (node_agentName node) (gitBranch session))) w.

Definition restoreSessions (env : Env) (w : World) : World :=
  let nodes := loadState env in
  let w := emit (do_log env false (LogRestoreFound (length nodes))) w in
  fold_left (restore_node env) nodes w.

(** ** The session routes of [server/routes/api.ts] *)

Record NodeView := mkNodeView {
  nv_node : PersistedNode;
  nv_status : AgentStatus;
  nv_isAlive : bool;
  nv_isRestored : option bool
}.

(** Response bodies.  A listed session is given as its id and the session
    object at the time of the response, of which the route copies the
    public fields. *)
Inductive Body :=
| BError (message : jsstring)
| BSuccess
| BStatus (st : AgentStatus) (restored : bool)
| BSessions (l : list (jsstring * Session))
| BState (nodes : list NodeView)
| BCreated (sessionId nodeId dir : jsstring) (branch : option jsstring)
| BUncaught.

Record Response := mkResponse {
  code : Z;
  body : Body
}.

Definition not_found : Response := mkResponse 404 (BError (lit "Session not found")).
Definition already_running : Response := mkResponse 400 (BError (lit "Session already running")).
Definition ok : Response := mkResponse 200 BSuccess.
Definition uncaught : Response := mkResponse 500 BUncaught.

(** [sessions.get(id)] with the object behind the reference. *)
Definition find_session (w : World) (id : jsstring) : option (nat * Session) :=
  r ← map_get id (sessions w); s ← heap w !! r; Some (r, s).

Definition METRICS_CACHE_TTL : Z := 2000.

(** The body of the [map] callback of [GET /sessions], up to the object
    it returns: the session it leaves and the cache. *)
Definition refresh_session (env : Env) (id : jsstring) (s : Session)
  (cache : gmap jsstring (ClaudeMetrics * Z)) : Session * gmap jsstring (ClaudeMetrics * Z) :=
  let s := set_status (detectStatus env s) s in
  if decide (agentId s = lit "claude") then
    let stale := match cache !! id with
                 | None => true
                 | Some (_, timestamp) => METRICS_CACHE_TTL <? now env - timestamp
                 end in
    if stale then
      match scanBufferForMetrics s with
      | Some scannedMetrics =>
          (set_metrics (Some scannedMetrics) s, <[id := (scannedMetrics, now env)]> cache)
      | None => (s, cache)
      end
    else (s, cache)
  else (s, cache).

Definition list_entry (env : Env) (acc : World * list (jsstring * Session))
  (entry : jsstring * nat) : World * list (jsstring * Session) :=
  let '(w, out) := acc in
  let '(id, r) := entry in
  match heap w !! r with
  | Some s =>
      let '(s', cache) := refresh_session env id s (metricsCache w) in
      (set_metricsCache cache (set_heap (<[r := s']> (heap w)) w), out ++ [(id, s')])
  | None => acc
  end.

(** The same callback in the earlier revision of the route, kept in the
    same file: no cache, and a line printed with [console.log] itself. *)
Definition refresh_session_v0 (env : Env) (id : jsstring) (s : Session)
  : Session * list Effect :=
  let s := set_status (detectStatus env s) s in
  if decide (agentId s = lit "claude") then
    match scanBufferForMetrics s with
    | Some scannedMetrics =>
        (set_metrics (Some scannedMetrics) s, [EffConsole false (LogScanned id scannedMetrics)])
    | None => (s, [])
    end
  else (s, []).

(** [GET /sessions] *)
Definition list_sessions (env : Env) (w : World) : World * Response :=
  let '(w', out) := fold_left (list_entry env) (sessions w) (w, []) in
  (w', mkResponse 200 (BSessions out)).

(** [GET /sessions/:sessionId/status] *)
Definition get_status (env : Env) (id : jsstring) (w : World) : World * Response :=
  match find_session w id with
  | None => (w, not_found)
  | Some (r, s) =>
      let s' := set_status (detectStatus env s) s in
      (set_heap (<[r := s']> (heap w)) w, mkResponse 200 (BStatus (status s') (isRestored s')))
  end.

(** The [map] callback of [GET /state]. *)
Definition resolve_node (env : Env) (w : World) (node : PersistedNode) : NodeView :=
  let session := lookup_session w (node_sessionId node) in
  {| nv_node := node;
     nv_status := match session with
                  | Some s => detectStatus env s
                  | None => disconnected
                  end;
     nv_isAlive := match session with Some _ => true | None => false end;
     nv_isRestored := isRestored <$> session |}.

(** [GET /state] *)
Definition get_state (env : Env) (w : World) : Response :=
  mkResponse 200
    (BState (List.filter nv_isAlive (List.map (resolve_node env w) (loadState env)))).

(** [POST /sessions/:sessionId/restart] *)
Definition restart (env : Env) (id : jsstring) (w : World) : World * Response :=
  match find_session w id with
  | None => (w, not_found)
  | Some (r, s) =>
      match pty s with
      | Some _ => (w, already_running)
      | None =>
          if pty_spawns env (cwd s) then
            let handle := length (ptys w) in
            let s := set_pty (Some handle) s in
            let s := set_isRestored false s in
            let s := set_status starting s in
            let s := set_lastOutputTime (now env) s in
            let w := emit [EffSpawn handle (cwd s)] w in
            let w := set_heap (<[r := s]> (heap w)) w in
            let w := set_intervals (intervals w ++ [mkInterval DECAY_PERIOD id r false]) w in
            let w := set_ptys (ptys w ++ [mkPty (cwd s) (Some (OnDataRestart r)) false]) w in
            let w := set_timeouts
                       (timeouts w ++ [mkTimeout 300 (TaskRelaunch handle r) false]) w in
            (emit (do_log env false (LogRestarted id)) w, ok)
          else (w, uncaught)
      end
  end.

Record Updates := mkUpdates {
  u_customName : option jsstring;
  u_customColor : option jsstring;
  u_notes : option jsstring
}.

Definition apply_updates (u : Updates) (s : Session) : Session :=
  let s := match u_customName u with Some v => set_customName (Some v) s | None => s end in
  let s := match u_customColor u with Some v => set_customColor (Some v) s | None => s end in
  match u_notes u with Some v => set_notes (Some v) s | None => s end.

(** [PATCH /sessions/:sessionId] *)
Definition patch_session (id : jsstring) (u : Updates) (w : World) : World * Response :=
  match find_session w id with
  | None => (w, not_found)
  | Some (r, s) =>
      (emit [EffSaveState] (set_heap (<[r := apply_updates u s]> (heap w)) w), ok)
  end.

(** [DELETE /sessions/:sessionId] *)
Definition delete_route (env : Env) (id : jsstring) (w : World) : World * Response :=
  let '(w', success) := deleteSession env id w in
  if success then (emit [EffSaveState] w', ok) else (w', not_found).

Record CreateBody := mkCreateBody {
  b_agentId : jsstring;
  b_agentName : jsstring;
  b_command : jsstring;
  b_cwd : option jsstring;
  b_nodeId : jsstring;
  b_customName : option jsstring;
  b_customColor : option jsstring;
  b_ticketId : option jsstring;
  b_ticketTitle : option jsstring;
  b_ticketUrl : option jsstring;
  b_branchName : option jsstring;
  b_baseBranch : option jsstring;
  b_createWorktree : bool
}.

Definition create_params (env : Env) (b : CreateBody) : CreateParams :=
  let sessionId := lit "session-" ++ Z_to_jsstring (now env) ++ lit "-" ++ randomTag env in
  let workingDir := match b_cwd b with
                    | Some ((_ :: _) as d) => d
                    | _ => LAUNCH_CWD env
                    end in
  {| p_sessionId := sessionId;
     p_agentId := b_agentId b;
     p_agentName := b_agentName b;
     p_command := b_command b;
     p_cwd := workingDir;
     p_nodeId := b_nodeId b;
     p_customName := b_customName b;
     p_customColor := b_customColor b;
     p_ticketId := b_ticketId b;
     p_ticketTitle := b_ticketTitle b;
     p_ticketUrl := b_ticketUrl b;
     p_branchName := b_branchName b;
     p_baseBranch := b_baseBranch b;
     p_createWorktreeFlag := b_createWorktree b;
     p_ticketPromptTemplate := ticketPromptTemplate env |}.

(** [POST /sessions] *)
Definition create_route (env : Env) (b : CreateBody) (w : World) : World * Response :=
  let p := create_params env b in
  match createSession env p w with
  | (w', Some result) =>
      (emit [EffSaveState] w',
       mkResponse 200 (BCreated (p_sessionId p) (p_nodeId p) (res_cwd result) (res_gitBranch result)))
  | (w', None) => (w', uncaught)
  end.

(** The inner loop of [POST /state/positions]: the first session, in the
    order of the registry, placed on the node takes the position. *)
Fixpoint place_node (node : jsstring) (pos : Z * Z) (entries : list (jsstring * nat))
  (h : list Session) : list Session :=
  match entries with
  | [] => h
  | (_, r) :: rest =>
      match h !! r with
      | Some s =>
          if decide (nodeId s = node) then <[r := set_position (Some pos) s]> h
          else place_node node pos rest h
      | None => place_node node pos rest h
      end
  end.

(** [POST /state/positions] on a body that carries [positions], given by
    the entries of that object. *)
Definition save_positions (positions : list (jsstring * (Z * Z))) (w : World)
  : World * Response :=
  let h := fold_left (fun h np => place_node (fst np) (snd np) (sessions w) h)
             positions (heap w) in
  (emit [EffSavePositions] (set_heap h w), ok).

(** ** Timers *)

Definition fire (t : Timeout) : Timeout := mkTimeout (to_delay t) (to_task t) true.

(** A pending [setTimeout] callback runs. *)
Definition fire_timeout (i : nat) (w : World) : World :=
  match timeouts w !! i with
  | Some t =>
      if to_fired t then w
      else
        let w := set_timeouts (<[i := fire t]> (timeouts w)) w in
        match to_task t with
        | TaskLaunch h command url id title template =>
            let w := emit [EffWrite h (TextCommand command)] w in
            match url with
            | Some ((_ :: _) as u) =>
                set_timeouts
                  (timeouts w ++
                   [mkTimeout 2000 (TaskTicketPrompt h (or_undefined template) u id title) false]) w
            | _ => w
            end
        | TaskTicketPrompt h template url id title =>
            emit [EffWrite h (TextTicketPrompt template url id title)] w
        | TaskRelaunch h r =>
            match heap w !! r with
            | Some s => emit [EffWrite h (TextCommand (command s))] w
            | None => w
            end
        end
  | None => w
  end.

(** ** Executions *)

(** What can happen to the engine: a request, a chunk from a pty, a timer. *)
Inductive Event :=
| EvRestore
| EvCreate (b : CreateBody)
| EvList
| EvStatus (id : jsstring)
| EvState
| EvRestart (id : jsstring)
| EvPatch (id : jsstring) (u : Updates)
| EvDelete (id : jsstring)
| EvPositions (positions : list (jsstring * (Z * Z)))
| EvData (handle : nat) (data : jsstring)
| EvTick (interval : nat)
| EvTimeout (timeout : nat).

Definition step (w : World) (ee : Env * Event) : World :=
  let '(env, ev) := ee in
  match ev with
  | EvRestore => restoreSessions env w
  | EvCreate b => fst (create_route env b w)
  | EvList => fst (list_sessions env w)
  | EvStatus id => fst (get_status env id w)
  | EvState => w
  | EvRestart id => fst (restart env id w)
  | EvPatch id u => fst (patch_session id u w)
  | EvDelete id => fst (delete_route env id w)
  | EvPositions ps => fst (save_positions ps w)
  | EvData h data => pty_data env h data w
  | EvTick i => decay_tick i w
  | EvTimeout i => fire_timeout i w
  end.

(** The world after a run of events, each with the environment it met. *)
Definition run (w : World) (events : list (Env * Event)) : World :=
  fold_left step events w.

(** ** The status classifier *)

(** An explicit signal from the reporting hook: the status it asserts and
    when it arrived. *)
Record Signal := mkSignal {
  sig_status : AgentStatus;
  sig_time : Z
}.

Record Thresholds := mkThresholds {
  signal_window : Z;     (* how long an explicit signal counts as recent *)
  short_threshold : Z;   (* output this recent means running *)
  idle_threshold : Z     (* no output for longer than this means idle *)
}.

Definition recent_signal (th : Thresholds) (t : Z) (sg : option Signal) : option AgentStatus :=
  match sg with
  | Some g => if t - sig_time g <=? signal_window th then Some (sig_status g) else None
  | None => None
  end.

Definition heuristic_status (th : Thresholds) (t : Z) (s : Session) : AgentStatus :=
  match pty s with
  | None => disconnected
  | Some _ =>
      if (0 <? recentOutputSize s) || (t - lastOutputTime s <? short_threshold th) then running
      else if idle_threshold th <? t - lastOutputTime s then idle
      else status s
  end.

(** Modelled from the spec: [detectStatus] of
    [server/services/statusDetector.ts], which is imported by the session
    manager and the routes but is not in this tree.  Section 4.3 of the
    specification: an explicit signal, when present and recent, takes
    precedence and sets the state directly; in its absence the heuristic
    applies: no process binding gives [disconnected]; a process binding with
    recent output volume above zero, or output more recent than a short
    threshold, gives [running]; a process binding with no output for longer
    than an idle threshold gives [idle].  The specification leaves the
    thresholds open and says nothing of the gap between the two; they are
    parameters here, and in the gap the stored status is kept. *)
Definition detectStatus_spec (th : Thresholds) (sg : option Signal) (t : Z) (s : Session)
  : AgentStatus :=
  match recent_signal th t sg with
  | Some st => st
  | None => heuristic_status th t s
  end.

(** ** A small installation, for running the model *)

Definition node_one : PersistedNode :=
  {| node_nodeId := lit "node-1"; node_sessionId := lit "session-1";
     node_agentId := lit "claude"; node_agentName := lit "Claude Code";
     node_command := lit "claude"; node_cwd := lit "/srv/app";
     node_createdAt := lit "2026-01-05T10:00:00.000Z";
     node_customName := Some (lit "backend"); node_customColor := None;
     node_notes := None; node_position := (40, 80) |}.

Definition node_two : PersistedNode :=
  {| node_nodeId := lit "node-2"; node_sessionId := lit "session-2";
     node_agentId := lit "opencode"; node_agentName := lit "OpenCode";
     node_command := lit "opencode"; node_cwd := lit "/srv/site";
     node_createdAt := lit "2026-01-05T11:30:00.000Z";
     node_customName := None; node_customColor := Some (lit "#22C55E");
     node_notes := Some (lit "landing page"); node_position := (400, 80) |}.

Definition demo_thresholds : Thresholds :=
  {| signal_window := 30000; short_threshold := 1000; idle_threshold := 3000 |}.

(** A machine with git, two saved nodes and their buffer files, at clock
    [t]; [dead] lists the directories in which no pty can be spawned. *)
Definition demo_env (t : Z) (quiet : bool) (dead : list jsstring) : Env :=
  {| now := t;
     isoNow := lit "2026-01-06T09:00:00.000Z";
     randomTag := lit "k3x9q2m1z";
     LAUNCH_CWD := lit "/srv/app";
     QUIET := quiet;
     readyState := fun c => if (c =? 7)%nat then 3 else 1;
     detectStatus := detectStatus_spec demo_thresholds None t;
     loadState := [node_one; node_two];
     loadBuffer := fun id =>
       if decide (id = lit "session-1") then [lit "$ claude"; lit "ready"]
       else if decide (id = lit "session-2") then [lit "$ opencode"]
       else [];
     git_available := true;
     git := fun args dir =>
       match args with
       | [_; _; _; _] =>
           if decide (dir = lit "/srv/app") then mkGitResult 0 (lit "main ") []
           else mkGitResult 128 [] (lit "fatal: not a git repository")
       | _ =>
           if decide (dir = lit "/srv/app") then mkGitResult 0 (lit "/srv/app") []
           else mkGitResult 128 [] (lit "fatal: not a git repository")
       end;
     existsSync := fun _ => false;
     mkdirSync_ok := fun _ => true;
     spawn_ok := fun _ _ => true;
     path_join := fun parts =>
       match parts with
       | [] => lit "."
       | first :: others => fold_left (fun path part => path ++ 47%N :: part) others first
       end;
     path_basename := fun path => rev (fst (span (fun c => negb (c =? 47)%N) (rev path)));
     pty_spawns := fun dir => negb (bool_decide (dir ∈ dead));
     ticketPromptTemplate := None |}.

Definition demo_body (agent : string) (branch : option jsstring) : CreateBody :=
  {| b_agentId := lit agent; b_agentName := lit agent; b_command := lit agent;
     b_cwd := Some (lit "/srv/site"); b_nodeId := lit "node-9";
     b_customName := None; b_customColor := None;
     b_ticketId := None; b_ticketTitle := None; b_ticketUrl := None;
     b_branchName := branch; b_baseBranch := Some (lit "main");
     b_createWorktree := true |}.

(** The chunks [0], [1], ..., [n-1], one code unit each. *)
Definition numbered_chunks (n : nat) : list jsstring :=
  List.map (fun i => [N.of_nat i]) (seq 0 n).

(** Feeding chunks to the handler of [createSession], one after another,
    each with the environment it arrives in. *)
Definition feed (agent : jsstring) (chunks : list (Env * jsstring)) (s : Session) : Session :=
  fold_left (fun s c => fst (onData_create (fst c) agent (snd c) s)) chunks s.

(** The last [n] elements of a list. *)
Definition keep_last {A} (n : nat) (l : list A) : list A := drop (length l - n) l.

(** ** Vocabulary of the properties *)

(** Every session object of the store satisfies [P]. *)
Definition heap_all (P : Session -> Prop) (w : World) : Prop := Forall P (heap w).

(** A restore event meets buffer files of at most [MAX_BUFFER_SIZE] chunks. *)
Definition restores_within_bound (ee : Env * Event) : Prop :=
  snd ee = EvRestore -> forall id, (length (loadBuffer (fst ee) id) <= MAX_BUFFER_SIZE)%nat.

(** The candidates of a text: the matches of the tag pattern in the text
    once colour codes are stripped and white space is normalized, in the
    order of the text. *)
Definition candidates (data : jsstring) : list jsstring :=
  match_all (normalize_ws (strip_ansi data)).

(** A piece of text that the tag pattern matches: [[OPENUI:{], then one
    code unit or more of which none is a closing brace, then [}]]. *)
Definition is_tag (t : jsstring) : Prop :=
  exists body, t = lit "[OPENUI:{" ++ body ++ lit "}]" /\ body <> [] /\ ~ In 125%N body.

(** The tags of a text as a global match finds them, written without the
    matching function: [tags_in_order text l] says that [l] is empty and
    no tag stands anywhere in [text], or that [l] begins with the leftmost
    tag of [text] (no tag begins before it) and goes on with the tags so
    found in the text behind that tag. *)
Inductive tags_in_order : jsstring -> list jsstring -> Prop :=
| tags_none text :
    (forall pre t post, text = pre ++ t ++ post -> ~ is_tag t) ->
    tags_in_order text []
| tags_next text gap t rest cands :
    text = gap ++ t ++ rest ->
    is_tag t ->
    (forall pre t' post, text = pre ++ t' ++ post -> is_tag t' ->
       (length gap <= length pre)%nat) ->
    tags_in_order rest cands ->
    tags_in_order text (t :: cands).

(** The payload of a candidate: what is left without the [[OPENUI:] before
    and the bracket after. *)
Definition payload (cand : jsstring) : jsstring := js_slice cand 8 (-1).

(** The parsed payload is an object with a member of that name. *)
Definition has_field (json : jsval) (k : string) : Prop :=
  match json with
  | JObj ms => In (lit k) (List.map fst ms)
  | _ => False
  end.

(** The value of a member of a parsed object, [undefined] if there is none. *)
Definition field (json : jsval) (k : string) : jsval :=
  match json with
  | JObj ms => assoc_last (lit k) ms JUndefined
  | _ => JUndefined
  end.

(** A candidate is acceptable when its payload parses as JSON and carries
    the model [m] or the cost [c]. *)
Definition acceptable (cand : jsstring) : Prop :=
  exists json, JSON_parse (payload cand) = Some json
               /\ (has_field json "m" \/ has_field json "c").

(** A value as [JSON.parse] builds them: never [undefined], and a number
    is a decimal. *)
Definition parsed_value (v : jsval) : Prop :=
  match v with
  | JUndefined => False
  | JNum (Dec _ _ _) => True
  | JNum _ => False
  | _ => True
  end.

Definition parsed_members (ms : list (jsstring * jsval)) : Prop :=
  Forall (fun kv => parsed_value (snd kv)) ms.

(** A number that is zero, of either sign. *)
Definition num_is_zero (n : jsnum) : bool :=
  match n with
  | Dec _ m e => dec_rounds_to_zero m e
  | _ => false
  end.

(** The creation request asks for a worktree on [branch] from [base]: the
    condition [createWorktreeFlag && branchName && baseBranch]. *)
Definition wants_worktree (p : CreateParams) (branch base : jsstring) : Prop :=
  p_createWorktreeFlag p = true
  /\ p_branchName p = Some branch /\ branch <> []
  /\ p_baseBranch p = Some base /\ base <> [].

(** The last node of a document that carries a session id: the one whose
    placeholder the registry keeps. *)
Fixpoint last_node (id : jsstring) (nodes : list PersistedNode) : option PersistedNode :=
  match nodes with
  | [] => None
  | node :: rest =>
      match last_node id rest with
      | Some later => Some later
      | None => if decide (node_sessionId node = id) then Some node else None
      end
  end.

(** The defaults of a snapshot, field by field: a field of the payload
    that is there and truthy is taken as it is; a missing or falsy one
    gives way to its default.  The cost of a number is that number, the
    cost of anything else is what [parseFloat] reads in it, or 0. *)
Definition defaults_applied (json : jsval) (r : ClaudeMetrics) : Prop :=
  let zero := JNum (Dec false 0 0) in
  model r = (if truthy (field json "m") then field json "m" else JStr (lit "Claude"))
  /\ cost r = match field json "c" with
              | JNum n => n
              | c => if num_truthy (parseFloat c) then parseFloat c else Dec false 0 0
              end
  /\ (truthy (field json "c") = false -> num_is_zero (cost r) = true)
  /\ linesAdded r = (if truthy (field json "la") then field json "la" else zero)
  /\ linesRemoved r = (if truthy (field json "lr") then field json "lr" else zero)
  /\ contextPercent r = (if truthy (field json "cp") then field json "cp" else zero)
  /\ inputTokens r = (if truthy (field json "it") then field json "it" else zero)
  /\ outputTokens r = (if truthy (field json "ot") then field json "ot" else zero)
  /\ state r = (if truthy (field json "s") then field json "s" else JUndefined).

(** The model name and the numeric fields of a snapshot are defined. *)
Definition fields_defined (r : ClaudeMetrics) : Prop :=
  model r <> JUndefined /\ cost r <> NaN
  /\ linesAdded r <> JUndefined /\ linesRemoved r <> JUndefined
  /\ contextPercent r <> JUndefined
  /\ inputTokens r <> JUndefined /\ outputTokens r <> JUndefined.

(** ** Sample data *)

(** A text written with apostrophes for the quotation marks of JSON. *)
Definition quoted (s : string) : jsstring :=
  List.map (fun c => if (c =? 39)%N then 34%N else c) (lit s).

Definition demo_text : jsstring :=
  quoted "ok [OPENUI:{'m':'Opus','c':'0.5 usd','la':12,'s':''}] [OPENUI:{'x':1}] [OPENUI:{oops}]".

(** Output with three candidates: two acceptable ones, the later of which
    carries the model [B], and a last one that is no JSON. *)
Definition demo_two_tags : jsstring :=
  quoted "[OPENUI:{'m':'A'}] then [OPENUI:{'m':'B','c':2}] [OPENUI:{oops}]".

Definition demo_metrics : ClaudeMetrics :=
  {| model := JStr (lit "Opus");
     cost := Dec false 5 (-1);
     linesAdded := JNum (Dec false 12 0);
     linesRemoved := JNum (Dec false 0 0);
     contextPercent := JNum (Dec false 0 0);
     inputTokens := JNum (Dec false 0 0);
     outputTokens := JNum (Dec false 0 0);
     state := JUndefined |}.

(** The snapshot of the second candidate of [demo_two_tags]. *)
Definition demo_later_metrics : ClaudeMetrics :=
  {| model := JStr (lit "B");
     cost := Dec false 2 0;
     linesAdded := JNum (Dec false 0 0);
     linesRemoved := JNum (Dec false 0 0);
     contextPercent := JNum (Dec false 0 0);
     inputTokens := JNum (Dec false 0 0);
     outputTokens := JNum (Dec false 0 0);
     state := JUndefined |}.

Definition e0 : Env := demo_env 1000 false [].

(** The same machine when nothing can be written beside the repository:
    [mkdirSync] throws. *)
Definition e_readonly : Env :=
  {| now := now e0; isoNow := isoNow e0; randomTag := randomTag e0;
     LAUNCH_CWD := LAUNCH_CWD e0; QUIET := QUIET e0; readyState := readyState e0;
     detectStatus := detectStatus e0; loadState := loadState e0;
     loadBuffer := loadBuffer e0; git_available := git_available e0; git := git e0;
     existsSync := existsSync e0; mkdirSync_ok := fun _ => false;
     spawn_ok := spawn_ok e0; path_join := path_join e0;
     path_basename := path_basename e0; pty_spawns := pty_spawns e0;
     ticketPromptTemplate := ticketPromptTemplate e0 |}.

(** Startup, one session created for Claude in a directory that is not a
    git repository, and a first chunk from its pty. *)
Definition demo_events : list (Env * Event) :=
  [(e0, EvRestore);
   (e0, EvCreate (demo_body "claude" (Some (lit "feat/x"))));
   (demo_env 1200 false [], EvData 0 (lit "hello"))].

Definition demo_world : World := run empty_world demo_events.

Definition demo_id : jsstring := lit "session-1000-k3x9q2m1z".

(** A session with two observers, the second with a closed socket, and a
    snapshot already stored. *)
Definition demo_session : Session :=
  set_metrics (Some demo_metrics)
    (new_session e0 (create_params e0 (demo_body "claude" None))
       (mkProvision (lit "/srv/site") None None) None 0).

Definition watched_session : Session :=
  {| pty := Some 0%nat; agentId := lit "claude"; agentName := lit "Claude Code";
     command := lit "claude"; cwd := lit "/srv/app"; gitBranch := None;
     worktreePath := None; createdAt := isoNow e0; clients := [4; 7]%nat;
     outputBuffer := []; status := running; lastOutputTime := 900;
     lastInputTime := 0; recentOutputSize := 10; customName := None;
     customColor := None; notes := None; nodeId := lit "node-3";
     isRestored := false; metrics := Some demo_metrics; ticketId := None;
     ticketTitle := None; ticketUrl := None; position := None |}.

(** The references of the registry point into the store and are distinct. *)
Definition refs_fresh (w : World) : Prop :=
  Forall (fun e => (snd e < length (heap w))%nat) (sessions w)
  /\ NoDup (snd <$> sessions w).

(** The timer [i] of the world is running for the session object [r]
    registered as [id]. *)
Definition timer_for (w : World) (i : nat) (id : jsstring) (r : nat) : Prop :=
  exists iv, intervals w !! i = Some iv /\ iv_cleared iv = false
             /\ iv_sessionId iv = id /\ iv_session iv = r.

(** Every registered session that has a process has a running timer. *)
Definition live_have_timers (w : World) : Prop :=
  forall id r s, In (id, r) (sessions w) -> heap w !! r = Some s -> is_Some (pty s) ->
                 exists i, timer_for w i id r.

(** A step that leaves the registry and the timers alone and keeps the
    process binding of every session object. *)
Definition same_bindings (w w' : World) : Prop :=
  sessions w' = sessions w /\ intervals w' = intervals w
  /\ pty <$> heap w' = pty <$> heap w.


(** ** The text written to a pty *)

(** [GetSubstitution] for a pattern without capture groups: in the
    replacement text, a dollar doubled is a dollar, dollar-ampersand is the
    match, dollar-backquote what stands before the match and
    dollar-apostrophe what stands after it; any other dollar stands for
    itself. *)
Fixpoint get_substitution (matched before after repl : jsstring) : jsstring :=
  match repl with
  | [] => []
  | c :: r =>
      if (c =? 36)%N then
        match r with
        | d :: r' =>
            if (d =? 36)%N then 36%N :: get_substitution matched before after r'
            else if (d =? 38)%N then matched ++ get_substitution matched before after r'
            else if (d =? 96)%N then before ++ get_substitution matched before after r'
            else if (d =? 39)%N then after ++ get_substitution matched before after r'
            else 36%N :: get_substitution matched before after r
        | [] => [36%N]
        end
      else c :: get_substitution matched before after r
  end.

(** [s.replace(/pat/g, repl)] for a pattern that matches the non-empty
    text [pat] and nothing else.  [before] is what has been read of [s],
    [skip] counts the code units of the current match still to be passed. *)
Fixpoint replace_from (pat repl before : jsstring) (skip : nat) (l : jsstring) : jsstring :=
  match l with
  | [] => []
  | c :: l' =>
      match skip with
      | S k => replace_from pat repl (before ++ [c]) k l'
      | O =>
          match strip_prefix pat l with
          | Some rest =>
              get_substitution pat before rest repl
                ++ replace_from pat repl (before ++ [c]) (length pat - 1) l'
          | None => c :: replace_from pat repl (before ++ [c]) 0 l'
          end
      end
  end.

Definition replace_all (pat repl s : jsstring) : jsstring := replace_from pat repl [] 0 s.

(** [defaultTemplate] of [createSession]. *)
Definition DEFAULT_TICKET_TEMPLATE : jsstring :=
  lit "Here is the ticket for this session: {{url}}" ++ [10%N; 10%N]
  ++ lit "Please use the Linear MCP tool or fetch the URL to read the full ticket details before starting work.".

(** [ticketPrompt] of the inner timer of [createSession]. *)
Definition ticket_prompt (template : option jsstring) (url : jsstring)
  (id title : option jsstring) : jsstring :=
  let template := match template with
                  | Some ((_ :: _) as t) => t
                  | _ => DEFAULT_TICKET_TEMPLATE
                  end in
  replace_all (lit "{{title}}") (default [] title)
    (replace_all (lit "{{id}}") (default [] id)
       (replace_all (lit "{{url}}") url template)).

(** The code units that [ptyProcess.write] receives. *)
Definition written (t : PtyText) : jsstring :=
  match t with
  | TextCommand command => command ++ [13%N]
  | TextTicketPrompt template url id title => ticket_prompt template url id title ++ [13%N]
  end.

(** The segments of a template joined by a placeholder. *)
Fixpoint join_with (sep : jsstring) (segments : list jsstring) : jsstring :=
  match segments with
  | [] => []
  | [s] => s
  | s :: rest => s ++ sep ++ join_with sep rest
  end.

(** ** Categories: the routes under [/categories]

    The routes read the saved state with [loadState] and write the whole
    state back; the nodes are written as read.  A category is whatever
    JSON value was posted.  The members of an object are kept as a list in
    which a later member of the same name wins, as [assoc_last] reads
    them; the order of the list carries no meaning. *)

(** The own enumerable properties of a value, as [Object.assign] reads
    them from its source: the members of an object, the elements of an
    array and the code units of a string under their indices. *)
Definition own_entries (v : jsval) : list (jsstring * jsval) :=
  match v with
  | JObj ms => ms
  | JArr es => imap (fun i e => (N_to_jsstring (N.of_nat i), e)) es
  | JStr s => imap (fun i c => (N_to_jsstring (N.of_nat i), JStr [c])) s
  | _ => []
  end.

(** [target[key] = value] on an ordinary object.  The name [__proto__]
    reaches the setter of [Object.prototype] unless the object has a member
    of its own under that name, which only [JSON.parse] can give it; the
    setter adds no member. *)
Definition assign_member (target : list (jsstring * jsval)) (kv : jsstring * jsval)
  : list (jsstring * jsval) :=
  if decide (fst kv = lit "__proto__") then
    if bool_decide (fst kv ∈ fst <$> target) then target ++ [kv] else target
  else target ++ [kv].

(** [Object.assign(target, source)] *)
Definition object_assign (target : list (jsstring * jsval)) (source : jsval)
  : list (jsstring * jsval) :=
  fold_left assign_member (own_entries source) target.

(** [cat.id === categoryId]; [None] is the [TypeError] of reading [id] of
    [null]. *)
Definition has_id (id : jsstring) (cat : jsval) : option bool :=
  v ← get_prop cat (lit "id");
  Some (match v with JStr s => bool_decide (s = id) | _ => false end).

(** [categories.findIndex(cat => cat.id === categoryId)]: [Some None] is
    the answer -1. *)
Fixpoint find_index (id : jsstring) (cats : list jsval) : option (option nat) :=
  match cats with
  | [] => Some None
  | cat :: rest =>
      hit ← has_id id cat;
      if hit : bool then Some (Some 0%nat)
      else found ← find_index id rest; Some (S <$> (found : option nat))
  end.

Definition category_not_found : Response :=
  mkResponse 404 (BError (lit "Category not found")).

(** [GET /categories]: [state.categories || []] *)
Definition get_categories (cats : option (list jsval)) : list jsval := default [] cats.

(** [POST /categories]: the categories of the state it writes, and its
    response. *)
Definition post_category (cats : option (list jsval)) (category : jsval)
  : list jsval * Response :=
  (default [] cats ++ [category], ok).

(** [PATCH /categories/:categoryId]: the categories of the state it writes,
    if it writes, and its response. *)
Definition patch_category (cats : option (list jsval)) (id : jsstring) (updates : jsval)
  : option (list jsval) * Response :=
  match cats with
  | None => (None, category_not_found)
  | Some l =>
      match find_index id l with
      | None => (None, uncaught)
      | Some None => (None, category_not_found)
      | Some (Some i) =>
          match l !! i with
          | Some (JObj ms) => (Some (<[i := JObj (object_assign ms updates)]> l), ok)
          | _ => (None, uncaught)
          end
      end
  end.

(** [DELETE /categories/:categoryId]; [splice(index, 1)] is [delete]. *)
Definition delete_category (cats : option (list jsval)) (id : jsstring)
  : option (list jsval) * Response :=
  match cats with
  | None => (None, category_not_found)
  | Some l =>
      match find_index id l with
      | None => (None, uncaught)
      | Some None => (None, category_not_found)
      | Some (Some i) => (Some (delete i l), ok)
      end
  end.

(** The value of a member of a category, [undefined] when the category is
    no object or has no such member. *)
Definition member (v : jsval) (k : jsstring) : jsval :=
  match v with
  | JObj ms => assoc_last k ms JUndefined
  | _ => JUndefined
  end.

(** ** [POST /state/positions] on any body

    [save_positions] is the route on a body that carries positions.  The
    route begins by taking [positions] out of the body and walking
    [Object.entries(positions)]; this throws, before anything is changed
    or saved, when the body is no JSON or [null] and when its [positions]
    is missing or [null].  [Some positions] is a body that carries a
    [positions] object, given by its entries; [None] is any other body. *)
Definition post_positions (body : option (list (jsstring * (Z * Z)))) (w : World)
  : World * Response :=
  match body with
  | Some positions => save_positions positions w
  | None => (w, uncaught)
  end.

(** ** The Linear settings: [GET] and [POST /linear/config]

    [loadConfig] and [saveConfig] belong to [services/linear], outside this
    tree; the routes are functions of the configuration loaded and give the
    one saved. *)

Record LinearConfig := mkLinearConfig {
  lc_apiKey : jsval;
  lc_defaultTeamId : jsval;
  lc_defaultBaseBranch : jsval;
  lc_createWorktree : jsval;
  lc_ticketPromptTemplate : jsval
}.

(** The object that [GET /linear/config] answers with. *)
Record LinearConfigView := mkLinearConfigView {
  hasApiKey : bool;
  view_defaultTeamId : jsval;
  view_defaultBaseBranch : jsval;
  view_createWorktree : jsval;
  view_ticketPromptTemplate : jsval
}.

(** [DEFAULT_TICKET_PROMPT] of [routes/api.ts]. *)
Definition DEFAULT_TICKET_PROMPT : jsstring :=
  lit "Here is the ticket for this session: {{url}}" ++ [10%N; 10%N]
  ++ lit "Please use the Linear MCP tool or fetch the URL to read the full ticket details before starting work.".

(** [a ?? b] *)
Definition nullish_or (a b : jsval) : jsval :=
  match a with JUndefined | JNull => b | _ => a end.

Definition get_linear_config (config : LinearConfig) : LinearConfigView :=
  {| hasApiKey := truthy (lc_apiKey config);
     view_defaultTeamId := lc_defaultTeamId config;
     view_defaultBaseBranch := js_or (lc_defaultBaseBranch config) (JStr (lit "main"));
     view_createWorktree := nullish_or (lc_createWorktree config) (JBool true);
     view_ticketPromptTemplate :=
       js_or (lc_ticketPromptTemplate config) (JStr DEFAULT_TICKET_PROMPT) |}.

(** [if (body.x !== undefined) config.x = body.x] *)
Definition updated (old : jsval) (new : jsval) : jsval :=
  if is_undefined new then old else new.

(** [POST /linear/config]: the configuration handed to [saveConfig];
    [None] when reading the body throws. *)
Definition post_linear_config (body : jsval) (config : LinearConfig) : option LinearConfig :=
  apiKey ← get_prop body (lit "apiKey");
  defaultTeamId ← get_prop body (lit "defaultTeamId");
  defaultBaseBranch ← get_prop body (lit "defaultBaseBranch");
  createWorktree ← get_prop body (lit "createWorktree");
  template ← get_prop body (lit "ticketPromptTemplate");
  Some {| lc_apiKey := updated (lc_apiKey config) apiKey;
          lc_defaultTeamId := updated (lc_defaultTeamId config) defaultTeamId;
          lc_defaultBaseBranch := updated (lc_defaultBaseBranch config) defaultBaseBranch;
          lc_createWorktree := updated (lc_createWorktree config) createWorktree;
          lc_ticketPromptTemplate := updated (lc_ticketPromptTemplate config) template |}.

(** The template as a string, for the configurations that hold a string or
    nothing under [ticketPromptTemplate]. *)
Definition template_text (v : jsval) : option jsstring :=
  match v with JStr s => Some s | _ => None end.

(** ** The cost cache: [getTokensForSession]

    The module keeps the sessions read from [~/.claude/cost_cache.json] and
    the time of the last reading. *)

Definition CACHE_TTL : Z := 10000.

(** What the module finds at [COST_CACHE_PATH]. *)
Inductive FileState :=
| FileMissing                      (* [existsSync] is false *)
| FileUnreadable                   (* [readFileSync] throws *)
| FileContent (raw : jsstring).

Record CostCache := mkCostCache {
  cachedSessions : jsval;
  lastReadTime : Z
}.

(** The module as loaded. *)
Definition initial_cost_cache : CostCache :=
  {| cachedSessions := JObj []; lastReadTime := 0 |}.

(** [refreshCache], at clock [t]. *)
Definition refreshCache (t : Z) (file : FileState) (c : CostCache) : CostCache :=
  if t - lastReadTime c <? CACHE_TTL then c
  else
    let stale := {| cachedSessions := cachedSessions c; lastReadTime := t |} in
    match file with
    | FileMissing | FileUnreadable => stale
    | FileContent raw =>
        match JSON_parse raw ≫= (fun data => get_prop data (lit "sessions")) with
        | Some sessions => {| cachedSessions := js_or sessions (JObj []); lastReadTime := t |}
        | None => stale
        end
    end.

(** A canonical array index: [0], or digits that do not start with 0. *)
Definition array_index (key : jsstring) : option nat :=
  match key with
  | [] => None
  | c :: rest =>
      if forallb is_digit key && (negb (c =? 48)%N || bool_decide (rest = []))
      then Some (N.to_nat (digits_val key)) else None
  end.

(** [cachedSessions[id]].  A member inherited from [Object.prototype], or
    from the prototype of arrays, strings, numbers or booleans, is a
    function, a number or a one-letter string: none of them has [tokens],
    and all are given as [undefined] here. *)
Definition session_entry (cached : jsval) (id : jsstring) : jsval :=
  match cached with
  | JObj ms => assoc_last id ms JUndefined
  | JArr es =>
      match array_index id with
      | Some i => default JUndefined (es !! i)
      | None => JUndefined
      end
  | _ => JUndefined
  end.

(** [entry?.tokens ?? null] *)
Definition tokens_of (entry : jsval) : jsval :=
  nullish_or (member entry (lit "tokens")) JNull.

(** [getTokensForSession], at clock [t]: the module state it leaves and
    its answer. *)
Definition getTokensForSession (t : Z) (file : FileState) (id : option jsstring)
  (c : CostCache) : CostCache * jsval :=
  match id with
  | Some ((_ :: _) as id') =>
      let c' := refreshCache t file c in
      (c', tokens_of (session_entry (cachedSessions c') id'))
  | _ => (c, JNull)
  end.

(** ** Vocabulary of the further properties *)

(** No two entries of the registry have the same session id. *)
Definition ids_unique (w : World) : Prop := NoDup (fst <$> sessions w).

(** The registry of a world reached by running the engine. *)
Definition well_formed (w : World) : Prop := refs_fresh w /\ ids_unique w.

(** The git commands that change the repository, in the order they run. *)
Definition git_commands (es : list Effect) : list (list jsstring * jsstring) :=
  omap (fun e => match e with EffGit args dir => Some (args, dir) | _ => None end) es.

(** The worktree directory of a branch under a repository root. *)
Definition worktree_path (env : Env) (gitRoot branchName : jsstring) : jsstring :=
  path_join env
    [path_join env [gitRoot; lit ".."; path_basename env gitRoot ++ lit "-worktrees"];
     sanitize_branch branchName].

(** The command that [createWorktree] adds the worktree with. *)
Definition add_command (env : Env) (gitRoot branchName baseBranch : jsstring) : list jsstring :=
  let path := worktree_path env gitRoot branchName in
  let verify ref := exitCode (git env [lit "git"; lit "rev-parse"; lit "--verify"; ref] gitRoot) in
  if verify branchName =? 0 then
    [lit "git"; lit "worktree"; lit "add"; path; branchName]
  else if verify (lit "origin/" ++ branchName) =? 0 then
    [lit "git"; lit "worktree"; lit "add"; lit "--track"; lit "-b"; branchName; path;
     lit "origin/" ++ branchName]
  else
    [lit "git"; lit "worktree"; lit "add"; lit "-b"; branchName; path;
     lit "origin/" ++ baseBranch].

(** Two session objects that differ at most in the given field. *)
Definition same_but_position (s s' : Session) : Prop := s' = set_position (position s') s.

Definition same_but_status (s s' : Session) : Prop := s' = set_status (status s') s.

(** Updates applied one after the other amount to one update: the later
    one wins where it speaks. *)
Definition then_updates (u1 u2 : Updates) : Updates :=
  {| u_customName := match u_customName u2 with Some v => Some v | None => u_customName u1 end;
     u_customColor := match u_customColor u2 with Some v => Some v | None => u_customColor u1 end;
     u_notes := match u_notes u2 with Some v => Some v | None => u_notes u1 end |}.

(** The node ids of a request to [POST /state/positions]. *)
Definition placed_nodes (positions : list (jsstring * (Z * Z))) : list jsstring :=
  fst <$> positions.

(** The last [n] code units of the joined output history. *)
Definition scan_window (s : Session) : jsstring :=
  keep_last 5000 (js_join_empty (outputBuffer s)).

(** The messages sent to one socket, in the order they are sent. *)
Definition messages_to (c : nat) (es : list Effect) : list Message :=
  omap (fun e => match e with
                 | EffSend c' msg => if decide (c' = c) then Some msg else None
                 | _ => None
                 end) es.

(** ** More sample data *)

(** A request for a session of Claude in the repository [/srv/app], in a
    worktree for the branch [feat/x]. *)
Definition demo_params : CreateParams :=
  {| p_sessionId := lit "session-7"; p_agentId := lit "claude";
     p_agentName := lit "Claude Code"; p_command := lit "claude";
     p_cwd := lit "/srv/app"; p_nodeId := lit "node-7";
     p_customName := None; p_customColor := None;
     p_ticketId := Some (lit "T-1"); p_ticketTitle := Some (lit "Fix login");
     p_ticketUrl := Some (lit "https://linear.app/t/T-1");
     p_branchName := Some (lit "feat/x"); p_baseBranch := Some (lit "main");
     p_createWorktreeFlag := true; p_ticketPromptTemplate := None |}.

(** The content of a cost cache file. *)
Definition demo_cost_file : jsstring :=
  quoted "{'sessions':{'abc':{'tokens':1200,'cost':0.5},'old':{'cost':1}}}".

(** Saved categories. *)
Definition demo_categories : list jsval :=
  [JObj [(lit "id", JStr (lit "cat-1")); (lit "label", JStr (lit "Backend"))];
   JObj [(lit "id", JStr (lit "cat-2")); (lit "label", JStr (lit "Site"))];
   JObj [(lit "id", JStr (lit "cat-1")); (lit "label", JStr (lit "Copy"))]].

(** * Properties *)

(** ** Records and their setters *)

Lemma heap_emit es w : heap (emit es w) = heap w.
Proof. reflexivity. Qed.

Lemma Forall_snoc {A} (P : A -> Prop) (l : list A) (x : A) :
  Forall P l -> P x -> Forall P (l ++ [x]).
Proof. intros Hl Hx. apply Forall_app. split; [exact Hl | by constructor]. Qed.

(** ** The registry *)

Lemma map_get_set_eq {V} k (v : V) m : map_get k (map_set k v m) = Some v.
Proof.
  induction m as [|[k' v'] m IH]; cbn.
  - by rewrite decide_True.
  - destruct (decide (k' = k)) as [->|Hne]; cbn.
    + by rewrite decide_True.
    + by rewrite decide_False.
Qed.

Lemma map_get_set_ne {V} k k' (v : V) m : k <> k' -> map_get k' (map_set k v m) = map_get k' m.
Proof.
  intros Hne. induction m as [|[k0 v0] m IH]; cbn.
  - by rewrite decide_False.
  - destruct (decide (k0 = k)) as [->|Hne0]; cbn.
    + by rewrite !decide_False.
    + destruct (decide (k0 = k')); [reflexivity | exact IH].
Qed.

Lemma lookup_snoc {A} (l : list A) (x : A) : (l ++ [x]) !! length l = Some x.
Proof. rewrite lookup_app_r by lia. by rewrite Nat.sub_diag. Qed.


(** ** Scanning strings *)

Lemma span_spec p l a b :
  span p l = (a, b) -> l = a ++ b /\ Forall (fun c => p c = true) a.
Proof.
  revert a b. induction l as [|c l IH]; intros a b; cbn.
  - intros [= <- <-]. by split.
  - destruct (p c) eqn:Hc.
    + destruct (span p l) as [a' b'] eqn:Hspan. intros [= <- <-].
      destruct (IH _ _ eq_refl) as [-> Ha]. split; [reflexivity | by constructor].
    + intros [= <- <-]. by split.
Qed.

Lemma strip_prefix_spec p l r : strip_prefix p l = Some r -> l = p ++ r.
Proof.
  revert l. induction p as [|a p IH]; intros l; cbn.
  - by intros [= ->].
  - destruct l as [|b l]; [discriminate|].
    destruct (N.eqb_spec a b) as [->|]; [|discriminate].
    intros H. by rewrite (IH _ H).
Qed.

Lemma strip_prefix_app p l : strip_prefix p (p ++ l) = Some l.
Proof. induction p as [|c p IH]; cbn; [reflexivity|]. by rewrite N.eqb_refl. Qed.

Lemma span_stop p body c rest :
  Forall (fun x => p x = true) body -> p c = false ->
  span p (body ++ c :: rest) = (body, c :: rest).
Proof.
  intros Hbody Hc. induction Hbody as [|x body Hx _ IH]; cbn.
  - by rewrite Hc.
  - by rewrite Hx, IH.
Qed.

(** ** The model on small inputs *)

Example strip_ansi_colours :
  strip_ansi ([27%N] ++ lit "[1;31mred" ++ [27%N] ++ lit "[0m" ++ [27%N] ++ lit "[12x")
  = lit "red" ++ [27%N] ++ lit "[12x".
Proof. vm_compute. reflexivity. Qed.

Example normalize_ws_runs :
  normalize_ws (lit "a  b" ++ [10%N; 9%N; 160%N] ++ lit "c ") = lit "a b c ".
Proof. vm_compute. reflexivity. Qed.

Example slice_payload : js_slice (lit "[OPENUI:{x}]") 8 (-1) = lit "{x}".
Proof. vm_compute. reflexivity. Qed.

Example slice_tail : js_slice_from (lit "abcdef") (-4) = lit "cdef".
Proof. vm_compute. reflexivity. Qed.

Example slice_tail_short : js_slice_from (lit "ab") (-5000) = lit "ab".
Proof. vm_compute. reflexivity. Qed.

(** Matches do not overlap: a tag opened inside an unfinished one is
    swallowed by it. *)
Example match_all_nested :
  match_all (quoted "[OPENUI:{'m':1}] [OPENUI:{}] [OPENUI:{a [OPENUI:{'c':2}] [OPENUI:{z}")
  = [quoted "[OPENUI:{'m':1}]"; quoted "[OPENUI:{a [OPENUI:{'c':2}]"].
Proof. vm_compute. reflexivity. Qed.

Example parse_object :
  JSON_parse (quoted " { 'a' : [1, [2.50], 'x\n'] , 'a': -1.5e-3, 'b':null} ")
  = Some (JObj [(lit "a", JArr [JNum (Dec false 1 0); JArr [JNum (Dec false 250 (-2))];
                                JStr (lit "x" ++ [10%N])]);
                (lit "a", JNum (Dec true 15 (-4)));
                (lit "b", JNull)]).
Proof. vm_compute. reflexivity. Qed.

Example parse_rejects :
  List.map JSON_parse
    [quoted "{'a':01}"; quoted "{'a':1,}"; quoted "{'a' 1}"; quoted "{a:1}"; lit "[1,]";
     lit "[1 2]"; lit "{"; lit "tru"; lit "1."; lit "1e"; lit "-"; lit ""; lit "[]x"]
  = List.map (fun _ => None) (seq 0 13).
Proof. vm_compute. reflexivity. Qed.

Example duplicate_key_last_wins :
  field (JObj [(lit "a", JNull); (lit "b", JBool true); (lit "a", JBool false)]) "a"
  = JBool false.
Proof. vm_compute. reflexivity. Qed.

Example parseFloat_prefixes :
  List.map (fun s => parseFloat (JStr (lit s)))
    ["  -12.5e2abc"; ".5"; "."; "1.e5"; "1e+"; "+Infinityx"; "abc"; ""]%string
  = [Dec true 125 1; Dec false 5 (-1); NaN; Dec false 1 5; Dec false 1 0;
     Infinity false; NaN; NaN].
Proof. vm_compute. reflexivity. Qed.

Example parseFloat_of_values :
  List.map parseFloat [JUndefined; JNull; JBool true; JArr [JNum (Dec false 15 (-1)); JNull];
                       JArr []; JObj []]
  = [NaN; NaN; NaN; Dec false 15 (-1); NaN; NaN].
Proof. vm_compute. reflexivity. Qed.

(** A decimal too small for a double is zero, hence falsy. *)
Example tiny_is_falsy :
  (num_truthy (Dec false 1 (-400)), num_truthy (Dec false 1 (-300)), num_truthy (Dec true 0 0))
  = (false, true, false).
Proof. vm_compute. reflexivity. Qed.

Example parseMetrics_sample : parseMetrics demo_text = Some demo_metrics.
Proof. vm_compute. reflexivity. Qed.

(** The field [m] is taken as it is when truthy, whatever its type. *)
Example parseMetrics_untyped_model :
  model <$> parseMetrics (quoted "[OPENUI:{'m':7}]") = Some (JNum (Dec false 7 0)).
Proof. vm_compute. reflexivity. Qed.

Example parseMetrics_no_essential_field :
  parseMetrics (quoted "[OPENUI:{'la':3,'s':'idle'}]") = None.
Proof. vm_compute. reflexivity. Qed.

(** A line break inside the tag is normalized away before parsing. *)
Example parseMetrics_across_lines :
  cost <$> parseMetrics (quoted "[OPENUI:{'c':" ++ [13%N; 10%N] ++ quoted "2}]")
  = Some (Dec false 2 0).
Proof. vm_compute. reflexivity. Qed.

Example push_chunk_full :
  push_chunk (numbered_chunks 1000) (lit "new")
  = drop 1 (numbered_chunks 1000) ++ [lit "new"].
Proof. vm_compute. reflexivity. Qed.

Example demo_world_sessions :
  List.map (fun s => (pty s, status s, isRestored s, length (outputBuffer s), recentOutputSize s))
    (heap demo_world)
  = [(None, disconnected, true, 2%nat, 0);
     (None, disconnected, true, 1%nat, 0);
     (Some 0%nat, running, false, 1%nat, 5)].
Proof. vm_compute. reflexivity. Qed.

Example demo_world_registry :
  sessions demo_world = [(lit "session-1", 0%nat); (lit "session-2", 1%nat); (demo_id, 2%nat)].
Proof. vm_compute. reflexivity. Qed.

(** A restored session can be restarted once; the second request is
    refused. *)
Example restart_twice :
  let '(w1, first) := restart e0 (lit "session-1") demo_world in
  let '(w2, second) := restart e0 (lit "session-1") w1 in
  (code first, code second, length (ptys w1), length (ptys w2)) = (200, 400, 2%nat, 2%nat).
Proof. vm_compute. reflexivity. Qed.

Example state_of_demo_world :
  match body (get_state e0 demo_world) with
  | BState nodes => List.map (fun n => (nv_status n, nv_isRestored n)) nodes
  | _ => []
  end = [(disconnected, Some true); (disconnected, Some true)].
Proof. vm_compute. reflexivity. Qed.

(** ** Invariants of the session objects

    A property of session objects that every handler keeps, and that new
    objects have, holds of every object of the store after every run. *)
Section HeapInvariant.

Variable P : Session -> Prop.
(** What the property asks of the environment in which sessions are
    restored. *)
Variable admissible : Env -> Prop.

Hypothesis P_new : forall env p pv branch handle, P (new_session env p pv branch handle).
Hypothesis P_placeholder : forall env node, admissible env -> P (placeholder env node).
Hypothesis P_onData_create : forall env agent data s, P s -> P (fst (onData_create env agent data s)).
Hypothesis P_onData_restart : forall env data s, P s -> P (fst (onData_restart env data s)).
Hypothesis P_decay : forall s, P s -> P (decayed s).
Hypothesis P_status : forall v s, P s -> P (set_status v s).
Hypothesis P_metrics : forall v s, P s -> P (set_metrics v s).
Hypothesis P_pty : forall v s, P s -> P (set_pty v s).
Hypothesis P_isRestored : forall v s, P s -> P (set_isRestored v s).
Hypothesis P_lastOutputTime : forall v s, P s -> P (set_lastOutputTime v s).
Hypothesis P_customName : forall v s, P s -> P (set_customName v s).
Hypothesis P_customColor : forall v s, P s -> P (set_customColor v s).
Hypothesis P_notes : forall v s, P s -> P (set_notes v s).
Hypothesis P_position : forall v s, P s -> P (set_position v s).

Local Abbreviation sound := (heap_all P).

Lemma sound_lookup w r s : sound w -> heap w !! r = Some s -> P s.
Proof. intros Hw Hr. exact (Forall_lookup_1 _ _ _ _ Hw Hr). Qed.

Lemma sound_with_session r f w :
  (forall s, P s -> P (fst (f s))) -> sound w -> sound (with_session r f w).
Proof.
  intros Hf Hw. unfold with_session.
  destruct (heap w !! r) as [s|] eqn:Hr; [|exact Hw].
  specialize (Hf s (sound_lookup _ _ _ Hw Hr)).
  destruct (f s) as [s' es]. unfold sound. cbn.
  apply Forall_insert; [exact Hw | exact Hf].
Qed.

Lemma sound_pty_data env h data w : sound w -> sound (pty_data env h data w).
Proof.
  intros Hw. unfold pty_data.
  destruct (ptys w !! h) as [p|]; [|exact Hw].
  destruct (pty_onData p) as [[r agent|r]|]; [| |exact Hw];
    apply sound_with_session; auto.
Qed.

Lemma sound_decay_tick i w : sound w -> sound (decay_tick i w).
Proof.
  intros Hw. unfold decay_tick.
  destruct (intervals w !! i) as [iv|]; [|exact Hw].
  destruct (iv_cleared iv); [exact Hw|].
  destruct (heap w !! iv_session iv) as [s|] eqn:Hr; [|exact Hw].
  destruct (_ || _); [exact Hw|].
  unfold sound. cbn. apply Forall_insert; [exact Hw|].
  apply P_decay. exact (sound_lookup _ _ _ Hw Hr).
Qed.

Lemma sound_fire_timeout i w : sound w -> sound (fire_timeout i w).
Proof.
  intros Hw. unfold fire_timeout.
  destruct (timeouts w !! i) as [t|]; [|exact Hw].
  destruct (to_fired t); [exact Hw|].
  destruct (to_task t) as [h c url id title tpl|h tpl url id title|h r]; cbn.
  - destruct url as [[|? ?]|]; exact Hw.
  - exact Hw.
  - destruct (heap w !! r); exact Hw.
Qed.

Lemma sound_createSession env p w : sound w -> sound (fst (createSession env p w)).
Proof.
  intros Hw. unfold createSession.
  destruct (provision_run env p) as [es [pv|]]; [|exact Hw].
  destruct (pty_spawns env (workingDir pv)); [|exact Hw].
  unfold sound. cbn. apply Forall_snoc; [exact Hw | apply P_new].
Qed.

Lemma sound_create_route env b w : sound w -> sound (fst (create_route env b w)).
Proof.
  intros Hw. unfold create_route.
  pose proof (sound_createSession env (create_params env b) w Hw) as H.
  destruct (createSession env (create_params env b) w) as [w' [result|]]; exact H.
Qed.

Lemma sound_restore_node env w node :
  admissible env -> sound w -> sound (restore_node env w node).
Proof.
  intros Henv Hw. unfold restore_node, sound. cbn.
  apply Forall_snoc; [exact Hw | by apply P_placeholder].
Qed.

Lemma sound_restoreSessions env w :
  admissible env -> sound w -> sound (restoreSessions env w).
Proof.
  intros Henv Hw. unfold restoreSessions.
  set (w0 := emit _ w). assert (Hw0 : sound w0) by exact Hw. clearbody w0.
  revert w0 Hw0. induction (loadState env) as [|node nodes IH]; intros w0 Hw0; cbn.
  - exact Hw0.
  - apply IH. by apply sound_restore_node.
Qed.

Lemma P_refresh_session env id s cache : P s -> P (fst (refresh_session env id s cache)).
Proof.
  intros Hs. unfold refresh_session.
  destruct (decide _); [|cbn; auto].
  destruct (match cache !! id with Some _ => _ | None => _ end); [|cbn; auto].
  destruct (scanBufferForMetrics _); cbn; auto.
Qed.

Lemma sound_list_entry env acc entry : sound (fst acc) -> sound (fst (list_entry env acc entry)).
Proof.
  destruct acc as [w out], entry as [id r]. cbn. intros Hw.
  destruct (heap w !! r) as [s|] eqn:Hr; [|exact Hw].
  pose proof (P_refresh_session env id s (metricsCache w) (sound_lookup _ _ _ Hw Hr)) as H.
  destruct (refresh_session env id s (metricsCache w)) as [s' cache].
  unfold sound. cbn. apply Forall_insert; [exact Hw | exact H].
Qed.

Lemma sound_list_sessions env w : sound w -> sound (fst (list_sessions env w)).
Proof.
  intros Hw. unfold list_sessions.
  assert (H : sound (fst (fold_left (list_entry env) (sessions w) (w, [])))).
  { generalize (sessions w). intros entries.
    assert (Hacc : sound (fst (w, @nil (jsstring * Session)))) by exact Hw.
    revert Hacc. generalize (w, @nil (jsstring * Session)).
    induction entries as [|e entries IH]; intros acc Hacc; cbn; [exact Hacc|].
    apply IH. by apply sound_list_entry. }
  destruct (fold_left _ _ _) as [w' out]. exact H.
Qed.

Lemma sound_get_status env id w : sound w -> sound (fst (get_status env id w)).
Proof.
  intros Hw. unfold get_status, find_session.
  destruct (map_get id (sessions w)) as [r|]; [|exact Hw]. cbn.
  destruct (heap w !! r) as [s|] eqn:Hr; [|exact Hw]. cbn.
  apply Forall_insert; [exact Hw|]. apply P_status. exact (sound_lookup _ _ _ Hw Hr).
Qed.

Lemma sound_restart env id w : sound w -> sound (fst (restart env id w)).
Proof.
  intros Hw. unfold restart, find_session.
  destruct (map_get id (sessions w)) as [r|]; [|exact Hw]. cbn.
  destruct (heap w !! r) as [s|] eqn:Hr; [|exact Hw]. cbn.
  destruct (pty s); [exact Hw|].
  destruct (pty_spawns env (cwd s)); [|exact Hw].
  unfold sound. cbn. apply Forall_insert; [exact Hw|].
  pose proof (sound_lookup _ _ _ Hw Hr). auto.
Qed.

Lemma P_apply_updates u s : P s -> P (apply_updates u s).
Proof.
  intros Hs. unfold apply_updates.
  destruct (u_customName u), (u_customColor u), (u_notes u); auto.
Qed.

Lemma sound_patch_session id u w : sound w -> sound (fst (patch_session id u w)).
Proof.
  intros Hw. unfold patch_session, find_session.
  destruct (map_get id (sessions w)) as [r|]; [|exact Hw]. cbn.
  destruct (heap w !! r) as [s|] eqn:Hr; [|exact Hw]. cbn.
  apply Forall_insert; [exact Hw|]. apply P_apply_updates. exact (sound_lookup _ _ _ Hw Hr).
Qed.

Lemma heap_deleteSession env id w : heap (fst (deleteSession env id w)) = heap w.
Proof.
  unfold deleteSession.
  destruct (map_get id (sessions w)) as [r|]; [|reflexivity]. cbn.
  destruct (heap w !! r ≫= pty); reflexivity.
Qed.

Lemma sound_delete_route env id w : sound w -> sound (fst (delete_route env id w)).
Proof.
  intros Hw. unfold delete_route.
  pose proof (heap_deleteSession env id w) as H.
  destruct (deleteSession env id w) as [w' [|]]; unfold sound; cbn in *; by rewrite H.
Qed.

Lemma Forall_place_node node pos entries h :
  Forall P h -> Forall P (place_node node pos entries h).
Proof.
  intros Hh. induction entries as [|[id r] entries IH]; cbn; [exact Hh|].
  destruct (h !! r) as [s|] eqn:Hr; [|exact IH].
  destruct (decide _); [|exact IH].
  apply Forall_insert; [exact Hh|]. apply P_position. exact (Forall_lookup_1 _ _ _ _ Hh Hr).
Qed.

Lemma sound_save_positions ps w : sound w -> sound (fst (save_positions ps w)).
Proof.
  intros Hw. unfold save_positions, sound. cbn.
  generalize (sessions w). intros entries. revert Hw. unfold sound. generalize (heap w).
  induction ps as [|np ps IH]; intros h Hh; cbn; [exact Hh|].
  apply IH. by apply Forall_place_node.
Qed.

Lemma sound_step w env ev :
  (ev = EvRestore -> admissible env) -> sound w -> sound (step w (env, ev)).
Proof.
  intros Henv Hw. destruct ev; cbn.
  - apply sound_restoreSessions; auto.
  - by apply sound_create_route.
  - by apply sound_list_sessions.
  - by apply sound_get_status.
  - exact Hw.
  - by apply sound_restart.
  - by apply sound_patch_session.
  - by apply sound_delete_route.
  - by apply sound_save_positions.
  - by apply sound_pty_data.
  - by apply sound_decay_tick.
  - by apply sound_fire_timeout.
Qed.

Lemma sound_run events w :
  Forall (fun ee => snd ee = EvRestore -> admissible (fst ee)) events ->
  sound w -> sound (run w events).
Proof.
  unfold run. revert w. induction events as [|[env ev] events IH]; intros w Hev Hw; cbn.
  - exact Hw.
  - inversion Hev as [|? ? Hhd Htl]; subst. apply IH; [exact Htl|].
    apply sound_step; [exact Hhd | exact Hw].
Qed.

End HeapInvariant.

(** ** The output history *)

Lemma length_keep_last {A} n (l : list A) : length (keep_last n l) = Nat.min n (length l).
Proof. unfold keep_last. rewrite length_drop. lia. Qed.

Lemma keep_last_short {A} n (l : list A) : (length l <= n)%nat -> keep_last n l = l.
Proof. intros H. unfold keep_last. by replace (length l - n)%nat with 0%nat by lia. Qed.

Lemma keep_last_app_long {A} n (l m : list A) :
  (n <= length m)%nat -> keep_last n (l ++ m) = keep_last n m.
Proof.
  intros H. unfold keep_last. rewrite length_app.
  replace (length l + length m - n)%nat with (length l + (length m - n))%nat by lia.
  by rewrite drop_app_add.
Qed.

Lemma keep_last_keep_last_app {A} n (l m : list A) :
  keep_last n (keep_last n l ++ m) = keep_last n (l ++ m).
Proof.
  destruct (decide (length l <= n)%nat) as [Hle|Hgt].
  - by rewrite (keep_last_short n l).
  - unfold keep_last at 1 3. rewrite !length_app, length_keep_last.
    unfold keep_last.
    replace (Nat.min n (length l) + length m - n)%nat with (length m) by lia.
    replace (length l + length m - n)%nat with ((length l - n) + length m)%nat by lia.
    rewrite <- drop_drop. f_equal.
    rewrite drop_app_le by lia. reflexivity.
Qed.

Lemma push_chunk_keep_last buf data :
  (length buf <= MAX_BUFFER_SIZE)%nat ->
  push_chunk buf data = keep_last MAX_BUFFER_SIZE (buf ++ [data]).
Proof.
  intros H. unfold push_chunk, keep_last. rewrite length_app. cbn [length].
  destruct (Nat.ltb_spec MAX_BUFFER_SIZE (length buf + 1)) as [Hlt|Hge].
  - by replace (length buf + 1 - MAX_BUFFER_SIZE)%nat with 1%nat by lia.
  - by replace (length buf + 1 - MAX_BUFFER_SIZE)%nat with 0%nat by lia.
Qed.

Lemma push_chunk_length buf data :
  (length buf <= MAX_BUFFER_SIZE)%nat -> (length (push_chunk buf data) <= MAX_BUFFER_SIZE)%nat.
Proof.
  intros H. rewrite push_chunk_keep_last by exact H. rewrite length_keep_last. lia.
Qed.

(** What the two handlers do to the fields of the session. *)
Lemma onData_create_outputBuffer env agent data s :
  outputBuffer (fst (onData_create env agent data s)) = push_chunk (outputBuffer s) data.
Proof.
  unfold onData_create, onData_metrics.
  destruct (decide _); [destruct (parseMetrics data)|]; reflexivity.
Qed.

Lemma onData_create_recentOutputSize env agent data s :
  recentOutputSize (fst (onData_create env agent data s)) = recentOutputSize s + js_length data.
Proof.
  unfold onData_create, onData_metrics.
  destruct (decide _); [destruct (parseMetrics data)|]; reflexivity.
Qed.

Lemma onData_restart_outputBuffer env data s :
  outputBuffer (fst (onData_restart env data s)) = push_chunk (outputBuffer s) data.
Proof. reflexivity. Qed.

Lemma onData_restart_recentOutputSize env data s :
  recentOutputSize (fst (onData_restart env data s)) = recentOutputSize s + js_length data.
Proof. reflexivity. Qed.

Lemma feed_outputBuffer agent chunks s :
  (length (outputBuffer s) <= MAX_BUFFER_SIZE)%nat ->
  outputBuffer (feed agent chunks s)
  = keep_last MAX_BUFFER_SIZE (outputBuffer s ++ List.map snd chunks).
Proof.
  unfold feed. revert s.
  induction chunks as [|[env data] chunks IH]; intros s Hs; cbn [fold_left List.map fst snd].
  - rewrite app_nil_r. by rewrite keep_last_short.
  - rewrite IH; rewrite onData_create_outputBuffer.
    + rewrite push_chunk_keep_last by exact Hs.
      rewrite keep_last_keep_last_app. by rewrite <- app_assoc.
    + by apply push_chunk_length.
Qed.

(** C1.  The output history never holds more than 1000 chunks: in the world
    reached by any run of events from the start of the process, every
    session object has a history within the bound, provided the histories
    that [loadBuffer] hands to [restoreSessions] are within it.  A session
    within the bound that is fed chunks by its output handler ends with the
    last 1000 of its old history followed by the chunks, in the order they
    came: the oldest are dropped first, and once more than 1000 chunks have
    been fed the history is exactly the last 1000 of them.  The handler of
    a restarted session treats a chunk in the same way. *)
Theorem output_history_bounded events agent s chunks :
  Forall restores_within_bound events ->
  (length (outputBuffer s) <= MAX_BUFFER_SIZE)%nat ->
  heap_all (fun s' => (length (outputBuffer s') <= MAX_BUFFER_SIZE)%nat) (run empty_world events)
  /\ (length (outputBuffer (feed agent chunks s)) <= MAX_BUFFER_SIZE)%nat
  /\ outputBuffer (feed agent chunks s)
     = keep_last MAX_BUFFER_SIZE (outputBuffer s ++ List.map snd chunks)
  /\ ((MAX_BUFFER_SIZE < length chunks)%nat ->
      outputBuffer (feed agent chunks s) = keep_last MAX_BUFFER_SIZE (List.map snd chunks))
  /\ (forall env data,
      outputBuffer (fst (onData_restart env data s))
      = keep_last MAX_BUFFER_SIZE (outputBuffer s ++ [data])).
Proof.
  intros Hev Hs. split; [|split; [|split; [|split]]].
  - apply sound_run with (admissible := fun env => forall id,
      (length (loadBuffer env id) <= MAX_BUFFER_SIZE)%nat);
      [ intros ? ? ? ? ?; cbn; unfold MAX_BUFFER_SIZE; lia
      | intros e node He; cbn; apply He
      | intros e a d s' Hs'; rewrite onData_create_outputBuffer; by apply push_chunk_length
      | intros e d s' Hs'; rewrite onData_restart_outputBuffer; by apply push_chunk_length
      | intros; assumption .. | exact Hev | constructor ].
  - rewrite feed_outputBuffer by exact Hs. rewrite length_keep_last. lia.
  - by apply feed_outputBuffer.
  - intros Hlong. rewrite feed_outputBuffer by exact Hs.
    apply keep_last_app_long. rewrite length_map. lia.
  - intros env data. rewrite onData_restart_outputBuffer. by apply push_chunk_keep_last.
Qed.

(** ** The decaying counter of recent output *)

(** The decay timers of a world all have the period of [setInterval]. *)
Section Intervals.

Variable Q : Interval -> Prop.
Hypothesis Q_new : forall id r, Q (mkInterval DECAY_PERIOD id r false).
Hypothesis Q_clear : forall iv, Q iv -> Q (clear_interval iv).

Local Abbreviation timed := (fun w => Forall Q (intervals w)).

Lemma intervals_with_session r f w : intervals (with_session r f w) = intervals w.
Proof. unfold with_session. destruct (heap w !! r); [destruct (f _)|]; reflexivity. Qed.

Lemma intervals_pty_data env h data w : intervals (pty_data env h data w) = intervals w.
Proof.
  unfold pty_data. destruct (ptys w !! h) as [p|]; [|reflexivity].
  destruct (pty_onData p) as [[r agent|r]|]; [| |reflexivity]; apply intervals_with_session.
Qed.

Lemma intervals_fire_timeout i w : intervals (fire_timeout i w) = intervals w.
Proof.
  unfold fire_timeout. destruct (timeouts w !! i) as [t|]; [|reflexivity].
  destruct (to_fired t); [reflexivity|].
  destruct (to_task t) as [h c url id title tpl|h tpl url id title|h r]; cbn.
  - destruct url as [[|? ?]|]; reflexivity.
  - reflexivity.
  - destruct (heap w !! r); reflexivity.
Qed.

Lemma intervals_restoreSessions env w : intervals (restoreSessions env w) = intervals w.
Proof.
  unfold restoreSessions. set (w0 := emit _ w).
  change (intervals w) with (intervals w0). clearbody w0. revert w0.
  induction (loadState env) as [|node nodes IH]; intros w0; cbn; [reflexivity|].
  by rewrite IH.
Qed.

Lemma intervals_list_sessions env w : intervals (fst (list_sessions env w)) = intervals w.
Proof.
  unfold list_sessions.
  assert (H : forall entries acc,
    intervals (fst (fold_left (list_entry env) entries acc)) = intervals (fst acc)).
  { induction entries as [|[id r] entries IH]; intros [w0 out]; cbn; [reflexivity|].
    rewrite IH. destruct (heap w0 !! r); [destruct (refresh_session _ _ _ _)|]; reflexivity. }
  specialize (H (sessions w) (w, [])). destruct (fold_left _ _ _). exact H.
Qed.

Lemma intervals_get_status env id w : intervals (fst (get_status env id w)) = intervals w.
Proof. unfold get_status. destruct (find_session w id) as [[r s]|]; reflexivity. Qed.

Lemma intervals_patch_session id u w : intervals (fst (patch_session id u w)) = intervals w.
Proof. unfold patch_session. destruct (find_session w id) as [[r s]|]; reflexivity. Qed.

Lemma intervals_delete_route env id w : intervals (fst (delete_route env id w)) = intervals w.
Proof.
  unfold delete_route, deleteSession.
  destruct (map_get id (sessions w)) as [r|]; [|reflexivity].
  destruct (heap w !! r ≫= pty); reflexivity.
Qed.

Lemma timed_step w ee : timed w -> timed (step w ee).
Proof.
  intros Hw. destruct ee as [env ev]. destruct ev; cbn.
  - by rewrite intervals_restoreSessions.
  - unfold create_route, createSession.
    destruct (provision_run env _) as [es [pv|]]; [|exact Hw].
    destruct (pty_spawns env _); [|exact Hw].
    cbn. apply Forall_app. split; [exact Hw|]. constructor; [apply Q_new | constructor].
  - by rewrite intervals_list_sessions.
  - by rewrite intervals_get_status.
  - exact Hw.
  - unfold restart. destruct (find_session w id) as [[r s]|]; [|exact Hw].
    destruct (pty s); [exact Hw|]. destruct (pty_spawns env _); [|exact Hw].
    cbn. apply Forall_app. split; [exact Hw|]. constructor; [apply Q_new | constructor].
  - by rewrite intervals_patch_session.
  - by rewrite intervals_delete_route.
  - exact Hw.
  - by rewrite intervals_pty_data.
  - unfold decay_tick. destruct (intervals w !! interval) as [iv|] eqn:Hi; [|exact Hw].
    destruct (iv_cleared iv); [exact Hw|].
    destruct (heap w !! iv_session iv); [|exact Hw].
    destruct (_ || _); [|exact Hw].
    cbn. apply Forall_insert; [exact Hw|]. apply Q_clear.
    exact (Forall_lookup_1 _ _ _ _ Hw Hi).
  - by rewrite intervals_fire_timeout.
Qed.

Lemma timed_run events w : timed w -> timed (run w events).
Proof.
  unfold run. revert w. induction events as [|ee events IH]; intros w Hw; cbn; [exact Hw|].
  apply IH. by apply timed_step.
Qed.

End Intervals.

Lemma decay_tick_live i iv s w :
  intervals w !! i = Some iv ->
  iv_cleared iv = false ->
  map_has (iv_sessionId iv) (sessions w) = true ->
  heap w !! iv_session iv = Some s ->
  is_Some (pty s) ->
  heap (decay_tick i w) !! iv_session iv = Some (decayed s).
Proof.
  intros Hi Hc Hhas Hs Hpty. unfold decay_tick. rewrite Hi, Hc, Hs, Hhas.
  rewrite bool_decide_eq_true_2 by exact Hpty. cbn.
  apply list_lookup_insert_eq. by eapply lookup_lt_Some.
Qed.


(** ** Every live session has its decay timer *)

Lemma map_get_In {V} k (v : V) m : map_get k m = Some v -> In (k, v) m.
Proof.
  induction m as [|[k' v'] m IH]; cbn; [discriminate|].
  destruct (decide (k' = k)) as [->|Hne]; [intros [= ->]; by left | auto].
Qed.

Lemma In_map_has {V} k (v : V) m : In (k, v) m -> map_has k m = true.
Proof.
  unfold map_has. induction m as [|[k' v'] m IH]; cbn; [tauto|].
  intros [[= -> ->]|Hin]; [by rewrite decide_True|].
  destruct (decide (k' = k)); [reflexivity | auto].
Qed.

Lemma In_map_set {V} k (v : V) m e : In e (map_set k v m) -> e = (k, v) \/ In e m.
Proof.
  induction m as [|[k' v'] m IH]; cbn.
  - intros [<-|[]]. by left.
  - destruct (decide (k' = k)) as [->|Hne]; cbn.
    + intros [<-|Hin]; auto.
    + intros [<-|Hin]; [auto|]. destruct (IH Hin); auto.
Qed.

Lemma In_map_delete {V} k (m : list (jsstring * V)) e : In e (map_delete k m) -> In e m.
Proof.
  induction m as [|[k' v'] m IH]; cbn; [tauto|].
  destruct (decide (k' = k)); cbn; [auto|]. intros [<-|Hin]; auto.
Qed.

Lemma NoDup_map_set k (v : nat) m :
  NoDup (snd <$> m) -> v ∉ (snd <$> m) -> NoDup (snd <$> map_set k v m).
Proof.
  induction m as [|[k' v'] m IH]; cbn; intros Hnd Hv.
  - apply NoDup_singleton.
  - apply NoDup_cons in Hnd as [Hv' Hnd]. apply not_elem_of_cons in Hv as [Hne Hv].
    destruct (decide (k' = k)) as [->|Hk]; cbn.
    + apply NoDup_cons. split; assumption.
    + apply NoDup_cons. split; [|by apply IH].
      intros Hin. apply list_elem_of_fmap in Hin as ([k0 v0] & Heq & Hin). cbn in Heq. subst v0.
      apply list_elem_of_In, In_map_set in Hin as [[= _ ->]|Hin]; [congruence|].
      apply Hv'. apply list_elem_of_fmap. exists (k0, v'). split; [reflexivity|].
      by apply list_elem_of_In.
Qed.

Lemma NoDup_map_delete k (m : list (jsstring * nat)) :
  NoDup (snd <$> m) -> NoDup (snd <$> map_delete k m).
Proof.
  induction m as [|[k' v'] m IH]; cbn; intros Hnd; [exact Hnd|].
  apply NoDup_cons in Hnd as [Hv' Hnd].
  destruct (decide (k' = k)); cbn; [exact Hnd|].
  apply NoDup_cons. split; [|by apply IH].
  intros Hin. apply Hv'. apply list_elem_of_fmap in Hin as ([k0 v0] & Heq & Hin).
  apply list_elem_of_fmap. exists (k0, v0). split; [exact Heq|].
  by apply list_elem_of_In, In_map_delete, list_elem_of_In in Hin.
Qed.

Lemma refs_fresh_alloc w id s :
  refs_fresh w ->
  refs_fresh (set_sessions (map_set id (length (heap w)) (sessions w))
                (set_heap (heap w ++ [s]) w)).
Proof.
  intros [Hlt Hnd]. split; cbn.
  - apply Forall_forall. intros e He%list_elem_of_In%In_map_set.
    rewrite length_app. cbn. destruct He as [->|He]; cbn; [lia|].
    rewrite Forall_forall in Hlt. specialize (Hlt e (proj2 (list_elem_of_In _ _) He)). lia.
  - apply NoDup_map_set; [exact Hnd|].
    intros Hin. apply list_elem_of_fmap in Hin as (e & Heq & Hin).
    rewrite Forall_forall in Hlt. specialize (Hlt e Hin). lia.
Qed.

Lemma same_bindings_refl w : same_bindings w w.
Proof. by repeat split. Qed.

Lemma same_bindings_trans w1 w2 w3 :
  same_bindings w1 w2 -> same_bindings w2 w3 -> same_bindings w1 w3.
Proof. intros (A & B & C) (A' & B' & C'). repeat split; congruence. Qed.

Lemma fmap_pty_insert (h : list Session) r s s' :
  h !! r = Some s -> pty s' = pty s -> pty <$> <[r := s']> h = pty <$> h.
Proof.
  intros Hr Hpty. rewrite list_fmap_insert. apply list_insert_id.
  by rewrite list_lookup_fmap, Hr, Hpty.
Qed.

Lemma same_bindings_lookup w w' r s' :
  same_bindings w w' -> heap w' !! r = Some s' ->
  exists s, heap w !! r = Some s /\ pty s = pty s'.
Proof.
  intros (_ & _ & Hpty) Hr.
  assert (H : (pty <$> heap w) !! r = Some (pty s')) by (by rewrite <- Hpty, list_lookup_fmap, Hr).
  rewrite list_lookup_fmap in H. destruct (heap w !! r) as [s|]; [|discriminate].
  injection H as H. eauto.
Qed.

Lemma same_bindings_keeps w w' :
  same_bindings w w' ->
  refs_fresh w /\ live_have_timers w -> refs_fresh w' /\ live_have_timers w'.
Proof.
  intros Hsame [[Hlt Hnd] Hlive]. pose proof Hsame as (Hs & Hi & Hp).
  assert (Hlen : length (heap w') = length (heap w)).
  { by rewrite <- (length_fmap pty (heap w')), Hp, length_fmap. }
  split; [split|].
  - by rewrite Hs, Hlen.
  - by rewrite Hs.
  - intros id r s' Hin Hr Hpty. rewrite Hs in Hin.
    destruct (same_bindings_lookup _ _ _ _ Hsame Hr) as (s & Hr0 & Heq).
    rewrite <- Heq in Hpty. destruct (Hlive id r s Hin Hr0 Hpty) as (i & iv & H).
    exists i, iv. by rewrite Hi.
Qed.

Lemma same_bindings_with_session r f w :
  (forall s, pty (fst (f s)) = pty s) -> same_bindings w (with_session r f w).
Proof.
  intros Hf. unfold with_session. destruct (heap w !! r) as [s|] eqn:Hr;
    [|apply same_bindings_refl].
  specialize (Hf s). destruct (f s) as [s' es]. repeat split. cbn.
  by eapply fmap_pty_insert.
Qed.

Lemma onData_create_pty env agent data s : pty (fst (onData_create env agent data s)) = pty s.
Proof.
  unfold onData_create, onData_metrics.
  destruct (decide _); [destruct (parseMetrics data)|]; reflexivity.
Qed.

Lemma refresh_session_pty env id s cache : pty (fst (refresh_session env id s cache)) = pty s.
Proof.
  unfold refresh_session. destruct (decide _); [|reflexivity].
  destruct (match cache !! id with Some _ => _ | None => _ end); [|reflexivity].
  destruct (scanBufferForMetrics _); reflexivity.
Qed.

Lemma same_bindings_list_sessions env w : same_bindings w (fst (list_sessions env w)).
Proof.
  unfold list_sessions.
  assert (H : forall entries acc, same_bindings (fst acc) (fst (fold_left (list_entry env) entries acc))).
  { induction entries as [|[id r] entries IH]; intros [w0 out]; cbn; [apply same_bindings_refl|].
    eapply same_bindings_trans; [|apply IH].
    destruct (heap w0 !! r) as [s|] eqn:Hr; [|apply same_bindings_refl].
    pose proof (refresh_session_pty env id s (metricsCache w0)) as Hpty.
    destruct (refresh_session _ _ _ _) as [s' cache]. repeat split. cbn.
    by eapply fmap_pty_insert. }
  specialize (H (sessions w) (w, [])). destruct (fold_left _ _ _). exact H.
Qed.

Lemma same_bindings_place_node node pos entries (h : list Session) :
  pty <$> place_node node pos entries h = pty <$> h.
Proof.
  induction entries as [|[id r] entries IH]; cbn; [reflexivity|].
  destruct (h !! r) as [s|] eqn:Hr; [|exact IH].
  destruct (decide _); [|exact IH]. by eapply fmap_pty_insert.
Qed.

Lemma same_bindings_save_positions ps w : same_bindings w (fst (save_positions ps w)).
Proof.
  unfold save_positions. repeat split. cbn.
  generalize (sessions w). intros entries. generalize (heap w).
  induction ps as [|np ps IH]; intros h; cbn; [reflexivity|].
  by rewrite IH, same_bindings_place_node.
Qed.

Lemma apply_updates_pty u s : pty (apply_updates u s) = pty s.
Proof. unfold apply_updates. destruct (u_customName u), (u_customColor u), (u_notes u); reflexivity. Qed.

Lemma same_bindings_quiet_step w env ev :
  match ev with
  | EvList | EvStatus _ | EvState | EvPatch _ _ | EvPositions _ | EvData _ _ | EvTimeout _ => True
  | _ => False
  end ->
  same_bindings w (step w (env, ev)).
Proof.
  destruct ev; cbn; try tauto; intros _.
  - apply same_bindings_list_sessions.
  - unfold get_status, find_session.
    destruct (map_get id (sessions w)) as [r|]; [|apply same_bindings_refl]. cbn.
    destruct (heap w !! r) as [s|] eqn:Hr; [|apply same_bindings_refl].
    repeat split. cbn. by eapply fmap_pty_insert.
  - apply same_bindings_refl.
  - unfold patch_session, find_session.
    destruct (map_get id (sessions w)) as [r|]; [|apply same_bindings_refl]. cbn.
    destruct (heap w !! r) as [s|] eqn:Hr; [|apply same_bindings_refl].
    repeat split. cbn. eapply fmap_pty_insert; [exact Hr | apply apply_updates_pty].
  - apply same_bindings_save_positions.
  - unfold pty_data. destruct (ptys w !! handle) as [p|]; [|apply same_bindings_refl].
    destruct (pty_onData p) as [[r agent|r]|]; [| |apply same_bindings_refl];
      apply same_bindings_with_session; intros s.
    + apply onData_create_pty.
    + reflexivity.
  - unfold fire_timeout. destruct (timeouts w !! timeout) as [t|]; [|apply same_bindings_refl].
    destruct (to_fired t); [apply same_bindings_refl|].
    destruct (to_task t) as [h c url id title tpl|h tpl url id title|h r]; cbn.
    + destruct url as [[|? ?]|]; by repeat split.
    + by repeat split.
    + destruct (heap w !! r); by repeat split.
Qed.

(** Allocating a session object and registering it under [id], with a
    timer when it has a process. *)
Lemma alloc_keeps w id s ivs :
  (is_Some (pty s) -> In (mkInterval DECAY_PERIOD id (length (heap w)) false) ivs) ->
  refs_fresh w /\ live_have_timers w ->
  let w' := set_intervals (intervals w ++ ivs)
              (set_sessions (map_set id (length (heap w)) (sessions w))
                 (set_heap (heap w ++ [s]) w)) in
  refs_fresh w' /\ live_have_timers w'.
Proof.
  intros Hiv [Hfresh Hlive] w'. split; [exact (refs_fresh_alloc w id s Hfresh)|].
  intros id' r s' Hin Hr Hpty. cbn in Hin, Hr.
  apply In_map_set in Hin as [[= -> ->]|Hin].
  - rewrite lookup_snoc in Hr. injection Hr as <-.
    apply list_elem_of_In, list_elem_of_lookup in Hiv as [j Hj]; [|exact Hpty].
    exists (length (intervals w) + j)%nat, (mkInterval DECAY_PERIOD id (length (heap w)) false).
    cbn. rewrite lookup_app_r by lia.
    replace (length (intervals w) + j - length (intervals w))%nat with j by lia. by repeat split.
  - destruct Hfresh as [Hlt _]. rewrite Forall_forall in Hlt.
    specialize (Hlt _ (proj2 (list_elem_of_In _ _) Hin)). cbn in Hlt.
    rewrite lookup_app_l in Hr by exact Hlt.
    destruct (Hlive id' r s' Hin Hr Hpty) as (i & iv & Hi & H).
    exists i, iv. split; [|exact H]. cbn. by apply lookup_app_l_Some.
Qed.

Lemma emit_keeps es w :
  refs_fresh w /\ live_have_timers w -> refs_fresh (emit es w) /\ live_have_timers (emit es w).
Proof. apply same_bindings_keeps. by repeat split. Qed.

Lemma timers_step w ee :
  refs_fresh w /\ live_have_timers w ->
  refs_fresh (step w ee) /\ live_have_timers (step w ee).
Proof.
  intros Hw. destruct ee as [env ev].
  destruct ev;
    try (apply (same_bindings_keeps w); [by apply same_bindings_quiet_step | exact Hw]).
  - (* restore *)
    cbn. unfold restoreSessions.
    apply (emit_keeps (do_log env false (LogRestoreFound (length (loadState env))))) in Hw.
    revert Hw. generalize (emit (do_log env false (LogRestoreFound (length (loadState env)))) w).
    induction (loadState env) as [|node nodes IH]; intros w0 Hw0; cbn; [exact Hw0|].
    apply IH. unfold restore_node. apply emit_keeps.
    assert (Hdead : is_Some (pty (placeholder env node)) ->
              In (mkInterval DECAY_PERIOD (node_sessionId node) (length (heap w0)) false) [])
      by (intros [h Hh]; discriminate).
    pose proof (alloc_keeps w0 (node_sessionId node) (placeholder env node) [] Hdead Hw0) as H.
    revert H. apply same_bindings_keeps. repeat split. cbn. symmetry. apply app_nil_r.
  - (* create *)
    cbn. unfold create_route, createSession.
    destruct (provision_run env _) as [es [pv|]]; [|by apply emit_keeps].
    destruct (pty_spawns env _); [|by apply emit_keeps].
    cbn [fst]. apply emit_keeps.
    apply (emit_keeps es), (emit_keeps [EffSpawn (length (ptys w)) (workingDir pv)]) in Hw.
    set (p := create_params env b) in *.
    set (s := new_session env p pv _ _).
    pose proof (alloc_keeps _ (p_sessionId p) s
                  [mkInterval DECAY_PERIOD (p_sessionId p) (length (heap w)) false]
                  (fun _ => or_introl eq_refl) Hw) as H.
    apply emit_keeps. revert H. apply same_bindings_keeps. by repeat split.
  - (* restart *)
    cbn. unfold restart, find_session.
    destruct (map_get id (sessions w)) as [r|] eqn:Hget; [|exact Hw]. cbn.
    destruct (heap w !! r) as [s|] eqn:Hr; [|exact Hw]. cbn.
    destruct (pty s) eqn:Hpty; [exact Hw|].
    destruct (pty_spawns env (cwd s)); [|exact Hw].
    cbn [fst]. apply emit_keeps. destruct Hw as [[Hlt Hnd] Hlive].
    split; [split|]; cbn.
    + by rewrite length_insert.
    + exact Hnd.
    + intros id' r' s' Hin Hr' Hpty'. cbn in Hin, Hr'.
      destruct (decide (r' = r)) as [->|Hne].
      * assert (id' = id) as ->.
        { apply map_get_In in Hget.
          apply list_elem_of_In, list_elem_of_lookup in Hin as [i Hi].
          apply list_elem_of_In, list_elem_of_lookup in Hget as [j Hj].
          assert (Hij : i = j).
          { eapply NoDup_lookup; [exact Hnd| |];
              rewrite list_lookup_fmap; [rewrite Hi | rewrite Hj]; reflexivity. }
          subst j. rewrite Hi in Hj. by injection Hj. }
        exists (length (intervals w)), (mkInterval DECAY_PERIOD id r false).
        split; [cbn; apply lookup_snoc | by repeat split].
      * rewrite list_lookup_insert_ne in Hr' by congruence.
        destruct (Hlive id' r' s' Hin Hr' Hpty') as (i & iv & Hi & H).
        exists i, iv. split; [|exact H]. cbn. by apply lookup_app_l_Some.
  - (* delete *)
    cbn. unfold delete_route, deleteSession.
    destruct (map_get id (sessions w)) as [r|]; [|exact Hw].
    cbn [fst]. apply emit_keeps, emit_keeps.
    assert (Hkill : refs_fresh (match heap w !! r ≫= pty with
                                | Some h => emit [EffKill h] (set_ptys (alter kill_pty h (ptys w)) w)
                                | None => w end)
                    /\ live_have_timers (match heap w !! r ≫= pty with
                                | Some h => emit [EffKill h] (set_ptys (alter kill_pty h (ptys w)) w)
                                | None => w end)).
    { destruct (heap w !! r ≫= pty); [|exact Hw].
      revert Hw. apply same_bindings_keeps. by repeat split. }
    revert Hkill. generalize (match heap w !! r ≫= pty with
                              | Some h => emit [EffKill h] (set_ptys (alter kill_pty h (ptys w)) w)
                              | None => w end).
    intros w0 [[Hlt Hnd] Hlive]. split; [split|]; cbn.
    + apply Forall_forall. intros e He%list_elem_of_In%In_map_delete.
      rewrite Forall_forall in Hlt. apply Hlt. by apply list_elem_of_In.
    + by apply NoDup_map_delete.
    + intros id' r' s' Hin%In_map_delete Hr' Hpty'. exact (Hlive id' r' s' Hin Hr' Hpty').
  - (* tick *)
    cbn. unfold decay_tick.
    destruct (intervals w !! interval) as [iv|] eqn:Hi; [|exact Hw].
    destruct (iv_cleared iv) eqn:Hc; [exact Hw|].
    destruct (heap w !! iv_session iv) as [s|] eqn:Hr; [|exact Hw].
    destruct (negb (map_has _ _) || negb (bool_decide _)) eqn:Hstop.
    + destruct Hw as [Hfresh Hlive]. split; [exact Hfresh|].
      intros id' r' s' Hin Hr' Hpty'. cbn in Hin, Hr'.
      destruct (Hlive id' r' s' Hin Hr' Hpty') as (i & iv' & Hi' & Hc' & Hid & Hses).
      exists i, iv'. split; [|by repeat split]. cbn.
      rewrite list_lookup_insert_ne; [exact Hi'|].
      intros <-. rewrite Hi in Hi'. injection Hi' as <-. subst id' r'.
      rewrite Hr in Hr'. injection Hr' as <-.
      rewrite (In_map_has _ _ _ Hin) in Hstop.
      rewrite bool_decide_eq_true_2 in Hstop by exact Hpty'. discriminate.
    + revert Hw. apply same_bindings_keeps. repeat split. cbn.
      by eapply fmap_pty_insert.
Qed.

Lemma timers_run events :
  refs_fresh (run empty_world events) /\ live_have_timers (run empty_world events).
Proof.
  unfold run.
  assert (H0 : refs_fresh empty_world /\ live_have_timers empty_world).
  { split; [split; [constructor | constructor]|]. intros id r s []. }
  revert H0. generalize empty_world.
  induction events as [|ee events IH]; intros w Hw; cbn; [exact Hw|].
  apply IH. by apply timers_step.
Qed.

(** C9.  The counter of recent output is never negative: it is zero in a
    new or restored session, every chunk adds its length to it, and the
    decay callback takes 50 from it, stopping at zero.  In every world
    reached from the start of the process the decay timers have a period
    of 500 ms, and every registered session that has a process has a
    running timer, whose tick decays the counter of that session. *)
Theorem recent_output_never_negative events :
  let w := run empty_world events in
  heap_all (fun s => 0 <= recentOutputSize s) w
  /\ Forall (fun iv => iv_period iv = 500) (intervals w)
  /\ (forall id r s,
        In (id, r) (sessions w) -> heap w !! r = Some s -> is_Some (pty s) ->
        exists i, timer_for w i id r /\ heap (decay_tick i w) !! r = Some (decayed s))
  /\ (forall i iv s,
        intervals w !! i = Some iv -> iv_cleared iv = false ->
        map_has (iv_sessionId iv) (sessions w) = true ->
        heap w !! iv_session iv = Some s -> is_Some (pty s) ->
        heap (decay_tick i w) !! iv_session iv = Some (decayed s))
  /\ (forall s, recentOutputSize (decayed s) = Z.max 0 (recentOutputSize s - 50)
                /\ 0 <= recentOutputSize (decayed s))
  /\ (forall env agent data s,
        recentOutputSize (fst (onData_create env agent data s))
        = recentOutputSize s + Z.of_nat (length data))
  /\ (forall env data s,
        recentOutputSize (fst (onData_restart env data s))
        = recentOutputSize s + Z.of_nat (length data)).
Proof.
  intros w. split; [|split; [|split; [|split; [|split; [|split]]]]].
  - apply sound_run with (admissible := fun _ => True);
      [ intros; cbn; lia
      | intros; cbn; lia
      | intros e a d s Hs; rewrite onData_create_recentOutputSize; unfold js_length; lia
      | intros e d s Hs; rewrite onData_restart_recentOutputSize; unfold js_length; lia
      | intros s Hs; cbn; lia
      | intros; assumption ..
      | apply Forall_forall; intros; exact I
      | constructor ].
  - apply timed_run; [reflexivity | intros iv Hiv; exact Hiv | constructor].
  - intros id r s Hin Hr Hpty.
    destruct (proj2 (timers_run events) id r s Hin Hr Hpty) as (i & iv & Hi & Hc & Hid & Hses).
    exists i. split; [exists iv; by repeat split|]. subst r id.
    apply (decay_tick_live i iv s); auto. by eapply In_map_has.
  - intros i iv s. apply decay_tick_live.
  - intros s. cbn. unfold DECAY_STEP. lia.
  - intros. apply onData_create_recentOutputSize.
  - intros. apply onData_restart_recentOutputSize.
Qed.

(** ** What [JSON.parse] returns *)

Lemma json_number_dec l n r :
  json_number l = Some (n, r) -> exists neg m e, n = Dec neg m e.
Proof.
  unfold json_number. destruct (json_sign l) as [neg l1].
  destruct (json_int l1) as [[ip l2]|]; [|discriminate]. cbn.
  destruct (json_frac l2) as [[fp l3]|]; [|discriminate]. cbn.
  destruct (json_exp l3) as [[ex l4]|]; [|discriminate]. cbn.
  intros [= <- _]. eauto.
Qed.

Lemma json_atom_parsed l v r : json_atom l = Some (v, r) -> parsed_value v.
Proof.
  unfold json_atom.
  destruct (strip_prefix (lit "true") l); [intros [= <- _]; exact I|].
  destruct (strip_prefix (lit "false") l); [intros [= <- _]; exact I|].
  destruct (strip_prefix (lit "null") l); [intros [= <- _]; exact I|].
  destruct (json_number l) as [[n r']|] eqn:Hn; [|discriminate]. cbn.
  intros [= <- _]. destruct (json_number_dec _ _ _ Hn) as (neg & m & e & ->). exact I.
Qed.

Lemma json_atom_not_object l v r ms : json_atom l = Some (v, r) -> v <> JObj ms.
Proof.
  unfold json_atom.
  destruct (strip_prefix (lit "true") l); [intros [= <- _]; discriminate|].
  destruct (strip_prefix (lit "false") l); [intros [= <- _]; discriminate|].
  destruct (strip_prefix (lit "null") l); [intros [= <- _]; discriminate|].
  destruct (json_number l) as [[n r']|]; [|discriminate]. cbn.
  intros [= <- _]. discriminate.
Qed.

Lemma json_parsed f :
  (forall l v r, json_value f l = Some (v, r) ->
     parsed_value v /\ forall ms, v = JObj ms -> parsed_members ms)
  /\ (forall l acc v r, json_members f l acc = Some (v, r) -> parsed_members acc ->
        exists ms, v = JObj ms /\ parsed_members ms)
  /\ (forall l acc v r, json_elements f l acc = Some (v, r) -> exists es, v = JArr es).
Proof.
  induction f as [|f (IHv & IHm & IHe)]; [repeat split; discriminate|].
  split; [|split].
  - intros l v r. simpl.
    destruct (skip_json_ws l) as [|c t]; [discriminate|].
    destruct (c =? 123)%N.
    { destruct (skip_json_ws t) as [|c' t']; [discriminate|].
      destruct (c' =? 125)%N.
      - intros [= <- _]. split; [exact I|]. intros ms [= <-]. constructor.
      - intros H. destruct (IHm _ _ _ _ H) as (ms & -> & Hms); [constructor|].
        split; [exact I|]. by intros ? [= <-]. }
    destruct (c =? 91)%N.
    { destruct (skip_json_ws t) as [|c' t']; [discriminate|].
      destruct (c' =? 93)%N.
      - intros [= <- _]. split; [exact I|]. discriminate.
      - intros H. destruct (IHe _ _ _ _ H) as (es & ->). split; [exact I|]. discriminate. }
    destruct (c =? 34)%N.
    { destruct (json_string t []) as [[s r']|]; [|discriminate]. cbn.
      intros [= <- _]. split; [exact I|]. discriminate. }
    intros H. split; [by eapply json_atom_parsed|].
    intros ms ->. by destruct (json_atom_not_object _ _ _ ms H).
  - intros l acc v r. simpl.
    destruct l as [|q t]; [discriminate|].
    destruct (q =? 34)%N; [|discriminate].
    destruct (json_string t []) as [[k r0]|]; [|discriminate]. cbn.
    destruct (skip_json_ws r0) as [|colon r1]; [discriminate|].
    destruct (colon =? 58)%N; [|discriminate].
    destruct (json_value f r1) as [[v0 r2]|] eqn:Hv; [|discriminate]. cbn.
    destruct (IHv _ _ _ Hv) as [Hv0 _].
    destruct (skip_json_ws r2) as [|d r3]; [discriminate|].
    intros H Hacc.
    assert (Hacc' : parsed_members (acc ++ [(k, v0)])).
    { apply Forall_app. split; [exact Hacc|]. constructor; [exact Hv0 | constructor]. }
    destruct (d =? 44)%N; [by eapply IHm|].
    destruct (d =? 125)%N; [|discriminate].
    injection H as <- _. eauto.
  - intros l acc v r. simpl.
    destruct (json_value f l) as [[v0 r0]|]; [|discriminate]. cbn.
    destruct (skip_json_ws r0) as [|d r1]; [discriminate|].
    destruct (d =? 44)%N; [by eapply IHe|].
    destruct (d =? 93)%N; [|discriminate].
    intros [= <- _]. eauto.
Qed.

Lemma JSON_parse_parsed text v :
  JSON_parse text = Some v -> parsed_value v /\ forall ms, v = JObj ms -> parsed_members ms.
Proof.
  unfold JSON_parse.
  destruct (json_value (S (2 * length text)) text) as [[v0 r]|] eqn:Hv; [|discriminate]. cbn.
  destruct (skip_json_ws r); [|discriminate].
  intros [= <-]. exact (proj1 (json_parsed _) _ _ _ Hv).
Qed.

(** ** Reading a member of a parsed object *)

Lemma assoc_last_defined k ms d :
  parsed_members ms ->
  is_undefined (assoc_last k ms d) = false <-> In k (List.map fst ms) \/ is_undefined d = false.
Proof.
  intros Hms. revert d. induction Hms as [|[k' v] ms Hv Hms IH]; intros d; cbn.
  - tauto.
  - rewrite IH. cbn in Hv. destruct (decide (k' = k)) as [->|Hne].
    + destruct v; cbn in *; tauto.
    + split; [intros [?|?]; tauto|]. intros [[?|?]|?]; [congruence|tauto|tauto].
Qed.

Lemma assoc_last_parsed k ms d :
  parsed_members ms -> assoc_last k ms d = d \/ parsed_value (assoc_last k ms d).
Proof.
  intros Hms. revert d. induction Hms as [|[k' v] ms Hv Hms IH]; intros d; cbn.
  - by left.
  - destruct (decide (k' = k)) as [->|Hne]; [|apply IH].
    destruct (IH v) as [-> | H]; right; [exact Hv | exact H].
Qed.

Lemma field_defined json k :
  (forall ms, json = JObj ms -> parsed_members ms) ->
  is_undefined (field json k) = false <-> has_field json k.
Proof.
  intros Hjson. destruct json as [| | | | | |ms]; cbn; try (split; [discriminate | tauto]).
  rewrite (assoc_last_defined _ _ _ (Hjson ms eq_refl)). cbn. split; [intros [?|?]|]; [tauto|discriminate|tauto].
Qed.

Lemma field_parsed json k :
  (forall ms, json = JObj ms -> parsed_members ms) ->
  field json k = JUndefined \/ parsed_value (field json k).
Proof.
  intros Hjson. destruct json as [| | | | | |ms]; cbn; try by left.
  apply assoc_last_parsed. by apply Hjson.
Qed.

(** ** The fuel of the parser is never used up *)

Lemma skip_json_ws_length l : (length (skip_json_ws l) <= length l)%nat.
Proof.
  induction l as [|c l IH]; cbn; [lia|]. destruct (is_json_ws c); cbn; lia.
Qed.

Lemma skip_json_ws_cons l c t : skip_json_ws l = c :: t -> (length t < length l)%nat.
Proof. intros H. pose proof (skip_json_ws_length l) as Hl. rewrite H in Hl. cbn in Hl. lia. Qed.

Lemma json_string_length l acc s r : json_string l acc = Some (s, r) -> (length r < length l)%nat.
Proof.
  assert (H : forall n l acc, (length l <= n)%nat ->
            json_string l acc = Some (s, r) -> (length r < length l)%nat);
    [|by apply (H (length l))].
  clear l acc. induction n as [|n IH]; intros l acc Hn.
  { destruct l; [discriminate | cbn in Hn; lia]. }
  destruct l as [|c l]; cbn; [discriminate|]. cbn in Hn.
  destruct (c =? 34)%N; [intros [= _ <-]; lia|].
  destruct (c =? 92)%N.
  - destruct l as [|e l]; [discriminate|]. cbn in Hn.
    destruct (simple_escape e).
    + intros H%IH; cbn in *; lia.
    + destruct (e =? 117)%N; [|discriminate].
      destruct l as [|h1 [|h2 [|h3 [|h4 l]]]]; try discriminate.
      destruct (hex4 h1 h2 h3 h4); [|discriminate]. cbn in Hn.
      intros H%IH; cbn in *; lia.
  - destruct (c <? 32)%N; [discriminate|]. intros H%IH; cbn in *; lia.
Qed.

Lemma span_length p l a b : span p l = (a, b) -> length l = (length a + length b)%nat.
Proof. intros H%span_spec. destruct H as [-> _]. apply length_app. Qed.

Lemma exp_sign_length l : (length (snd (exp_sign l)) <= length l)%nat.
Proof.
  destruct l as [|c l]; cbn; [lia|].
  destruct (c =? 45)%N; [cbn; lia|]. destruct (c =? 43)%N; cbn; lia.
Qed.

Lemma digits_length l ds r :
  match span is_digit l with ([], _) => None | x => Some x end = Some (ds, r) ->
  (length r < length l)%nat.
Proof.
  destruct (span is_digit l) as [[|d a] b] eqn:Hs; [discriminate|].
  intros [= <- <-]. apply span_length in Hs. cbn in *. lia.
Qed.

Lemma json_number_length l n r : json_number l = Some (n, r) -> (length r < length l)%nat.
Proof.
  unfold json_number.
  assert (H1 : (length (snd (json_sign l)) <= length l)%nat).
  { destruct l as [|c l0]; cbn; [lia|]. destruct (c =? 45)%N; cbn; lia. }
  destruct (json_sign l) as [neg l1]. cbn in H1.
  destruct (json_int l1) as [[ip l2]|] eqn:Hint; [|discriminate]. cbn.
  assert (H2 : (length l2 < length l1)%nat).
  { unfold json_int in Hint. destruct l1 as [|c l1']; [discriminate|].
    destruct (c =? 48)%N; [injection Hint as _ <-; cbn; lia|].
    by eapply digits_length. }
  destruct (json_frac l2) as [[fp l3]|] eqn:Hfrac; [|discriminate]. cbn.
  assert (H3 : (length l3 <= length l2)%nat).
  { unfold json_frac in Hfrac. destruct l2 as [|c l2']; [injection Hfrac as _ <-; lia|].
    destruct (c =? 46)%N; [|injection Hfrac as _ <-; lia].
    apply digits_length in Hfrac. cbn. lia. }
  destruct (json_exp l3) as [[ex l4]|] eqn:Hexp; [|discriminate]. cbn.
  assert (H4 : (length l4 <= length l3)%nat).
  { unfold json_exp in Hexp. destruct l3 as [|c l3']; [injection Hexp as _ <-; lia|].
    destruct (_ || _)%N; [|injection Hexp as _ <-; lia].
    pose proof (exp_sign_length l3') as Hes.
    destruct (exp_sign l3') as [neg' l1']. cbn in Hes.
    destruct (span is_digit l1') as [[|d ds] rest] eqn:Hs; [discriminate|].
    injection Hexp as _ <-. apply span_length in Hs. cbn in *. lia. }
  intros [= _ <-]. lia.
Qed.

Lemma strip_prefix_length p l r :
  strip_prefix p l = Some r -> length l = (length p + length r)%nat.
Proof. intros ->%strip_prefix_spec. apply length_app. Qed.

Lemma json_atom_length l v r : json_atom l = Some (v, r) -> (length r < length l)%nat.
Proof.
  unfold json_atom.
  destruct (strip_prefix (lit "true") l) eqn:H1.
  { intros [= _ <-]. apply strip_prefix_length in H1.
    change (length (lit "true")) with 4%nat in H1. lia. }
  destruct (strip_prefix (lit "false") l) eqn:H2.
  { intros [= _ <-]. apply strip_prefix_length in H2.
    change (length (lit "false")) with 5%nat in H2. lia. }
  destruct (strip_prefix (lit "null") l) eqn:H3.
  { intros [= _ <-]. apply strip_prefix_length in H3.
    change (length (lit "null")) with 4%nat in H3. lia. }
  destruct (json_number l) as [[n r']|] eqn:Hn; [|discriminate]. cbn.
  intros [= _ <-]. by eapply json_number_length.
Qed.

(** Whatever is parsed consumes at least one code unit. *)
Lemma json_consumes f :
  (forall l v r, json_value f l = Some (v, r) -> (length r < length l)%nat)
  /\ (forall l acc v r, json_members f l acc = Some (v, r) -> (length r < length l)%nat)
  /\ (forall l acc v r, json_elements f l acc = Some (v, r) -> (length r < length l)%nat).
Proof.
  induction f as [|f (IHv & IHm & IHe)]; [repeat split; discriminate|].
  split; [|split].
  - intros l v r. simpl.
    destruct (skip_json_ws l) as [|c t] eqn:Hl; [discriminate|].
    apply skip_json_ws_cons in Hl.
    destruct (c =? 123)%N.
    { destruct (skip_json_ws t) as [|c' t'] eqn:Ht; [discriminate|].
      apply skip_json_ws_cons in Ht.
      destruct (c' =? 125)%N; [intros [= _ <-]; lia|].
      intros H%IHm. cbn in H. lia. }
    destruct (c =? 91)%N.
    { destruct (skip_json_ws t) as [|c' t'] eqn:Ht; [discriminate|].
      apply skip_json_ws_cons in Ht.
      destruct (c' =? 93)%N; [intros [= _ <-]; lia|].
      intros H%IHe. lia. }
    destruct (c =? 34)%N.
    { destruct (json_string t []) as [[s r']|] eqn:Hs; [|discriminate]. cbn.
      intros [= _ <-]. apply json_string_length in Hs. lia. }
    intros H%json_atom_length. cbn in H.
    pose proof (skip_json_ws_length l). lia.
  - intros l acc v r. simpl.
    destruct l as [|q t]; [discriminate|].
    destruct (q =? 34)%N; [|discriminate].
    destruct (json_string t []) as [[k r0]|] eqn:Hs; [|discriminate]. cbn.
    apply json_string_length in Hs.
    destruct (skip_json_ws r0) as [|colon r1] eqn:H0; [discriminate|].
    apply skip_json_ws_cons in H0.
    destruct (colon =? 58)%N; [|discriminate].
    destruct (json_value f r1) as [[v0 r2]|] eqn:Hv; [|discriminate]. cbn.
    apply IHv in Hv.
    destruct (skip_json_ws r2) as [|d r3] eqn:H2; [discriminate|].
    apply skip_json_ws_cons in H2.
    destruct (d =? 44)%N.
    { intros H%IHm. pose proof (skip_json_ws_length r3). cbn. lia. }
    destruct (d =? 125)%N; [|discriminate].
    intros [= _ <-]. cbn. lia.
  - intros l acc v r. simpl.
    destruct (json_value f l) as [[v0 r0]|] eqn:Hv; [|discriminate]. cbn.
    apply IHv in Hv.
    destruct (skip_json_ws r0) as [|d r1] eqn:H0; [discriminate|].
    apply skip_json_ws_cons in H0.
    destruct (d =? 44)%N; [intros H%IHe; lia|].
    destruct (d =? 93)%N; [|discriminate].
    intros [= _ <-]. lia.
Qed.

(** More fuel than twice the length of the text changes nothing. *)
Lemma json_fuel f : forall f', (f <= f')%nat ->
  (forall l, (2 * length l + 1 <= f)%nat -> json_value f' l = json_value f l)
  /\ (forall l acc, (2 * length l + 1 <= f)%nat -> json_members f' l acc = json_members f l acc)
  /\ (forall l acc, (2 * length l + 2 <= f)%nat -> json_elements f' l acc = json_elements f l acc).
Proof.
  induction f as [|f IH]; intros f' Hle; [repeat split; intros; lia|].
  destruct f' as [|f']; [lia|].
  destruct (IH f' ltac:(lia)) as (IHv & IHm & IHe).
  split; [|split].
  - intros l Hl. simpl.
    destruct (skip_json_ws l) as [|c t] eqn:Hs; [reflexivity|].
    apply skip_json_ws_cons in Hs.
    destruct (c =? 123)%N.
    { destruct (skip_json_ws t) as [|c' t'] eqn:Ht; [reflexivity|].
      apply skip_json_ws_cons in Ht.
      destruct (c' =? 125)%N; [reflexivity|]. apply IHm. cbn. lia. }
    destruct (c =? 91)%N.
    { destruct (skip_json_ws t) as [|c' t'] eqn:Ht; [reflexivity|].
      destruct (c' =? 93)%N; [reflexivity|]. apply IHe. lia. }
    reflexivity.
  - intros l acc Hl. simpl.
    destruct l as [|q t]; [reflexivity|].
    destruct (q =? 34)%N; [|reflexivity].
    destruct (json_string t []) as [[k r0]|] eqn:Hs; [|reflexivity]. cbn.
    apply json_string_length in Hs.
    destruct (skip_json_ws r0) as [|colon r1] eqn:H0; [reflexivity|].
    apply skip_json_ws_cons in H0.
    destruct (colon =? 58)%N; [|reflexivity].
    cbn in Hl. rewrite IHv by lia.
    destruct (json_value f r1) as [[v0 r2]|] eqn:Hv; [|reflexivity]. cbn.
    apply (proj1 (json_consumes f)) in Hv.
    destruct (skip_json_ws r2) as [|d r3] eqn:H2; [reflexivity|].
    apply skip_json_ws_cons in H2.
    destruct (d =? 44)%N; [|reflexivity].
    apply IHm. pose proof (skip_json_ws_length r3). lia.
  - intros l acc Hl. simpl.
    rewrite IHv by lia.
    destruct (json_value f l) as [[v0 r0]|] eqn:Hv; [|reflexivity]. cbn.
    apply (proj1 (json_consumes f)) in Hv.
    destruct (skip_json_ws r0) as [|d r1] eqn:H0; [reflexivity|].
    apply skip_json_ws_cons in H0.
    destruct (d =? 44)%N; [|reflexivity].
    apply IHe. lia.
Qed.

(** [JSON_parse] is the parser with as much fuel as one likes. *)
Lemma JSON_parse_fuel text f :
  (2 * length text < f)%nat ->
  JSON_parse text =
  '(v, r) ← json_value f text; match skip_json_ws r with [] => Some v | _ => None end.
Proof.
  intros Hf. unfold JSON_parse.
  by rewrite (proj1 (json_fuel (S (2 * length text)) f ltac:(lia)) text ltac:(lia)).
Qed.

(** ** One candidate *)

Lemma get_prop_field json k :
  json <> JUndefined -> json <> JNull -> get_prop json (lit k) = Some (field json k).
Proof. destruct json; intros H1 H2; try reflexivity; congruence. Qed.

Lemma snapshot_fields json :
  json <> JUndefined -> json <> JNull ->
  snapshot json =
  Some {| model := js_or (field json "m") DEFAULT_MODEL;
          cost := cost_of (field json "c");
          linesAdded := js_or (field json "la") (JNum num_zero);
          linesRemoved := js_or (field json "lr") (JNum num_zero);
          contextPercent := js_or (field json "cp") (JNum num_zero);
          inputTokens := js_or (field json "it") (JNum num_zero);
          outputTokens := js_or (field json "ot") (JNum num_zero);
          state := js_or (field json "s") JUndefined |}.
Proof.
  intros H1 H2. unfold snapshot.
  rewrite !(get_prop_field json) by assumption. reflexivity.
Qed.

Lemma has_expected_fields_spec json :
  (forall ms, json = JObj ms -> parsed_members ms) ->
  has_expected_fields json = Some true <-> has_field json "m" \/ has_field json "c".
Proof.
  intros Hjson. rewrite <- !(field_defined json) by exact Hjson.
  unfold has_expected_fields.
  destruct json as [| | | | | |ms]; cbn; try (split; [discriminate | intros [?|?]; discriminate]).
  destruct (is_undefined (assoc_last (lit "m") ms JUndefined)); cbn.
  - destruct (is_undefined (assoc_last (lit "c") ms JUndefined)); cbn;
      split; try discriminate; try tauto. intros [?|?]; discriminate.
  - tauto.
Qed.

Lemma try_candidate_returned text r :
  try_candidate text = Returned r <->
  exists json, JSON_parse text = Some json
               /\ (has_field json "m" \/ has_field json "c")
               /\ snapshot json = Some r.
Proof.
  unfold try_candidate.
  destruct (JSON_parse text) as [json|] eqn:Hparse; cbn.
  2: { split; [discriminate|]. intros (json & [=] & _). }
  destruct (JSON_parse_parsed _ _ Hparse) as [Hv Hms].
  pose proof (has_expected_fields_spec json Hms) as Hfields.
  destruct (has_expected_fields json) as [[|]|]; cbn.
  - destruct (snapshot json) as [r'|] eqn:Hsnap; cbn.
    + split.
      * intros [= ->]. exists json. split; [reflexivity|]. split; [by apply Hfields | exact Hsnap].
      * intros (json' & [= <-] & _ & Hr). congruence.
    + split; [discriminate|]. intros (json' & [= <-] & _ & Hr). congruence.
  - split; [discriminate|]. intros (json' & [= <-] & H & _).
    apply Hfields in H. discriminate.
  - split; [discriminate|]. intros (json' & [= <-] & H & _).
    apply Hfields in H. discriminate.
Qed.

Lemma acceptable_returns cand :
  acceptable cand <-> exists r, try_candidate (payload cand) = Returned r.
Proof.
  split.
  - intros (json & Hparse & Hfields).
    destruct (JSON_parse_parsed _ _ Hparse) as [Hv _].
    assert (Hs : exists r, snapshot json = Some r).
    { rewrite snapshot_fields; [eauto | |]; intros ->; [exact Hv|].
      destruct Hfields as [[]|[]]. }
    destruct Hs as [r Hr]. exists r. apply try_candidate_returned. eauto.
  - intros (r & Hr). apply try_candidate_returned in Hr as (json & ? & ? & _).
    exists json. eauto.
Qed.

(** ** The backward scan *)

Lemma scan_back_some matches n r :
  scan_back matches n = Some r <->
  exists i cand, (i < n)%nat /\ matches !! i = Some cand
    /\ try_candidate (payload cand) = Returned r
    /\ (forall j, (i < j < n)%nat -> forall c, matches !! j = Some c -> ~ acceptable c)
    /\ (forall j, (i <= j < n)%nat -> is_Some (matches !! j)).
Proof.
  induction n as [|n IH]; cbn.
  - split; [discriminate|]. intros (i & _ & Hi & _). lia.
  - destruct (matches !! n) as [m|] eqn:Hm.
    + fold (payload m).
      destruct (try_candidate (payload m)) as [r'| |] eqn:Htry.
      * split.
        -- intros [= ->]. exists n, m. repeat split; auto; try lia.
           intros j Hj. assert (j = n) as -> by lia. eauto.
        -- intros (i & cand & Hi & Hcand & Hret & Hlater & _).
           destruct (decide (i = n)) as [->|Hne].
           ++ congruence.
           ++ exfalso. apply (Hlater n ltac:(lia) m Hm).
              apply acceptable_returns. eauto.
      * rewrite IH. split.
        -- intros (i & cand & Hi & Hcand & Hret & Hlater & Hsome).
           exists i, cand. repeat split; auto.
           ++ intros j Hj c Hc. destruct (decide (j = n)) as [->|Hne].
              ** rewrite Hm in Hc. injection Hc as <-.
                 rewrite acceptable_returns. intros (r0 & Hr0). congruence.
              ** apply (Hlater j); [lia | exact Hc].
           ++ intros j Hj. destruct (decide (j = n)) as [->|Hne]; [eauto|].
              apply Hsome. lia.
        -- intros (i & cand & Hi & Hcand & Hret & Hlater & Hsome).
           assert (i <> n) by (intros ->; congruence).
           exists i, cand. repeat split; auto; try lia.
           ++ intros j Hj. apply Hlater. lia.
           ++ intros j Hj. apply Hsome. lia.
      * rewrite IH. split.
        -- intros (i & cand & Hi & Hcand & Hret & Hlater & Hsome).
           exists i, cand. repeat split; auto.
           ++ intros j Hj c Hc. destruct (decide (j = n)) as [->|Hne].
              ** rewrite Hm in Hc. injection Hc as <-.
                 rewrite acceptable_returns. intros (r0 & Hr0). congruence.
              ** apply (Hlater j); [lia | exact Hc].
           ++ intros j Hj. destruct (decide (j = n)) as [->|Hne]; [eauto|].
              apply Hsome. lia.
        -- intros (i & cand & Hi & Hcand & Hret & Hlater & Hsome).
           assert (i <> n) by (intros ->; congruence).
           exists i, cand. repeat split; auto; try lia.
           ++ intros j Hj. apply Hlater. lia.
           ++ intros j Hj. apply Hsome. lia.
    + split; [discriminate|].
      intros (i & cand & Hi & Hcand & Hret & Hlater & Hsome).
      destruct (Hsome n ltac:(lia)) as [x Hx]. congruence.
Qed.

Lemma parseMetrics_scan data :
  parseMetrics data = scan_back (candidates data) (length (candidates data)).
Proof.
  unfold parseMetrics. fold (candidates data).
  destruct (candidates data); reflexivity.
Qed.

Lemma parseMetrics_some data r :
  parseMetrics data = Some r <->
  exists i cand, candidates data !! i = Some cand
    /\ try_candidate (payload cand) = Returned r
    /\ (forall j c, (i < j)%nat -> candidates data !! j = Some c -> ~ acceptable c).
Proof.
  rewrite parseMetrics_scan, scan_back_some. split.
  - intros (i & cand & Hi & Hcand & Hret & Hlater & _). exists i, cand. repeat split; auto.
    intros j c Hj Hc. apply (Hlater j); [|exact Hc].
    apply lookup_lt_Some in Hc. lia.
  - intros (i & cand & Hcand & Hret & Hlater). exists i, cand.
    pose proof (lookup_lt_Some _ _ _ Hcand). repeat split; auto.
    + intros j Hj c Hc. by apply (Hlater j c); [lia|].
    + intros j Hj. apply lookup_lt_is_Some. lia.
Qed.

Lemma parseMetrics_none data :
  parseMetrics data = None <-> forall cand, In cand (candidates data) -> ~ acceptable cand.
Proof.
  split.
  - intros Hnone cand Hin Hacc.
    apply list_elem_of_In, list_elem_of_lookup in Hin as [i Hi].
    (* the last acceptable candidate would have been returned *)
    assert (Hex : exists r, parseMetrics data = Some r); [|destruct Hex; congruence].
    clear Hnone. rewrite parseMetrics_scan.
    pose proof (lookup_lt_Some _ _ _ Hi) as Hlt.
    assert (Hgen : forall n, (i < n <= length (candidates data))%nat ->
              exists r, scan_back (candidates data) n = Some r).
    { induction n as [|n IH]; [lia|]. intros Hn. cbn.
      destruct (lookup_lt_is_Some_2 (candidates data) n ltac:(lia)) as [m Hm]. rewrite Hm.
      fold (payload m). destruct (try_candidate (payload m)) as [r| |] eqn:Htry; [eauto| |].
      - destruct (decide (i = n)) as [->|Hne]; [|apply IH; lia].
        rewrite Hi in Hm. injection Hm as ->.
        apply acceptable_returns in Hacc as [r Hr]. congruence.
      - destruct (decide (i = n)) as [->|Hne]; [|apply IH; lia].
        rewrite Hi in Hm. injection Hm as ->.
        apply acceptable_returns in Hacc as [r Hr]. congruence. }
    apply Hgen. lia.
  - intros Hall. destruct (parseMetrics data) as [r|] eqn:Hr; [|reflexivity].
    apply parseMetrics_some in Hr as (i & cand & Hcand & Hret & _).
    exfalso. apply (Hall cand).
    + apply list_elem_of_In, list_elem_of_lookup. eauto.
    + apply acceptable_returns. eauto.
Qed.

(** ** The shape of a candidate *)

Lemma tag_match_shape l m :
  tag_match l = Some m ->
  exists body rest,
    m = lit "[OPENUI:{" ++ body ++ lit "}]"
    /\ body <> [] /\ ~ In 125%N body /\ l = m ++ rest.
Proof.
  unfold tag_match.
  destruct (strip_prefix OPENUI_OPEN l) as [l'|] eqn:Hpre; [|discriminate].
  apply strip_prefix_spec in Hpre as ->.
  destruct (span _ l') as [body rest] eqn:Hspan.
  apply span_spec in Hspan as [-> Hbody].
  destruct body as [|b body]; [discriminate|].
  destruct rest as [|brace [|bracket rest]]; try discriminate.
  destruct (N.eqb_spec brace 125) as [->|]; [|discriminate].
  destruct (N.eqb_spec bracket 93) as [->|]; [|discriminate].
  cbn [andb]. intros [= <-]. exists (b :: body), rest. repeat split.
  - discriminate.
  - intros Hin. rewrite Forall_forall in Hbody. specialize (Hbody _ (proj2 (list_elem_of_In _ _) Hin)).
    discriminate.
  - change (OPENUI_OPEN ++ (b :: body) ++ [125; 93]%N ++ rest
            = (OPENUI_OPEN ++ (b :: body) ++ [125; 93]%N) ++ rest).
    by rewrite <- !app_assoc.
Qed.

Lemma match_all_from_infix l skip m :
  In m (match_all_from skip l) ->
  exists pre post, l = pre ++ m ++ post /\ exists l', tag_match l' = Some m.
Proof.
  revert skip. induction l as [|c l IH]; intros skip; cbn; [tauto|].
  assert (Hrest : forall k, In m (match_all_from k l) ->
            exists pre post, c :: l = pre ++ m ++ post /\ exists l', tag_match l' = Some m).
  { intros k Hin. destruct (IH _ Hin) as (pre & post & -> & Hl').
    exists (c :: pre), post. by split. }
  destruct skip as [|k]; [|apply Hrest].
  destruct (tag_match (c :: l)) as [m0|] eqn:Hm; [|apply Hrest].
  intros [<-|Hin]; [|by eapply Hrest].
  destruct (tag_match_shape _ _ Hm) as (body & rest & _ & _ & _ & Hl).
  exists [], rest. split; [exact Hl | eauto].
Qed.

Lemma payload_shape body :
  payload (lit "[OPENUI:{" ++ body ++ lit "}]") = lit "{" ++ body ++ lit "}".
Proof.
  unfold payload, js_slice.
  change (lit "[OPENUI:{") with ([91; 79; 80; 69; 78; 85; 73; 58; 123]%N).
  change (lit "}]") with ([125; 93]%N).
  change (lit "{") with ([123]%N). change (lit "}") with ([125]%N).
  rewrite !length_app. cbn [length].
  unfold clamp_index.
  destruct (Z.ltb_spec 8 0); [lia|].
  destruct (Z.ltb_spec (-1) 0); [|lia].
  replace (Z.to_nat (Z.min 8 _)) with 8%nat by lia.
  match goal with |- take ?n _ = _ => replace n with (S (length body + 1)) by lia end.
  cbn [drop app take]. f_equal.
  rewrite take_app_add'; [|reflexivity]. reflexivity.
Qed.

(** ** The candidates are the tags of the text, in its order *)

Lemma tag_match_complete t rest : is_tag t -> tag_match (t ++ rest) = Some t.
Proof.
  intros (body & -> & Hne & Hbrace). unfold tag_match.
  change (lit "[OPENUI:{") with OPENUI_OPEN. change (lit "}]") with ([125; 93]%N).
  rewrite <- !app_assoc, strip_prefix_app. cbn [app].
  rewrite span_stop; [|by apply Forall_forall; intros x Hx; destruct (N.eqb_spec x 125);
                        [subst; destruct Hbrace; by apply list_elem_of_In | reflexivity]
                      |reflexivity].
  destruct body as [|b body]; [congruence|]. reflexivity.
Qed.

Lemma tag_match_is_tag l t :
  tag_match l = Some t <-> is_tag t /\ exists rest, l = t ++ rest.
Proof.
  split.
  - intros H. destruct (tag_match_shape _ _ H) as (body & rest & Ht & Hne & Hbrace & Hl).
    split; [by exists body | by exists rest].
  - intros (Ht & rest & ->). by apply tag_match_complete.
Qed.

(** Two tags that begin at the same place are the same tag. *)
Lemma is_tag_unique t1 r1 t2 r2 :
  is_tag t1 -> is_tag t2 -> t1 ++ r1 = t2 ++ r2 -> t1 = t2 /\ r1 = r2.
Proof.
  intros H1 H2 Heq.
  pose proof (tag_match_complete t1 r1 H1) as Hm1.
  pose proof (tag_match_complete t2 r2 H2) as Hm2.
  rewrite Heq, Hm2 in Hm1. injection Hm1 as ->.
  split; [reflexivity|]. by apply app_inv_head in Heq.
Qed.

Lemma tag_not_empty t : is_tag t -> t <> [].
Proof. intros (body & -> & _) H. discriminate H. Qed.

Lemma match_all_from_drop l : forall k, match_all_from k l = match_all_from 0 (drop k l).
Proof.
  induction l as [|c l IH]; intros [|k]; try reflexivity.
  cbn [match_all_from drop]. apply IH.
Qed.

Lemma match_all_hit t rest : is_tag t -> match_all (t ++ rest) = t :: match_all rest.
Proof.
  intros Ht. pose proof (tag_match_complete t rest Ht) as Hm.
  destruct t as [|c t]; [by destruct (tag_not_empty _ Ht)|].
  unfold match_all. cbn [app match_all_from] in *. rewrite Hm. f_equal.
  rewrite match_all_from_drop.
  replace (length (c :: t) - 1)%nat with (length t) by (cbn [length]; lia).
  by rewrite drop_app_length.
Qed.

Lemma match_all_miss c l : tag_match (c :: l) = None -> match_all (c :: l) = match_all l.
Proof. intros Hm. unfold match_all. cbn [match_all_from]. by rewrite Hm. Qed.

(** With no tag at its head, a text has the tags of its tail. *)
Lemma tags_in_order_skip c l cands :
  tag_match (c :: l) = None -> tags_in_order l cands -> tags_in_order (c :: l) cands.
Proof.
  intros Hm Hl.
  assert (Hhead : forall t post, c :: l = t ++ post -> ~ is_tag t).
  { intros t post Heq Ht. rewrite Heq, (tag_match_complete _ _ Ht) in Hm. discriminate. }
  destruct Hl as [l Hnone | l gap t rest cands Hl Ht Hleft Hrest].
  - apply tags_none. intros [|x pre] t post Heq.
    + exact (Hhead t post Heq).
    + injection Heq as _ ->. by eapply Hnone.
  - apply (tags_next _ (c :: gap) t rest); [by rewrite Hl | exact Ht | | exact Hrest].
    intros [|x pre] t' post Heq Ht'.
    + destruct (Hhead t' post Heq Ht').
    + injection Heq as _ Heq. cbn [length]. apply le_n_S. by eapply Hleft.
Qed.

Lemma tags_in_order_match_all text : tags_in_order text (match_all text).
Proof.
  remember (length text) as n eqn:Hn. revert text Hn.
  induction n as [n IH] using lt_wf_ind. intros [|c l] Hn.
  - apply tags_none. intros pre t post Heq Ht.
    symmetry in Heq. apply app_eq_nil in Heq as [_ Heq]. apply app_eq_nil in Heq as [Heq _].
    by destruct (tag_not_empty _ Ht).
  - destruct (tag_match (c :: l)) as [t|] eqn:Hm.
    + apply tag_match_is_tag in Hm as (Ht & rest & Heq). rewrite Heq, (match_all_hit _ _ Ht).
      apply (tags_next _ [] t rest); [reflexivity | exact Ht | intros; cbn; lia |].
      apply (IH (length rest)); [|reflexivity].
      subst n. rewrite Heq, length_app.
      destruct t; [by destruct (tag_not_empty _ Ht) | cbn; lia].
    + rewrite (match_all_miss _ _ Hm). apply tags_in_order_skip; [exact Hm|].
      apply (IH (length l)); [subst n; cbn; lia | reflexivity].
Qed.

Lemma tags_in_order_unique text l1 l2 :
  tags_in_order text l1 -> tags_in_order text l2 -> l1 = l2.
Proof.
  intros H1. revert l2.
  induction H1 as [text Hnone | text gap t rest cands Htext Ht Hleft Hrest IH]; intros l2 H2.
  - destruct H2 as [|text gap t rest cands Htext Ht]; [reflexivity|].
    destruct (Hnone _ _ _ Htext Ht).
  - destruct H2 as [text Hnone | text gap' t' rest' cands' Htext' Ht' Hleft' Hrest'].
    + destruct (Hnone _ _ _ Htext Ht).
    + pose proof (Hleft _ _ _ Htext' Ht') as Hle.
      pose proof (Hleft' _ _ _ Htext Ht) as Hge.
      assert (Hlen : length gap = length gap') by lia.
      rewrite Htext in Htext'.
      apply app_inj_1 in Htext' as [<- Htail]; [|exact Hlen].
      destruct (is_tag_unique _ _ _ _ Ht Ht' Htail) as [<- <-].
      f_equal. by apply IH.
Qed.

(** C2.  The metrics extractor tries the candidates of a text from the
    most recent to the least recent and answers with the snapshot of the
    first acceptable one.  The candidates are the tags of the cleaned
    text, the pieces of the form [[OPENUI:{...}]], none left out and in
    the order of the text: the first candidate is the leftmost tag of the
    text, the next one the leftmost tag behind it, and so on until no tag
    is left; no other list is of that kind.  A candidate is acceptable
    when its payload, the braces and what they hold, parses as JSON and
    has the field [m] or the field [c].  The extractor returns a snapshot
    exactly when it is that of an acceptable candidate after which no
    candidate is acceptable, and returns nothing exactly when no candidate
    is acceptable. *)
Theorem metrics_from_most_recent_acceptable data :
  let text := normalize_ws (strip_ansi data) in
  tags_in_order text (candidates data)
  /\ (forall l, tags_in_order text l -> l = candidates data)
  /\ (forall cand, In cand (candidates data) ->
        exists pre body post,
          text = pre ++ cand ++ post
          /\ cand = lit "[OPENUI:{" ++ body ++ lit "}]"
          /\ body <> [] /\ ~ In 125%N body
          /\ payload cand = lit "{" ++ body ++ lit "}")
  /\ (forall r, parseMetrics data = Some r <->
        exists i cand json,
          candidates data !! i = Some cand
          /\ JSON_parse (payload cand) = Some json
          /\ (has_field json "m" \/ has_field json "c")
          /\ snapshot json = Some r
          /\ forall j later, (i < j)%nat -> candidates data !! j = Some later ->
               ~ acceptable later)
  /\ (parseMetrics data = None <->
        forall cand, In cand (candidates data) -> ~ acceptable cand).
Proof.
  intros text. split; [apply tags_in_order_match_all|].
  split; [intros l Hl; exact (tags_in_order_unique _ _ _ Hl (tags_in_order_match_all text))|].
  split; [|split].
  - intros cand Hin. apply match_all_from_infix in Hin as (pre & post & Htext & l' & Hm).
    apply tag_match_shape in Hm as (body & rest & -> & Hne & Hbrace & _).
    exists pre, body, post. repeat split; auto. apply payload_shape.
  - intros r. rewrite parseMetrics_some. split.
    + intros (i & cand & Hcand & Hret & Hlater).
      apply try_candidate_returned in Hret as (json & ? & ? & ?).
      exists i, cand, json. repeat split; auto.
    + intros (i & cand & json & Hcand & Hparse & Hfields & Hsnap & Hlater).
      exists i, cand. repeat split; auto.
      apply try_candidate_returned. eauto.
  - apply parseMetrics_none.
Qed.

(** ** Defaults of the snapshot *)

Lemma js_or_defined a b : b <> JUndefined -> js_or a b <> JUndefined.
Proof.
  intros Hb. unfold js_or. destruct (truthy a) eqn:Ha; [|exact Hb].
  intros ->. discriminate.
Qed.

Lemma cost_of_spec c :
  c = JUndefined \/ parsed_value c ->
  cost_of c <> NaN /\ (truthy c = false -> num_is_zero (cost_of c) = true).
Proof.
  intros Hc. unfold cost_of.
  assert (Hother : forall f, (if num_truthy f then f else num_zero) <> NaN)
    by (intros [| |]; cbn; try discriminate; intros; destruct (dec_rounds_to_zero _ _); discriminate).
  destruct c as [| |b|n|s|es|ms]; cbn [truthy]; try (split; [apply Hother|]).
  - intros _. vm_compute. reflexivity.
  - intros _. vm_compute. reflexivity.
  - intros ->. vm_compute. reflexivity.
  - destruct Hc as [|Hn]; [discriminate|]. destruct n as [| |neg m e]; try (destruct Hn; fail).
    split; [discriminate|]. cbn. by intros ->%negb_false_iff.
  - destruct s; [|discriminate]. intros _. vm_compute. reflexivity.
  - discriminate.
  - discriminate.
Qed.

(** C10.  A snapshot returned by the metrics extractor is built from the
    parsed payload of one of the candidates, field by field: a field that
    is there and truthy is taken as it is, and a field that is missing or
    falsy gives way to its default: the model to ["Claude"]; the lines
    added and removed, the context percentage and the two token counts to
    0; the state to [undefined].  The cost of a number is that number, the
    cost of anything else is what [parseFloat] reads in it, or 0 if that
    is not a number or is zero; so a missing or falsy cost is a zero.
    Hence the model, the cost and the five other numeric fields of a
    snapshot are always defined. *)
Theorem accepted_snapshot_defaults data r :
  parseMetrics data = Some r ->
  exists cand json,
    In cand (candidates data) /\ JSON_parse (payload cand) = Some json
    /\ defaults_applied json r /\ fields_defined r.
Proof.
  intros Hr. apply parseMetrics_some in Hr as (i & cand & Hcand & Hret & _).
  apply try_candidate_returned in Hret as (json & Hparse & Hfields & Hsnap).
  destruct (JSON_parse_parsed _ _ Hparse) as [Hv Hms].
  rewrite snapshot_fields in Hsnap.
  2: { intros ->. exact Hv. }
  2: { intros ->. destruct Hfields as [[]|[]]. }
  injection Hsnap as <-.
  destruct (cost_of_spec (field json "c") (field_parsed json "c" Hms)) as [Hnan Hzero].
  exists cand, json. unfold defaults_applied, fields_defined.
  cbn [model cost linesAdded linesRemoved contextPercent inputTokens outputTokens state].
  split. { apply list_elem_of_In, list_elem_of_lookup. eauto. }
  split; [exact Hparse|].
  repeat match goal with |- _ /\ _ => split end;
    try reflexivity; try exact Hnan; try exact Hzero;
    try (apply js_or_defined; discriminate).
  unfold cost_of. destruct (field json "c"); reflexivity.
Qed.

(** ** Metrics are last known good *)

Lemma onData_create_metrics env agent data s :
  parseMetrics data = None -> metrics (fst (onData_create env agent data s)) = metrics s.
Proof.
  intros Hnone. unfold onData_create, onData_metrics. rewrite Hnone.
  destruct (decide _); reflexivity.
Qed.

Lemma refresh_session_scan env id s cache :
  agentId (fst (refresh_session env id s cache)) = agentId s
  /\ outputBuffer (fst (refresh_session env id s cache)) = outputBuffer s
  /\ (scanBufferForMetrics s = None ->
      metrics (fst (refresh_session env id s cache)) = metrics s
      /\ snd (refresh_session env id s cache) = cache).
Proof.
  unfold refresh_session.
  change (scanBufferForMetrics (set_status (detectStatus env s) s))
    with (scanBufferForMetrics s).
  destruct (decide _); [|by repeat split].
  destruct (match cache !! id with Some _ => _ | None => _ end); [|by repeat split].
  destruct (scanBufferForMetrics s); repeat split; discriminate.
Qed.

Lemma refresh_session_v0_metrics env id s :
  scanBufferForMetrics s = None -> metrics (fst (refresh_session_v0 env id s)) = metrics s.
Proof.
  intros Hnone. unfold refresh_session_v0.
  change (scanBufferForMetrics (set_status (detectStatus env s) s))
    with (scanBufferForMetrics s).
  rewrite Hnone. destruct (decide _); reflexivity.
Qed.

Lemma scanBufferForMetrics_ext s s' :
  agentId s' = agentId s -> outputBuffer s' = outputBuffer s ->
  scanBufferForMetrics s' = scanBufferForMetrics s.
Proof. intros Ha Hb. unfold scanBufferForMetrics. by rewrite Ha, Hb. Qed.

Lemma list_entry_scan env acc entry r s :
  heap (fst acc) !! r = Some s ->
  exists s', heap (fst (list_entry env acc entry)) !! r = Some s'
    /\ agentId s' = agentId s /\ outputBuffer s' = outputBuffer s
    /\ (scanBufferForMetrics s = None -> metrics s' = metrics s).
Proof.
  destruct acc as [w out], entry as [id r0]. cbn. intros Hr.
  destruct (heap w !! r0) as [s0|] eqn:Hr0; [|by exists s].
  pose proof (refresh_session_scan env id s0 (metricsCache w)) as (Ha & Hb & Hm).
  destruct (refresh_session env id s0 (metricsCache w)) as [s0' cache]. cbn in *.
  destruct (decide (r0 = r)) as [->|Hne].
  - rewrite Hr in Hr0. injection Hr0 as ->. exists s0'.
    rewrite list_lookup_insert_eq by (by eapply lookup_lt_Some).
    repeat split; auto. intros Hnone. by destruct (Hm Hnone).
  - exists s. rewrite list_lookup_insert_ne by exact Hne. by repeat split.
Qed.

Lemma list_sessions_scan env w r s :
  heap w !! r = Some s -> scanBufferForMetrics s = None ->
  exists s', heap (fst (list_sessions env w)) !! r = Some s' /\ metrics s' = metrics s.
Proof.
  intros Hr Hnone. unfold list_sessions.
  assert (H : forall entries acc s0,
    heap (fst acc) !! r = Some s0 ->
    agentId s0 = agentId s -> outputBuffer s0 = outputBuffer s -> metrics s0 = metrics s ->
    exists s', heap (fst (fold_left (list_entry env) entries acc)) !! r = Some s'
               /\ metrics s' = metrics s).
  { induction entries as [|e entries IH]; intros acc s0 H0 Ha Hb Hm; cbn; [eauto|].
    destruct (list_entry_scan env acc e r s0 H0) as (s1 & H1 & Ha1 & Hb1 & Hm1).
    apply (IH _ s1 H1); try congruence.
    rewrite Hm1; [exact Hm|]. rewrite <- Hnone. by apply scanBufferForMetrics_ext. }
  destruct (H (sessions w) (w, []) s Hr eq_refl eq_refl eq_refl) as (s' & Hs' & Hm).
  destruct (fold_left _ _ _). eauto.
Qed.

Lemma with_session_lookup r0 f w r s :
  heap w !! r = Some s ->
  heap (with_session r0 f w) !! r = Some (if decide (r0 = r) then fst (f s) else s).
Proof.
  intros Hr. unfold with_session. destruct (decide (r0 = r)) as [->|Hne].
  - rewrite Hr. destruct (f s) as [s' es]. cbn.
    apply list_lookup_insert_eq. by eapply lookup_lt_Some.
  - destruct (heap w !! r0) as [s0|]; [|exact Hr]. destruct (f s0) as [s' es]. cbn.
    by rewrite list_lookup_insert_ne.
Qed.

Lemma pty_data_metrics env h data w r s :
  heap w !! r = Some s -> parseMetrics data = None ->
  exists s', heap (pty_data env h data w) !! r = Some s' /\ metrics s' = metrics s.
Proof.
  intros Hr Hnone. unfold pty_data.
  destruct (ptys w !! h) as [p|]; [|eauto].
  destruct (pty_onData p) as [[r0 agent|r0]|]; [| |eauto].
  - rewrite (with_session_lookup _ _ _ _ _ Hr). eexists. split; [reflexivity|].
    destruct (decide _); [by apply onData_create_metrics | reflexivity].
  - rewrite (with_session_lookup _ _ _ _ _ Hr). eexists. split; [reflexivity|].
    destruct (decide _); reflexivity.
Qed.

(** C3.  A scan that finds no acceptable candidate leaves the stored
    snapshot as it was.  On an output chunk for which [parseMetrics]
    returns nothing, the handler leaves [metrics] unchanged, and so does
    the chunk event for every session object of the world.  In a list
    request, a session for which [scanBufferForMetrics] returns nothing
    keeps its [metrics], in the route with the cache (which it leaves
    alone too) and in its earlier revision; whatever the order in which
    the request visits the sessions. *)
Theorem scan_miss_keeps_metrics :
  (forall env agent data s,
     parseMetrics data = None ->
     metrics (fst (onData_create env agent data s)) = metrics s)
  /\ (forall env h data w r s,
        heap w !! r = Some s -> parseMetrics data = None ->
        exists s', heap (pty_data env h data w) !! r = Some s' /\ metrics s' = metrics s)
  /\ (forall env id s cache,
        scanBufferForMetrics s = None ->
        metrics (fst (refresh_session env id s cache)) = metrics s
        /\ snd (refresh_session env id s cache) = cache)
  /\ (forall env id s,
        scanBufferForMetrics s = None ->
        metrics (fst (refresh_session_v0 env id s)) = metrics s)
  /\ (forall env w r s,
        heap w !! r = Some s -> scanBufferForMetrics s = None ->
        exists s', heap (fst (list_sessions env w)) !! r = Some s' /\ metrics s' = metrics s).
Proof.
  split; [|split; [|split; [|split]]].
  - apply onData_create_metrics.
  - apply pty_data_metrics.
  - intros env id s cache. apply refresh_session_scan.
  - apply refresh_session_v0_metrics.
  - apply list_sessions_scan.
Qed.

(** ** What a chunk sends to the observers *)

Lemma in_send_all env cs msgs e :
  In e (send_all env cs msgs) <->
  exists c msg, e = EffSend c msg /\ In c cs /\ readyState env c = 1 /\ In msg msgs.
Proof.
  unfold send_all. rewrite in_flat_map. split.
  - intros (c & Hc & He). destruct (Z.eqb_spec (readyState env c) 1) as [H1|]; [|destruct He].
    apply in_map_iff in He as (msg & <- & Hmsg). eauto 10.
  - intros (c & msg & -> & Hc & H1 & Hmsg). exists c. split; [exact Hc|].
    rewrite H1. cbn. apply in_map. exact Hmsg.
Qed.

Lemma in_do_log env err entry e :
  In e (do_log env err entry) -> e = EffLog err entry \/ e = EffConsole err entry.
Proof.
  unfold do_log. cbn. destruct (QUIET env); cbn; intuition.
Qed.

(** The handler of [createSession], laid out: [mid] is the session once the
    chunk is recorded, before the status is resolved. *)
Lemma onData_create_layout env agent data s :
  exists mid before,
    onData_create env agent data s =
      (set_status (detectStatus env mid) mid,
       before ++ send_all env (clients s)
                   (MsgOutput data ::
                    if negb (bool_decide (detectStatus env mid = status s))
                    then [MsgStatus (detectStatus env mid) (isRestored s)] else []))
    /\ status mid = status s
    /\ (forall c msg, In (EffSend c msg) before ->
          (exists m, msg = MsgMetrics m) /\ In c (clients s) /\ readyState env c = 1).
Proof.
  unfold onData_create, onData_metrics.
  set (s3 := set_recentOutputSize _ _).
  set (e_debug := if js_includes _ _ then _ else _).
  assert (Hdebug : forall c msg, ~ In (EffSend c msg) e_debug).
  { intros c msg Hin. subst e_debug. destruct (js_includes _ _); [|destruct Hin].
    apply in_do_log in Hin as [|]; discriminate. }
  destruct (decide (agent = lit "claude")) as [Hclaude|Hother];
    [destruct (parseMetrics data) as [m|]|].
  - exists (set_metrics (Some m) s3), (e_debug ++ do_log env false (LogMetricsParsed m)
                                        ++ send_all env (clients s) [MsgMetrics m]).
    split; [by rewrite <- !app_assoc|]. split; [reflexivity|].
    intros c msg Hin. apply in_app_or in Hin as [Hin|Hin]; [by destruct (Hdebug c msg)|].
    apply in_app_or in Hin as [Hin|Hin]; [apply in_do_log in Hin as [|]; discriminate|].
    apply in_send_all in Hin as (c' & msg' & [= <- <-] & Hc & H1 & [<-|[]]). eauto.
  - exists s3, e_debug. split; [reflexivity|]. split; [reflexivity|].
    intros c msg Hin. by destruct (Hdebug c msg).
  - exists s3, e_debug. split; [reflexivity|]. split; [reflexivity|].
    intros c msg Hin. by destruct (Hdebug c msg).
Qed.

Lemma pty_data_create env h data w p r agent s :
  ptys w !! h = Some p -> pty_onData p = Some (OnDataCreate r agent) ->
  heap w !! r = Some s ->
  heap (pty_data env h data w) !! r = Some (fst (onData_create env agent data s))
  /\ trace (pty_data env h data w) = trace w ++ snd (onData_create env agent data s).
Proof.
  intros Hp Hh Hr. unfold pty_data, with_session. rewrite Hp, Hh, Hr.
  destruct (onData_create env agent data s) as [s' es]. cbn. split; [|reflexivity].
  apply list_lookup_insert_eq. by eapply lookup_lt_Some.
Qed.

(** C7.  On a chunk, the output handler of [createSession] sends a
    [status] event only when the status it has just resolved differs from
    the one that was stored.  A [status] event in what the handler sends
    means the two differ, and it carries the new status.  When they are
    equal, everything sent is an [output] or a [metrics] event.  In both
    cases every attached observer whose socket is open gets the [output]
    event, and when the status did change it gets the [status] event too.
    The handler of a restarted session never sends a [status] event.  A
    chunk from the pty of a created session runs this handler on the
    session object: what it sends is what the chunk adds to the trace. *)
Theorem status_event_only_on_change env agent data s :
  let s' := fst (onData_create env agent data s) in
  let sent := snd (onData_create env agent data s) in
  status s' = detectStatus env (set_status (status s) s')
  /\ (forall c st rs, In (EffSend c (MsgStatus st rs)) sent ->
        status s' <> status s /\ st = status s' /\ rs = isRestored s'
        /\ In c (clients s) /\ readyState env c = 1)
  /\ (status s' = status s ->
      forall c msg, In (EffSend c msg) sent ->
        msg = MsgOutput data \/ exists m, msg = MsgMetrics m)
  /\ (forall c, In c (clients s) -> readyState env c = 1 ->
        In (EffSend c (MsgOutput data)) sent)
  /\ (status s' <> status s ->
      forall c, In c (clients s) -> readyState env c = 1 ->
        In (EffSend c (MsgStatus (status s') (isRestored s'))) sent)
  /\ (forall c st rs, ~ In (EffSend c (MsgStatus st rs)) (snd (onData_restart env data s)))
  /\ (forall w h p r,
        ptys w !! h = Some p -> pty_onData p = Some (OnDataCreate r agent) ->
        heap w !! r = Some s ->
        heap (pty_data env h data w) !! r = Some s'
        /\ trace (pty_data env h data w) = trace w ++ sent).
Proof.
  intros s' sent.
  assert (Hworld : forall w h p r,
        ptys w !! h = Some p -> pty_onData p = Some (OnDataCreate r agent) ->
        heap w !! r = Some s ->
        heap (pty_data env h data w) !! r = Some s'
        /\ trace (pty_data env h data w) = trace w ++ sent)
    by (intros; by eapply pty_data_create).
  revert Hworld. subst s' sent.
  destruct (onData_create_layout env agent data s) as (mid & before & Heq & Hst & Hbefore).
  rewrite Heq. cbn [fst snd].
  assert (Hmid : set_status (status s) (set_status (detectStatus env mid) mid) = mid).
  { rewrite <- Hst. by destruct mid. }
  assert (Hres : isRestored (set_status (detectStatus env mid) mid) = isRestored s).
  { pose proof (f_equal fst Heq) as H. cbn [fst] in H. rewrite <- H.
    unfold onData_create, onData_metrics.
    destruct (decide _); [destruct (parseMetrics data)|]; reflexivity. }
  rewrite Hres. cbn [status set_status]. intros Hworld.
  split; [by rewrite Hmid|].
  split; [|split; [|split; [|split; [|split; [|exact Hworld]]]]].
  - intros c st rs Hin. apply in_app_or in Hin as [Hin|Hin].
    + destruct (Hbefore _ _ Hin) as [[m [=]] _].
    + apply in_send_all in Hin as (c' & msg & [= <- <-] & Hc & H1 & [[=]|Hmsg]).
      destruct (bool_decide_reflect (detectStatus env mid = status s)) as [|Hne];
        [destruct Hmsg|].
      destruct Hmsg as [[= <- <-]|[]]. auto.
  - intros Hsame c msg Hin. apply in_app_or in Hin as [Hin|Hin].
    + right. by destruct (Hbefore _ _ Hin).
    + apply in_send_all in Hin as (c' & msg' & [= <- <-] & Hc & H1 & [<-|Hmsg]); [by left|].
      rewrite bool_decide_eq_true_2 in Hmsg by exact Hsame. destruct Hmsg.
  - intros c Hc H1. apply in_or_app. right. apply in_send_all.
    exists c, (MsgOutput data). repeat split; auto. by left.
  - intros Hne c Hc H1. apply in_or_app. right. apply in_send_all.
    eexists c, _. repeat split; auto. right.
    rewrite bool_decide_eq_false_2 by exact Hne. by left.
  - intros c st rs Hin. unfold onData_restart in Hin. cbn [snd] in Hin.
    apply in_send_all in Hin as (c' & msg & [= <- <-] & _ & _ & [[=]|[]]).
Qed.

(** ** Restart *)

(** C4.  Restarting a session that has a process fails with status 400,
    "Session already running", and changes nothing: the world after the
    request is the world before it, so no process was spawned and the
    session, its process binding included, is as it was.  A restart that
    spawns a process found a session without one; and for such a session,
    when the spawn succeeds, the session gets the new process, is no
    longer marked restored and is [starting]. *)
Theorem restart_rejected_when_running env id w :
  (forall r s, find_session w id = Some (r, s) -> is_Some (pty s) ->
     restart env id w = (w, already_running)
     /\ code already_running = 400
     /\ lookup_session (fst (restart env id w)) id = Some s)
  /\ (forall h dir, In (EffSpawn h dir) (trace (fst (restart env id w))) ->
        In (EffSpawn h dir) (trace w)
        \/ exists r s, find_session w id = Some (r, s) /\ pty s = None)
  /\ (forall r s, find_session w id = Some (r, s) -> pty s = None ->
        pty_spawns env (cwd s) = true ->
        snd (restart env id w) = ok
        /\ In (EffSpawn (length (ptys w)) (cwd s)) (trace (fst (restart env id w)))
        /\ exists s', heap (fst (restart env id w)) !! r = Some s'
             /\ pty s' = Some (length (ptys w)) /\ isRestored s' = false
             /\ status s' = starting /\ outputBuffer s' = outputBuffer s).
Proof.
  split; [|split].
  - intros r s Hfind [h Hpty]. unfold restart. rewrite Hfind, Hpty. cbn [fst].
    repeat split. unfold find_session in Hfind. unfold lookup_session.
    destruct (map_get id (sessions w)) as [r'|]; [|discriminate]. cbn in *.
    destruct (heap w !! r'); [|discriminate]. by injection Hfind as _ ->.
  - intros h dir. unfold restart.
    destruct (find_session w id) as [[r s]|]; [|by left].
    destruct (pty s) eqn:Hpty; [by left|].
    intros _. right. eauto.
  - intros r s Hfind Hpty Hspawn. unfold restart. rewrite Hfind, Hpty, Hspawn.
    cbn [fst snd]. split; [reflexivity|]. split.
    + cbn. apply in_or_app. left. apply in_or_app. right. by left.
    + eexists. split.
      * cbn. apply list_lookup_insert_eq.
        unfold find_session in Hfind.
        destruct (map_get id (sessions w)) as [r'|]; [|discriminate]. cbn in Hfind.
        destruct (heap w !! r') eqn:Hr; [|discriminate]. injection Hfind as <- _.
        by eapply lookup_lt_Some.
      * by repeat split.
Qed.

(** ** Worktree provisioning *)

Lemma returned_Some {A} (o : Outcome A) es a :
  returned o = Some (es, a) <-> o = (es, Some a).
Proof.
  destruct o as [es' [a'|]]; cbn; split; intros H; try discriminate.
  - by injection H as -> ->.
  - by injection H as -> ->.
Qed.

Lemma returned_None {A} (o : Outcome A) : returned o = None <-> snd o = None.
Proof. destruct o as [es [a|]]; cbn; split; auto; discriminate. Qed.

Lemma git_query_available env args dir out :
  git_query env args dir = Some out -> git_available env = true.
Proof. unfold git_query, spawnSync. destruct (git_available env); [reflexivity | discriminate]. Qed.

(** [createWorktree] throws exactly when it has found a repository and
    either must make the directory of the worktrees and [mkdirSync]
    throws, or the worktree is not there yet and one of its four calls of
    [spawnSync] throws. *)
Lemma createWorktree_throws env dir branch base :
  createWorktree env dir branch base = None <->
  exists root,
    getGitRoot env dir = Some root /\ root <> []
    /\ let wdir := path_join env [root; lit ".."; path_basename env root ++ lit "-worktrees"] in
       let verify ref := [lit "git"; lit "rev-parse"; lit "--verify"; ref] in
       (existsSync env wdir = false /\ mkdirSync_ok env wdir = false)
       \/ ((existsSync env wdir = true \/ mkdirSync_ok env wdir = true)
           /\ existsSync env (worktree_path env root branch) = false
           /\ (spawn_ok env [lit "git"; lit "fetch"; lit "origin"] root = false
               \/ spawn_ok env (verify branch) root = false
               \/ spawn_ok env (verify (lit "origin/" ++ branch)) root = false
               \/ spawn_ok env (add_command env root branch base) root = false)).
Proof.
  unfold createWorktree. rewrite returned_None. unfold createWorktree_run.
  destruct (getGitRoot env dir) as [[|c root]|] eqn:Hroot.
  - cbn. split; [discriminate|]. intros (root & [= <-] & Hne & _). congruence.
  - pose proof (git_query_available _ _ _ _ Hroot) as Hgit.
    unfold spawnSync_unguarded, spawnSync, worktree_path, add_command, worktree_path.
    rewrite Hgit.
    set (wdir := path_join env [c :: root; _; _]).
    set (path := path_join env [wdir; _]).
    assert (Hsplit : forall P : jsstring -> Prop,
              (exists r, Some (c :: root) = Some r /\ r <> [] /\ P r) <-> P (c :: root)).
    { intros P. split; [by intros (r & [= <-] & _ & H) | intros H; exists (c :: root); by repeat split]. }
    rewrite (Hsplit (fun r => _)). cbn zeta. fold wdir. fold path.
    repeat (cbn [snd negb andb];
            match goal with
            | |- context [if ?b then _ else _] =>
                lazymatch b with
                | existsSync _ _ => destruct b eqn:?
                | mkdirSync_ok _ _ => destruct b eqn:?
                | spawn_ok _ _ _ => destruct b eqn:?
                | (_ =? _) => destruct b eqn:?
                | negb ?b' => destruct b' eqn:?
                end
            end);
      cbn [snd]; (split; [intros Hx; try discriminate Hx | intros Hx; try reflexivity]).
    all: try (exfalso; intuition congruence).
    all: intuition congruence.
  - cbn. split; [discriminate|]. by intros (root & [=] & _).
Qed.

Lemma provision_throws env p :
  provision env p = None <->
  exists branch base,
    wants_worktree p branch base /\ createWorktree env (p_cwd p) branch base = None.
Proof.
  unfold provision, createWorktree. rewrite returned_None. unfold provision_run, wants_worktree.
  destruct (p_createWorktreeFlag p).
  2: { cbn. split; [discriminate|]. by intros (? & ? & ([=] & _) & _). }
  destruct (p_branchName p) as [[|b branch]|].
  1, 3: cbn; split; [discriminate|]; intros (? & ? & (_ & Hb & ? & _) & _); congruence.
  destruct (p_baseBranch p) as [[|b' base]|].
  1, 3: cbn; split; [discriminate|]; intros (? & ? & (_ & _ & _ & Hb & ?) & _); congruence.
  destruct (createWorktree_run env (p_cwd p) (b :: branch) (b' :: base)) as [es [result|]] eqn:Hrun.
  - split.
    + destruct (success result); [destruct (wt_worktreePath result) as [[|? ?]|]|]; discriminate.
    + intros (br & ba & (_ & Hbr & _ & Hba & _) & Hthrow).
      injection Hbr as <-. injection Hba as <-.
      apply returned_None in Hthrow. rewrite Hrun in Hthrow. discriminate.
  - split; [intros _|reflexivity].
    exists (b :: branch), (b' :: base). split; [by repeat split|].
    apply returned_None. by rewrite Hrun.
Qed.

Lemma provision_failure env p branch base es result :
  wants_worktree p branch base ->
  createWorktree env (p_cwd p) branch base = Some (es, result) ->
  success result = false ->
  provision env p
  = Some (es ++ do_log env true (LogProvisionFailed (wt_error result)),
          mkProvision (p_cwd p) None None).
Proof.
  intros (Hflag & Hbranch & Hb & Hbase & Hbs) Hcreate Hfail.
  apply returned_Some in Hcreate. unfold provision, provision_run.
  rewrite Hflag, Hbranch, Hbase.
  destruct branch as [|b branch]; [congruence|]. destruct base as [|b' base]; [congruence|].
  rewrite Hcreate. cbn. by rewrite Hfail.
Qed.

Lemma createSession_registers env p w es pv :
  provision env p = Some (es, pv) ->
  pty_spawns env (workingDir pv) = true ->
  let branch := if str_truthy (prov_gitBranch pv) then prov_gitBranch pv
                else getGitBranch env (workingDir pv) in
  exists r s,
    snd (createSession env p w) = Some (mkCreateResult r (workingDir pv) (or_undefined branch))
    /\ find_session (fst (createSession env p w)) (p_sessionId p) = Some (r, s)
    /\ s = new_session env p pv branch (length (ptys w))
    /\ In (EffSpawn (length (ptys w)) (workingDir pv)) (trace (fst (createSession env p w)))
    /\ forall e, In e es -> In e (trace (fst (createSession env p w))).
Proof.
  intros Hprov Hspawn. apply returned_Some in Hprov.
  unfold createSession. rewrite Hprov, Hspawn. cbn [fst snd].
  eexists (length (heap w)), _. split; [reflexivity|]. split; [|split; [reflexivity|split]].
  - unfold find_session. cbn. rewrite map_get_set_eq. cbn. by rewrite lookup_snoc.
  - cbn. apply in_or_app. left. apply in_or_app. right. by left.
  - intros e He. cbn. apply in_or_app. left. apply in_or_app. left. apply in_or_app. by right.
Qed.

(** A creation that is aborted leaves no session, no process and no
    timer behind. *)
Lemma createSession_aborted env p w :
  snd (createSession env p w) = None ->
  sessions (fst (createSession env p w)) = sessions w
  /\ heap (fst (createSession env p w)) = heap w
  /\ ptys (fst (createSession env p w)) = ptys w
  /\ intervals (fst (createSession env p w)) = intervals w
  /\ timeouts (fst (createSession env p w)) = timeouts w.
Proof.
  unfold createSession.
  destruct (provision_run env p) as [es [pv|]]; [|by intros _].
  destruct (pty_spawns env (workingDir pv)); [discriminate | by intros _].
Qed.


(** ** Restoring sessions *)

Lemma last_node_in id nodes last :
  last_node id nodes = Some last -> In last nodes /\ node_sessionId last = id.
Proof.
  induction nodes as [|node rest IH]; cbn; [discriminate|].
  destruct (last_node id rest) as [later|].
  - intros [= <-]. destruct (IH eq_refl). auto.
  - destruct (decide _); [|discriminate]. intros [= <-]. auto.
Qed.

Lemma last_node_some node nodes :
  In node nodes -> is_Some (last_node (node_sessionId node) nodes).
Proof.
  induction nodes as [|n rest IH]; cbn; [tauto|].
  intros [->|Hin].
  - destruct (last_node _ rest); [eauto|]. rewrite decide_True by reflexivity. eauto.
  - destruct (IH Hin) as [later ->]. eauto.
Qed.

Lemma last_node_unique node nodes :
  NoDup (List.map node_sessionId nodes) -> In node nodes ->
  last_node (node_sessionId node) nodes = Some node.
Proof.
  induction nodes as [|n rest IH]; cbn; [tauto|].
  intros Hnd Hin. apply NoDup_cons in Hnd as [Hnotin Hnd].
  destruct Hin as [->|Hin].
  - destruct (last_node _ rest) as [later|] eqn:Hlater.
    + apply last_node_in in Hlater as [Hin Hid]. exfalso. apply Hnotin.
      apply list_elem_of_In. rewrite <- Hid. by apply in_map.
    + by rewrite decide_True.
  - by rewrite (IH Hnd Hin).
Qed.

Lemma restore_fold env nodes w id :
  let w' := fold_left (restore_node env) nodes w in
  (forall r s, heap w !! r = Some s -> heap w' !! r = Some s)
  /\ (forall node, In node nodes -> exists r, heap w' !! r = Some (placeholder env node))
  /\ match last_node id nodes with
     | Some last =>
         exists r, map_get id (sessions w') = Some r
                   /\ heap w' !! r = Some (placeholder env last)
     | None => map_get id (sessions w') = map_get id (sessions w)
     end.
Proof.
  revert w. induction nodes as [|node rest IH]; intros w; cbn.
  - split; [auto|]. split; [tauto | reflexivity].
  - destruct (IH (restore_node env w node)) as (Hkeep & Hall & Hlast).
    assert (Hgrow : forall r s, heap w !! r = Some s ->
              heap (restore_node env w node) !! r = Some s).
    { intros r s Hr. cbn. by apply lookup_app_l_Some. }
    assert (Hnew : heap (restore_node env w node) !! length (heap w)
                   = Some (placeholder env node)) by apply lookup_snoc.
    split; [auto|]. split.
    { intros n [<-|Hin]; [eauto | by apply Hall]. }
    destruct (last_node id rest) as [later|]; [exact Hlast|].
    destruct (decide (node_sessionId node = id)) as [<-|Hne].
    + exists (length (heap w)). rewrite Hlast. cbn. split; [apply map_get_set_eq|].
      by apply Hkeep.
    + rewrite Hlast. cbn. by apply map_get_set_ne.
Qed.

(** *** What git answers *)

Lemma drop_spaces_split s :
  exists a, s = a ++ drop_spaces s /\ Forall (fun c => is_space c = true) a.
Proof.
  induction s as [|c s (a & Hs & Ha)]; cbn; [by exists []|].
  destruct (is_space c) eqn:Hc.
  - exists (c :: a). split; [cbn; by rewrite <- Hs | by constructor].
  - by exists [].
Qed.

Lemma drop_spaces_head s c rest : drop_spaces s = c :: rest -> is_space c = false.
Proof.
  induction s as [|c0 s IH]; cbn; [discriminate|].
  destruct (is_space c0) eqn:Hc0; [exact IH|]. by intros [= <- _].
Qed.

Lemma js_trim_spec s :
  (exists a z, s = a ++ js_trim s ++ z
               /\ Forall (fun c => is_space c = true) a
               /\ Forall (fun c => is_space c = true) z)
  /\ (forall c rest, js_trim s = c :: rest -> is_space c = false)
  /\ (forall front c, js_trim s = front ++ [c] -> is_space c = false).
Proof.
  unfold js_trim.
  destruct (drop_spaces_split s) as (a & Hs & Ha).
  destruct (drop_spaces_split (rev (drop_spaces s))) as (z & Hr & Hz).
  set (t := drop_spaces (rev (drop_spaces s))) in *.
  assert (Hmid : drop_spaces s = rev t ++ rev z).
  { rewrite <- rev_app_distr, <- Hr. by rewrite rev_involutive. }
  split; [|split].
  - exists a, (rev z). split; [by rewrite <- Hmid|]. split; [exact Ha|].
    by apply Forall_rev.
  - intros c rest Hrev.
    assert (Hd : drop_spaces s = c :: rest ++ rev z) by (by rewrite Hmid, Hrev).
    by eapply drop_spaces_head.
  - intros front c Hrev.
    assert (Ht : t = c :: rev front).
    { rewrite <- (rev_involutive t), Hrev, rev_app_distr. reflexivity. }
    by eapply drop_spaces_head.
Qed.

Lemma git_query_spec env args dir :
  match git_query env args dir with
  | Some out =>
      git_available env = true /\ exitCode (git env args dir) = 0
      /\ out = js_trim (stdout (git env args dir))
  | None => git_available env = false \/ exitCode (git env args dir) <> 0
  end.
Proof.
  unfold git_query, spawnSync. destruct (git_available env); [|by left].
  destruct (Z.eqb_spec (exitCode (git env args dir)) 0); [by repeat split | by right].
Qed.

Lemma js_trim_empty s : js_trim s = [] <-> Forall (fun c => is_space c = true) s.
Proof.
  destruct (js_trim_spec s) as ((a & z & Hs & Ha & Hz) & Hhead & _). split.
  - intros Hnil. rewrite Hnil in Hs. rewrite Hs. cbn. by apply Forall_app.
  - intros Hall. destruct (js_trim s) as [|c rest] eqn:Ht; [reflexivity|].
    pose proof (Hhead c rest eq_refl) as Hc.
    rewrite Hs in Hall. apply Forall_app in Hall as [_ Hall].
    apply Forall_app in Hall as [Hall _]. apply Forall_cons in Hall as [Hc' _]. congruence.
Qed.

(** The branch that a session keeps: the trimmed answer of git when git
    runs, succeeds and says more than white space, and nothing otherwise. *)
Lemma kept_branch_spec env dir :
  let answer := git env [lit "git"; lit "rev-parse"; lit "--abbrev-ref"; lit "HEAD"] dir in
  (or_undefined (getGitBranch env dir) = None <->
     git_available env = false \/ exitCode answer <> 0
     \/ Forall (fun c => is_space c = true) (stdout answer))
  /\ (forall branch,
        or_undefined (getGitBranch env dir) = Some branch ->
        branch <> []
        /\ git_available env = true /\ exitCode answer = 0
        /\ (exists a z, stdout answer = a ++ branch ++ z
                        /\ Forall (fun c => is_space c = true) a
                        /\ Forall (fun c => is_space c = true) z)
        /\ (forall c rest, branch = c :: rest -> is_space c = false)
        /\ (forall front c, branch = front ++ [c] -> is_space c = false)).
Proof.
  intros answer. unfold getGitBranch.
  pose proof (git_query_spec env [lit "git"; lit "rev-parse"; lit "--abbrev-ref"; lit "HEAD"] dir)
    as Hq. fold answer in Hq.
  destruct (git_query env _ dir) as [out|].
  - destruct Hq as (Hav & Hex & ->).
    pose proof (js_trim_empty (stdout answer)) as Hempty.
    pose proof (js_trim_spec (stdout answer)) as Hspec.
    destruct (js_trim (stdout answer)) as [|c rest] eqn:Ht; cbn [or_undefined].
    + split; [split; [intros _; right; right; by apply Hempty | reflexivity]|]. discriminate.
    + split.
      * split; [discriminate|]. intros [Hno|[Hno|Hall]]; [congruence | congruence|].
        apply Hempty in Hall. discriminate.
      * intros branch [= <-]. split; [discriminate|]. by repeat split; try apply Hspec.
  - cbn [or_undefined]. split; [split; [intros _; tauto | reflexivity]|]. discriminate.
Qed.

(** C6.  [restoreSessions] creates, for every node of the persisted
    document, the placeholder of that node: a session without a process,
    [disconnected], marked restored, with the output history that
    [loadBuffer] returns for the node's session id, and with the git
    branch asked of git for the node's working directory just now (a node
    stores no branch).  That branch is what [git rev-parse --abbrev-ref
    HEAD], run in the working directory of the node, prints, without the
    white space around it; the placeholder has no branch exactly when git
    cannot be run, the command fails there or prints white space only.
    The registry then holds, under the node's session id, the placeholder
    of the last node of the document with that id, which is the node
    itself when the session ids of the document are distinct. *)
Theorem restore_builds_placeholders env w node :
  In node (loadState env) ->
  let w' := restoreSessions env w in
  let fresh := placeholder env node in
  let answer := git env [lit "git"; lit "rev-parse"; lit "--abbrev-ref"; lit "HEAD"]
                  (node_cwd node) in
  (exists r, heap w' !! r = Some fresh)
  /\ pty fresh = None /\ status fresh = disconnected /\ isRestored fresh = true
  /\ outputBuffer fresh = loadBuffer env (node_sessionId node)
  /\ gitBranch fresh = or_undefined (getGitBranch env (node_cwd node))
  /\ (gitBranch fresh = None <->
        git_available env = false \/ exitCode answer <> 0
        \/ Forall (fun c => is_space c = true) (stdout answer))
  /\ (forall branch,
        gitBranch fresh = Some branch ->
        branch <> []
        /\ git_available env = true /\ exitCode answer = 0
        /\ (exists a z, stdout answer = a ++ branch ++ z
                        /\ Forall (fun c => is_space c = true) a
                        /\ Forall (fun c => is_space c = true) z)
        /\ (forall c rest, branch = c :: rest -> is_space c = false)
        /\ (forall front c, branch = front ++ [c] -> is_space c = false))
  /\ exists r s last,
    last_node (node_sessionId node) (loadState env) = Some last
    /\ (NoDup (List.map node_sessionId (loadState env)) -> last = node)
    /\ map_get (node_sessionId node) (sessions w') = Some r
    /\ heap w' !! r = Some s
    /\ s = placeholder env last
    /\ pty s = None
    /\ status s = disconnected
    /\ isRestored s = true
    /\ outputBuffer s = loadBuffer env (node_sessionId node)
    /\ cwd s = node_cwd last
    /\ gitBranch s = or_undefined (getGitBranch env (node_cwd last))
    /\ nodeId s = node_nodeId last /\ agentId s = node_agentId last
    /\ command s = node_command last.
Proof.
  intros Hin w' fresh answer.
  destruct (last_node_some _ _ Hin) as [last Hlast].
  destruct (last_node_in _ _ _ Hlast) as [_ Hid].
  pose proof (restore_fold env (loadState env)
                (emit (do_log env false (LogRestoreFound (length (loadState env)))) w)
                (node_sessionId node)) as (_ & Hall & H).
  split; [by apply Hall|]. do 5 (split; [reflexivity|]).
  split; [exact (proj1 (kept_branch_spec env (node_cwd node)))|].
  split; [exact (proj2 (kept_branch_spec env (node_cwd node)))|].
  rewrite Hlast in H. destruct H as (r & Hget & Hheap).
  exists r, (placeholder env last), last.
  split; [exact Hlast|]. split.
  { intros Hnd. rewrite (last_node_unique _ _ Hnd Hin) in Hlast. by injection Hlast. }
  split; [exact Hget|]. split; [exact Hheap|].
  repeat split. cbn. by rewrite Hid.
Qed.

(** ** No process, no [running] *)

(** C5.  A session without a process binding is never computed to be
    [running]: with no recent explicit signal the classifier answers
    [disconnected], whatever the timing of its output, and an explicit
    signal is the only thing that can override this.  The placeholders of
    [restoreSessions] are created [disconnected] and without a process,
    and [GET /state] resolves a persisted node that has no session entry
    to [disconnected]; with this classifier it does the same for a node
    whose session has no process. *)
Theorem no_process_means_disconnected :
  (forall th sg t s,
     pty s = None -> recent_signal th t sg = None ->
     detectStatus_spec th sg t s = disconnected
     /\ detectStatus_spec th sg t s <> running)
  /\ (forall th sg t s st,
        detectStatus_spec th sg t s = st -> st <> disconnected -> pty s = None ->
        recent_signal th t sg = Some st)
  /\ (forall env node,
        status (placeholder env node) = disconnected /\ pty (placeholder env node) = None)
  /\ (forall env w node,
        lookup_session w (node_sessionId node) = None ->
        nv_status (resolve_node env w node) = disconnected)
  /\ (forall th sg env w node s,
        detectStatus env = detectStatus_spec th sg (now env) ->
        recent_signal th (now env) sg = None ->
        lookup_session w (node_sessionId node) = Some s -> pty s = None ->
        nv_status (resolve_node env w node) = disconnected).
Proof.
  assert (H : forall th sg t s, pty s = None -> recent_signal th t sg = None ->
            detectStatus_spec th sg t s = disconnected).
  { intros th sg t s Hpty Hsig. unfold detectStatus_spec, heuristic_status.
    by rewrite Hsig, Hpty. }
  split; [|split; [|split; [|split]]].
  - intros th sg t s Hpty Hsig. rewrite (H th sg t s Hpty Hsig). split; [reflexivity | discriminate].
  - intros th sg t s st Hst Hne Hpty.
    destruct (recent_signal th t sg) as [st'|] eqn:Hsig.
    + unfold detectStatus_spec in Hst. rewrite Hsig in Hst. by rewrite Hst.
    + rewrite (H th sg t s Hpty Hsig) in Hst. congruence.
  - intros env node. split; reflexivity.
  - intros env w node Hnone. unfold resolve_node. by rewrite Hnone.
  - intros th sg env w node s Hdet Hsig Hlook Hpty. unfold resolve_node.
    rewrite Hlook. cbn. rewrite Hdet. by apply H.
Qed.

(** ** The properties at work on the sample installation *)

Lemma output_history_bounded_witness :
  Forall restores_within_bound demo_events
  /\ (length (outputBuffer (placeholder e0 node_one)) <= MAX_BUFFER_SIZE)%nat
  /\ heap_all (fun s' => (length (outputBuffer s') <= MAX_BUFFER_SIZE)%nat) demo_world
  /\ outputBuffer (feed (lit "claude") (List.map (pair e0) (numbered_chunks 1003))
                     (placeholder e0 node_one))
     = drop 3 (numbered_chunks 1003).
Proof.
  assert (H1 : Forall restores_within_bound demo_events).
  { repeat (apply List.Forall_cons;
              [intros Hev id;
               first [discriminate Hev
                     | cbn; repeat case_decide; cbn; unfold MAX_BUFFER_SIZE; lia]|]).
    apply List.Forall_nil. }
  assert (H2 : (length (outputBuffer (placeholder e0 node_one)) <= MAX_BUFFER_SIZE)%nat).
  { apply Nat.leb_le. vm_compute. reflexivity. }
  destruct (output_history_bounded demo_events (lit "claude") (placeholder e0 node_one)
              (List.map (pair e0) (numbered_chunks 1003)) H1 H2)
    as (Hworld & _ & _ & Hlong & _).
  split; [exact H1|]. split; [exact H2|]. split; [exact Hworld|].
  rewrite Hlong; [vm_compute; reflexivity|].
  apply Nat.ltb_lt. vm_compute. reflexivity.
Defined.

Lemma metrics_from_most_recent_acceptable_witness :
  candidates demo_two_tags
  = [quoted "[OPENUI:{'m':'A'}]"; quoted "[OPENUI:{'m':'B','c':2}]"; quoted "[OPENUI:{oops}]"]
  /\ acceptable (quoted "[OPENUI:{'m':'A'}]")
  /\ parseMetrics demo_two_tags = Some demo_later_metrics
  /\ (forall l, tags_in_order (normalize_ws (strip_ansi demo_two_tags)) l ->
        l = [quoted "[OPENUI:{'m':'A'}]"; quoted "[OPENUI:{'m':'B','c':2}]";
             quoted "[OPENUI:{oops}]"])
  /\ exists i cand json,
       candidates demo_two_tags !! i = Some cand
       /\ JSON_parse (payload cand) = Some json
       /\ (has_field json "m" \/ has_field json "c")
       /\ snapshot json = Some demo_later_metrics
       /\ forall j later, (i < j)%nat -> candidates demo_two_tags !! j = Some later ->
            ~ acceptable later.
Proof.
  assert (Hc : candidates demo_two_tags
               = [quoted "[OPENUI:{'m':'A'}]"; quoted "[OPENUI:{'m':'B','c':2}]";
                  quoted "[OPENUI:{oops}]"]) by (vm_compute; reflexivity).
  assert (Ha : acceptable (quoted "[OPENUI:{'m':'A'}]")).
  { eexists. split; [vm_compute; reflexivity|]. left. vm_compute. by left. }
  assert (H : parseMetrics demo_two_tags = Some demo_later_metrics) by (vm_compute; reflexivity).
  destruct (metrics_from_most_recent_acceptable demo_two_tags) as (_ & Hunique & _ & Hsome & _).
  split; [exact Hc|]. split; [exact Ha|]. split; [exact H|]. split.
  - intros l Hl. rewrite <- Hc. exact (Hunique l Hl).
  - exact (proj1 (Hsome demo_later_metrics) H).
Defined.

Lemma scan_miss_keeps_metrics_witness :
  parseMetrics (lit "compiling...") = None
  /\ metrics (fst (onData_create e0 (lit "claude") (lit "compiling...") demo_session))
     = Some demo_metrics.
Proof.
  assert (H : parseMetrics (lit "compiling...") = None) by (vm_compute; reflexivity).
  split; [exact H|].
  exact (proj1 scan_miss_keeps_metrics e0 (lit "claude") (lit "compiling...") demo_session H).
Defined.

Lemma restart_rejected_when_running_witness :
  restart e0 demo_id demo_world = (demo_world, already_running)
  /\ code already_running = 400
  /\ (lookup_session (fst (restart e0 demo_id demo_world)) demo_id ≫= pty) = Some 0%nat.
Proof.
  assert (Hfind : exists s, find_session demo_world demo_id = Some (2%nat, s)
                            /\ pty s = Some 0%nat).
  { eexists. split; vm_compute; reflexivity. }
  destruct Hfind as (s & Hfind & Hpty).
  assert (Hsome : is_Some (pty s)) by (rewrite Hpty; eauto).
  destruct (proj1 (restart_rejected_when_running e0 demo_id demo_world) 2%nat s Hfind Hsome)
    as (Hsame & Hcode & Hlook).
  split; [exact Hsame|]. split; [exact Hcode|]. rewrite Hlook. cbn. exact Hpty.
Defined.

Lemma no_process_means_disconnected_witness :
  pty (placeholder e0 node_one) = None
  /\ recent_signal demo_thresholds 50000 (Some (mkSignal running 1000)) = None
  /\ detectStatus_spec demo_thresholds (Some (mkSignal running 1000)) 50000
       (placeholder e0 node_one) = disconnected.
Proof.
  assert (H1 : pty (placeholder e0 node_one) = None) by reflexivity.
  assert (H2 : recent_signal demo_thresholds 50000 (Some (mkSignal running 1000)) = None)
    by reflexivity.
  split; [exact H1|]. split; [exact H2|].
  exact (proj1 (proj1 no_process_means_disconnected _ _ _ _ H1 H2)).
Defined.

Lemma restore_builds_placeholders_witness :
  In node_one (loadState e0)
  /\ stdout (git e0 [lit "git"; lit "rev-parse"; lit "--abbrev-ref"; lit "HEAD"]
               (node_cwd node_one)) = lit "main "
  /\ gitBranch (placeholder e0 node_one) = Some (lit "main")
  /\ (exists a z, lit "main " = a ++ lit "main" ++ z
                  /\ Forall (fun c => is_space c = true) a
                  /\ Forall (fun c => is_space c = true) z)
  /\ exitCode (git e0 [lit "git"; lit "rev-parse"; lit "--abbrev-ref"; lit "HEAD"]
                 (node_cwd node_two)) = 128
  /\ gitBranch (placeholder e0 node_two) = None
  /\ exists r s,
       map_get (node_sessionId node_one) (sessions (restoreSessions e0 empty_world)) = Some r
       /\ heap (restoreSessions e0 empty_world) !! r = Some s
       /\ pty s = None /\ status s = disconnected /\ isRestored s = true
       /\ outputBuffer s = [lit "$ claude"; lit "ready"]
       /\ gitBranch s = Some (lit "main").
Proof.
  assert (Hin : In node_one (loadState e0)) by (cbn; auto).
  assert (Hin2 : In node_two (loadState e0)) by (cbn; auto).
  assert (Hout : stdout (git e0 [lit "git"; lit "rev-parse"; lit "--abbrev-ref"; lit "HEAD"]
                           (node_cwd node_one)) = lit "main ") by (vm_compute; reflexivity).
  assert (Hbranch : gitBranch (placeholder e0 node_one) = Some (lit "main"))
    by (vm_compute; reflexivity).
  assert (Hexit : exitCode (git e0 [lit "git"; lit "rev-parse"; lit "--abbrev-ref"; lit "HEAD"]
                              (node_cwd node_two)) = 128) by (vm_compute; reflexivity).
  destruct (restore_builds_placeholders e0 empty_world node_one Hin)
    as (_ & _ & _ & _ & _ & _ & _ & Hsome & r & s & last & _ & _ & Hget & Hheap & Hlast
        & Hpty & Hst & Hres & Hbuf & _).
  destruct (Hsome (lit "main") Hbranch) as (_ & _ & _ & Hcut & _).
  destruct (restore_builds_placeholders e0 empty_world node_two Hin2)
    as (_ & _ & _ & _ & _ & _ & Hnone & _).
  split; [exact Hin|]. split; [exact Hout|]. split; [exact Hbranch|].
  split; [rewrite <- Hout; exact Hcut|]. split; [exact Hexit|].
  split; [apply Hnone; right; left; rewrite Hexit; discriminate|].
  exists r, s. split; [exact Hget|]. split; [exact Hheap|].
  split; [exact Hpty|]. split; [exact Hst|]. split; [exact Hres|].
  split; [rewrite Hbuf; vm_compute; reflexivity|].
  assert (Hl : last_node (node_sessionId node_one) (loadState e0) = Some node_one)
    by (vm_compute; reflexivity).
  destruct (restore_builds_placeholders e0 empty_world node_one Hin)
    as (_ & _ & _ & _ & _ & _ & _ & _ & r' & s' & last' & Hl' & _ & Hget' & Hheap' & Hs' & _).
  rewrite Hl in Hl'. injection Hl' as <-.
  rewrite Hget in Hget'. injection Hget' as <-. rewrite Hheap in Hheap'. injection Hheap' as <-.
  rewrite Hs'. exact Hbranch.
Defined.

Lemma status_event_only_on_change_witness :
  status (fst (onData_create e0 (lit "claude") (lit "tick") watched_session)) = running
  /\ In (EffSend 4%nat (MsgOutput (lit "tick")))
        (snd (onData_create e0 (lit "claude") (lit "tick") watched_session))
  /\ forall c msg,
       In (EffSend c msg) (snd (onData_create e0 (lit "claude") (lit "tick") watched_session)) ->
       msg = MsgOutput (lit "tick") \/ exists m, msg = MsgMetrics m.
Proof.
  assert (Hst : status (fst (onData_create e0 (lit "claude") (lit "tick") watched_session))
                = status watched_session) by (vm_compute; reflexivity).
  destruct (status_event_only_on_change e0 (lit "claude") (lit "tick") watched_session)
    as (_ & _ & Hsame & Hout & _).
  split; [exact Hst|]. split.
  - apply Hout; [cbn; auto | vm_compute; reflexivity].
  - exact (Hsame Hst).
Defined.




Lemma recent_output_never_negative_witness :
  heap_all (fun s => 0 <= recentOutputSize s) demo_world
  /\ (heap demo_world !! 2%nat ≫= fun s => Some (recentOutputSize s)) = Some 5
  /\ (heap (decay_tick 0 demo_world) !! 2%nat ≫= fun s => Some (recentOutputSize s)) = Some 0.
Proof.
  unfold demo_world.
  destruct (recent_output_never_negative demo_events) as (Hinv & _ & _ & Htick & _).
  split; [exact Hinv|]. split; [vm_compute; reflexivity|].
  assert (Hs : exists s, heap (run empty_world demo_events) !! 2%nat = Some s
                         /\ pty s = Some 0%nat /\ recentOutputSize s = 5).
  { eexists. split; [vm_compute; reflexivity|]. split; vm_compute; reflexivity. }
  destruct Hs as (s & Hs & Hpty & Hsize).
  assert (Hsome : is_Some (pty s)) by (exists 0%nat; exact Hpty).
  specialize (Htick 0%nat (mkInterval 500 demo_id 2 false) s).
  cbn [iv_session iv_cleared iv_sessionId] in Htick.
  rewrite Htick;
    [ | vm_compute; reflexivity | reflexivity | vm_compute; reflexivity
      | exact Hs | exact Hsome ].
  cbn [mbind option_bind decayed recentOutputSize set_recentOutputSize].
  rewrite Hsize. reflexivity.
Defined.

Lemma accepted_snapshot_defaults_witness :
  parseMetrics demo_text = Some demo_metrics
  /\ exists cand json,
       In cand (candidates demo_text) /\ JSON_parse (payload cand) = Some json
       /\ defaults_applied json demo_metrics /\ fields_defined demo_metrics.
Proof.
  assert (H : parseMetrics demo_text = Some demo_metrics) by (vm_compute; reflexivity).
  split; [exact H|]. exact (accepted_snapshot_defaults demo_text demo_metrics H).
Defined.

(** * Further properties of the engine *)

(** ** The registry holds each session id once *)

Lemma fst_map_set {V} k (v : V) m :
  fst <$> map_set k v m = if map_has k m then fst <$> m else (fst <$> m) ++ [k].
Proof.
  unfold map_has. induction m as [|[k' v'] m IH]; cbn; [reflexivity|].
  destruct (decide (k' = k)) as [->|Hne]; cbn; [reflexivity|].
  rewrite IH. by destruct (map_get k m).
Qed.

Lemma map_get_None {V} k (m : list (jsstring * V)) : map_get k m = None <-> k ∉ fst <$> m.
Proof.
  induction m as [|[k' v'] m IH]; cbn.
  - split; [intros _; apply not_elem_of_nil | reflexivity].
  - rewrite not_elem_of_cons. destruct (decide (k' = k)) as [->|Hne].
    + split; [discriminate | intros [[] _]; reflexivity].
    + rewrite IH. split; [intros H; split; [congruence | exact H] | tauto].
Qed.

Lemma NoDup_fst_map_set {V} k (v : V) m : NoDup (fst <$> m) -> NoDup (fst <$> map_set k v m).
Proof.
  intros Hnd. rewrite fst_map_set. unfold map_has.
  destruct (map_get k m) eqn:Hk; [exact Hnd|].
  apply NoDup_app. split; [exact Hnd|]. split; [|apply NoDup_singleton].
  intros x Hx ->%list_elem_of_singleton. by apply map_get_None in Hk.
Qed.

Lemma fst_map_delete_sub {V} k (m : list (jsstring * V)) x :
  x ∈ fst <$> map_delete k m -> x ∈ fst <$> m.
Proof.
  intros ([k0 v0] & -> & Hin%list_elem_of_In%In_map_delete%list_elem_of_In)%list_elem_of_fmap.
  apply list_elem_of_fmap. by exists (k0, v0).
Qed.

Lemma NoDup_fst_map_delete {V} k (m : list (jsstring * V)) :
  NoDup (fst <$> m) -> NoDup (fst <$> map_delete k m).
Proof.
  induction m as [|[k' v'] m IH]; cbn; intros Hnd; [exact Hnd|].
  apply NoDup_cons in Hnd as [Hk' Hnd].
  destruct (decide (k' = k)); cbn; [exact Hnd|].
  apply NoDup_cons. split; [|by apply IH].
  intros Hin. by apply Hk', fst_map_delete_sub with k.
Qed.

Lemma map_get_delete_eq {V} k (m : list (jsstring * V)) :
  NoDup (fst <$> m) -> map_get k (map_delete k m) = None.
Proof.
  induction m as [|[k' v'] m IH]; cbn; intros Hnd; [reflexivity|].
  apply NoDup_cons in Hnd as [Hk' Hnd].
  destruct (decide (k' = k)) as [->|Hne]; cbn.
  - by apply map_get_None.
  - rewrite decide_False by exact Hne. by apply IH.
Qed.

Lemma map_get_delete_ne {V} k k' (m : list (jsstring * V)) :
  k <> k' -> map_get k' (map_delete k m) = map_get k' m.
Proof.
  intros Hne. induction m as [|[k0 v0] m IH]; cbn; [reflexivity|].
  destruct (decide (k0 = k)) as [->|Hk0]; cbn.
  - by rewrite decide_False.
  - destruct (decide (k0 = k')); [reflexivity | exact IH].
Qed.

Lemma sessions_with_session r f w : sessions (with_session r f w) = sessions w.
Proof.
  unfold with_session. destruct (heap w !! r) as [s|]; [|reflexivity].
  by destruct (f s).
Qed.

Lemma sessions_restart env id w : sessions (fst (restart env id w)) = sessions w.
Proof.
  unfold restart. destruct (find_session w id) as [[r s]|]; [|reflexivity].
  destruct (pty s); [reflexivity|]. by destruct (pty_spawns env (cwd s)).
Qed.

Lemma sessions_decay_tick i w : sessions (decay_tick i w) = sessions w.
Proof.
  unfold decay_tick. destruct (intervals w !! i) as [iv|]; [|reflexivity].
  destruct (iv_cleared iv); [reflexivity|].
  destruct (heap w !! iv_session iv); [|reflexivity]. by destruct (_ || _).
Qed.

Lemma sessions_createSession env p w :
  sessions (fst (createSession env p w)) = sessions w
  \/ sessions (fst (createSession env p w))
     = map_set (p_sessionId p) (length (heap w)) (sessions w).
Proof.
  unfold createSession. destruct (provision_run env p) as [es [pv|]]; [|by left].
  destruct (pty_spawns env (workingDir pv)); [by right | by left].
Qed.

Lemma sessions_deleteSession env id w :
  sessions (fst (deleteSession env id w))
  = if map_has id (sessions w) then map_delete id (sessions w) else sessions w.
Proof.
  unfold deleteSession, map_has. destruct (map_get id (sessions w)) as [r|]; [|reflexivity].
  cbn. by destruct (heap w !! r ≫= pty).
Qed.

Lemma ids_unique_restore env nodes w :
  ids_unique w -> ids_unique (fold_left (restore_node env) nodes w).
Proof.
  revert w. induction nodes as [|node nodes IH]; intros w Hw; cbn; [exact Hw|].
  apply IH. unfold ids_unique. cbn. by apply NoDup_fst_map_set.
Qed.

Lemma ids_unique_step w ee : ids_unique w -> ids_unique (step w ee).
Proof.
  destruct ee as [env ev]. intros Hw.
  assert (Hquiet : forall w', sessions w' = sessions w -> ids_unique w')
    by (intros w' Hs; unfold ids_unique; by rewrite Hs).
  destruct ev; cbn.
  - apply ids_unique_restore. exact Hw.
  - unfold create_route.
    pose proof (sessions_createSession env (create_params env b) w) as Hs.
    destruct (createSession env (create_params env b) w) as [w' [res|]]; cbn in *;
      (destruct Hs as [Hs|Hs]; [by apply Hquiet|]);
      unfold ids_unique; cbn; rewrite Hs; by apply NoDup_fst_map_set.
  - apply Hquiet. apply (same_bindings_list_sessions env w).
  - apply Hquiet. apply (same_bindings_quiet_step w env (EvStatus id) I).
  - exact Hw.
  - apply Hquiet. apply sessions_restart.
  - apply Hquiet. apply (same_bindings_quiet_step w env (EvPatch id u) I).
  - unfold delete_route. pose proof (sessions_deleteSession env id w) as Hs.
    destruct (deleteSession env id w) as [w' [|]]; cbn in *;
      unfold ids_unique; cbn; rewrite Hs; destruct (map_has id (sessions w));
      first [exact Hw | by apply NoDup_fst_map_delete].
  - apply Hquiet. apply (same_bindings_quiet_step w env (EvPositions positions) I).
  - apply Hquiet. apply (same_bindings_quiet_step w env (EvData handle data) I).
  - apply Hquiet. apply sessions_decay_tick.
  - apply Hquiet. apply (same_bindings_quiet_step w env (EvTimeout timeout) I).
Qed.

Lemma well_formed_run events : well_formed (run empty_world events).
Proof.
  split; [apply timers_run|].
  unfold run. rewrite <- (rev_involutive events).
  induction (rev events) as [|ee l IH]; cbn; [apply NoDup_nil_2|].
  rewrite fold_left_app. cbn. by apply ids_unique_step.
Qed.

Lemma well_formed_lookup w id r :
  well_formed w -> map_get id (sessions w) = Some r -> is_Some (heap w !! r).
Proof.
  intros [[Hlt _] _] Hr%map_get_In. apply lookup_lt_is_Some.
  rewrite Forall_forall in Hlt. apply (Hlt (id, r)). by apply list_elem_of_In.
Qed.

(** ** Deleting a session *)

Lemma deleteSession_missing env id w :
  map_get id (sessions w) = None -> deleteSession env id w = (w, false).
Proof. unfold deleteSession. by intros ->. Qed.

Lemma delete_route_found env id w r :
  map_get id (sessions w) = Some r ->
  delete_route env id w
  = (emit (do_log env false (LogKilled id) ++ [EffSaveState])
       (set_sessions (map_delete id (sessions w))
          match heap w !! r ≫= pty with
          | Some h => emit [EffKill h] (set_ptys (alter kill_pty h (ptys w)) w)
          | None => w
          end), ok).
Proof.
  intros Hr. unfold delete_route, deleteSession. rewrite Hr.
  destruct (heap w !! r ≫= pty); cbn; unfold emit; cbn; by rewrite <- !app_assoc.
Qed.

Lemma delete_route_fields env id w r :
  map_get id (sessions w) = Some r ->
  let w' := fst (delete_route env id w) in
  snd (delete_route env id w) = ok
  /\ sessions w' = map_delete id (sessions w)
  /\ heap w' = heap w /\ intervals w' = intervals w /\ timeouts w' = timeouts w
  /\ metricsCache w' = metricsCache w
  /\ (forall h, heap w !! r ≫= pty = Some h ->
        ptys w' = alter kill_pty h (ptys w)
        /\ trace w' = trace w ++ [EffKill h] ++ do_log env false (LogKilled id)
                        ++ [EffSaveState])
  /\ (heap w !! r ≫= pty = None ->
        ptys w' = ptys w
        /\ trace w' = trace w ++ do_log env false (LogKilled id) ++ [EffSaveState]).
Proof.
  intros Hr w'. subst w'. rewrite (delete_route_found _ _ _ _ Hr). cbn [fst snd].
  destruct (heap w !! r ≫= pty) as [h|]; cbn.
  - repeat (split; [reflexivity|]). split; [|discriminate].
    intros h' [= <-]. split; [reflexivity|]. by rewrite <- !app_assoc.
  - repeat (split; [reflexivity|]). split; [discriminate|]. by intros _.
Qed.

(** X1.  [DELETE /sessions/:sessionId] in a world reached by running the
    engine.  An unknown id is answered with 404 and nothing changes, not
    even the saved state.  A known id is taken out of the registry and
    only that one; the process of the session, if it has one, is killed;
    the session object, the timers, the pending launches and the metrics
    cache are left as they are; the state is saved; and asking again is
    answered with 404. *)
Theorem delete_unregisters events env id :
  let w := run empty_world events in
  let w' := fst (delete_route env id w) in
  (map_get id (sessions w) = None ->
   delete_route env id w = (w, not_found) /\ code not_found = 404)
  /\ (forall r, map_get id (sessions w) = Some r ->
        snd (delete_route env id w) = ok
        /\ map_get id (sessions w') = None
        /\ lookup_session w' id = None
        /\ (forall id', id' <> id -> map_get id' (sessions w') = map_get id' (sessions w))
        /\ heap w' = heap w
        /\ intervals w' = intervals w /\ timeouts w' = timeouts w
        /\ metricsCache w' = metricsCache w
        /\ (forall h, heap w !! r ≫= pty = Some h ->
              ptys w' = alter kill_pty h (ptys w)
              /\ trace w' = trace w ++ [EffKill h] ++ do_log env false (LogKilled id)
                              ++ [EffSaveState])
        /\ (heap w !! r ≫= pty = None ->
              ptys w' = ptys w
              /\ trace w' = trace w ++ do_log env false (LogKilled id) ++ [EffSaveState])
        /\ delete_route env id w' = (w', not_found)).
Proof.
  intros w w'. pose proof (well_formed_run events) as [_ Hids]. fold w in Hids.
  split.
  - intros Hnone. unfold delete_route. by rewrite deleteSession_missing.
  - intros r Hr.
    destruct (delete_route_fields env id w r Hr) as (Hok & Hs & Hh & Hi & Ht & Hc & Hk & Hn).
    fold w' in Hs, Hh, Hi, Ht, Hc, Hk, Hn.
    assert (Hgone : map_get id (sessions w') = None)
      by (rewrite Hs; by apply map_get_delete_eq).
    split; [exact Hok|]. split; [exact Hgone|].
    split; [unfold lookup_session; by rewrite Hgone|].
    split; [intros id' Hne; rewrite Hs; by apply map_get_delete_ne|].
    repeat (split; [assumption|]).
    unfold delete_route. by rewrite deleteSession_missing.
Qed.

Lemma decay_tick_unregistered i iv w :
  intervals w !! i = Some iv ->
  map_has (iv_sessionId iv) (sessions w) = false ->
  heap (decay_tick i w) = heap w
  /\ decay_tick i (decay_tick i w) = decay_tick i w
  /\ (iv_cleared iv = false -> is_Some (heap w !! iv_session iv) ->
      intervals (decay_tick i w) !! i = Some (clear_interval iv)).
Proof.
  intros Hi Hhas.
  assert (Hcases : decay_tick i w = w
                   \/ (iv_cleared iv = false /\ is_Some (heap w !! iv_session iv)
                       /\ decay_tick i w
                          = set_intervals (<[i := clear_interval iv]> (intervals w)) w)).
  { unfold decay_tick. rewrite Hi. destruct (iv_cleared iv); [by left|].
    destruct (heap w !! iv_session iv) as [s|]; [|by left].
    rewrite Hhas. right. by eauto. }
  destruct Hcases as [Hsame|(Hc & Hs & Hclear)].
  - rewrite !Hsame. split; [reflexivity|]. split; [reflexivity|].
    intros Hc [s Hs]. exfalso. revert Hsame. unfold decay_tick.
    rewrite Hi, Hc, Hs, Hhas. cbn [negb orb]. intros Heq.
    apply (f_equal (fun w => iv_cleared <$> intervals w !! i)) in Heq. cbn in Heq.
    rewrite list_lookup_insert_eq in Heq by (by eapply lookup_lt_Some).
    rewrite Hi in Heq. cbn in Heq. congruence.
  - rewrite Hclear.
    assert (Hi' : <[i := clear_interval iv]> (intervals w) !! i = Some (clear_interval iv))
      by (apply list_lookup_insert_eq; by eapply lookup_lt_Some).
    split; [reflexivity|]. split; [|intros _ _; exact Hi'].
    unfold decay_tick. cbn [intervals set_intervals]. by rewrite Hi'.
Qed.

(** X2.  The decay timer of a deleted session.  [deleteSession] does not
    clear the timer; the timer clears itself at its next tick, because the
    session id is no longer registered, and from then on its ticks change
    nothing: the session object is never decayed again. *)
Theorem timer_stops_after_delete events env id r i iv :
  let w := run empty_world events in
  map_get id (sessions w) = Some r ->
  intervals w !! i = Some iv -> iv_sessionId iv = id ->
  let w' := fst (delete_route env id w) in
  intervals w' !! i = Some iv
  /\ heap (decay_tick i w') = heap w'
  /\ (iv_cleared iv = false -> is_Some (heap w !! iv_session iv) ->
      intervals (decay_tick i w') !! i = Some (clear_interval iv))
  /\ decay_tick i (decay_tick i w') = decay_tick i w'.
Proof.
  intros w Hr Hi Hid w'. pose proof (well_formed_run events) as [_ Hids]. fold w in Hids.
  destruct (delete_route_fields env id w r Hr) as (_ & Hs & Hheap & Hiv & _).
  fold w' in Hs, Hheap, Hiv.
  assert (Hi' : intervals w' !! i = Some iv) by (by rewrite Hiv).
  assert (Hhas : map_has (iv_sessionId iv) (sessions w') = false).
  { unfold map_has. rewrite Hid, Hs. by rewrite map_get_delete_eq. }
  destruct (decay_tick_unregistered i iv w' Hi' Hhas) as (H1 & H2 & H3).
  split; [exact Hi'|]. split; [exact H1|]. split; [|exact H2].
  intros Hc Hsome. apply H3; [exact Hc | by rewrite Hheap].
Qed.

(** ** Requests that name a session *)

Lemma find_session_registered w id :
  well_formed w -> (find_session w id = None <-> map_get id (sessions w) = None).
Proof.
  intros Hwf. unfold find_session. destruct (map_get id (sessions w)) as [r|] eqn:Hr; cbn.
  - destruct (well_formed_lookup w id r Hwf Hr) as [s ->]. cbn. split; discriminate.
  - tauto.
Qed.

(** X3.  The routes that name a session answer 404 exactly when the id is
    not registered: in a world reached by running the engine, the status,
    restart, patch and delete routes give "Session not found" if and only
    if the registry has no such id, and then none of them changes
    anything. *)
Theorem not_found_iff_unregistered events env id u :
  let w := run empty_world events in
  let unregistered := map_get id (sessions w) = None in
  (snd (get_status env id w) = not_found <-> unregistered)
  /\ (snd (restart env id w) = not_found <-> unregistered)
  /\ (snd (patch_session id u w) = not_found <-> unregistered)
  /\ (snd (delete_route env id w) = not_found <-> unregistered)
  /\ (unregistered ->
      get_status env id w = (w, not_found) /\ restart env id w = (w, not_found)
      /\ patch_session id u w = (w, not_found) /\ delete_route env id w = (w, not_found))
  /\ code not_found = 404.
Proof.
  intros w unregistered. subst unregistered.
  pose proof (find_session_registered w id (well_formed_run events)) as Hfind.
  split; [|split; [|split; [|split; [|split]]]].
  - rewrite <- Hfind. unfold get_status, not_found.
    destruct (find_session w id) as [[r s]|]; cbn; split; done.
  - rewrite <- Hfind. unfold restart, not_found, already_running, ok, uncaught.
    destruct (find_session w id) as [[r s]|]; [|by split].
    destruct (pty s); [by split|]. by destruct (pty_spawns env (cwd s)).
  - rewrite <- Hfind. unfold patch_session, not_found, ok.
    destruct (find_session w id) as [[r s]|]; by split.
  - unfold delete_route, deleteSession, not_found, ok.
    destruct (map_get id (sessions w)) as [r|]; by split.
  - intros Hnone. pose proof (proj2 Hfind Hnone) as Hf.
    unfold get_status, restart, patch_session, delete_route, deleteSession.
    by rewrite Hf, Hnone.
  - reflexivity.
Qed.

(** ** Renaming, colouring and annotating a session *)

Lemma apply_updates_fields u s :
  apply_updates u s
  = set_notes (match u_notes u with Some v => Some v | None => notes s end)
      (set_customColor (match u_customColor u with Some v => Some v | None => customColor s end)
         (set_customName (match u_customName u with Some v => Some v | None => customName s end) s)).
Proof. destruct s, u as [[?|] [?|] [?|]]; reflexivity. Qed.

Lemma apply_updates_then u1 u2 s :
  apply_updates u2 (apply_updates u1 s) = apply_updates (then_updates u1 u2) s.
Proof. destruct s, u1 as [[?|] [?|] [?|]], u2 as [[?|] [?|] [?|]]; reflexivity. Qed.

(** X4.  [PATCH /sessions/:sessionId] on a registered session.  Only the
    custom name, the custom colour and the notes can change, each only if
    the request carries it; every other field of the session and every
    other session object stay as they are.  The state is saved even when
    the request carries nothing.  Two patches in a row leave the session
    as one patch in which the later request wins field by field. *)
Theorem patch_changes_named_fields id u w r s :
  find_session w id = Some (r, s) ->
  let w' := fst (patch_session id u w) in
  let s' := apply_updates u s in
  snd (patch_session id u w) = ok
  /\ trace w' = trace w ++ [EffSaveState]
  /\ heap w' !! r = Some s' /\ find_session w' id = Some (r, s')
  /\ customName s' = match u_customName u with Some v => Some v | None => customName s end
  /\ customColor s' = match u_customColor u with Some v => Some v | None => customColor s end
  /\ notes s' = match u_notes u with Some v => Some v | None => notes s end
  /\ s' = set_notes (notes s') (set_customColor (customColor s') (set_customName (customName s') s))
  /\ (forall r', r' <> r -> heap w' !! r' = heap w !! r')
  /\ (forall u2, heap (fst (patch_session id u2 w'))
                 = heap (fst (patch_session id (then_updates u u2) w))).
Proof.
  intros Hfind w' s'. subst w' s'. unfold patch_session. rewrite Hfind. cbn [fst snd].
  pose proof Hfind as Hf. unfold find_session in Hf.
  destruct (map_get id (sessions w)) as [r0|] eqn:Hr0; [|discriminate]. cbn in Hf.
  destruct (heap w !! r0) as [s0|] eqn:Hs0; [|discriminate]. injection Hf as -> ->.
  assert (Hr : <[r := apply_updates u s]> (heap w) !! r = Some (apply_updates u s))
    by (apply list_lookup_insert_eq; by eapply lookup_lt_Some).
  split; [reflexivity|]. split; [reflexivity|]. split; [exact Hr|].
  split; [unfold find_session; cbn; by rewrite Hr0; cbn; rewrite Hr|].
  rewrite (apply_updates_fields u s) at 1 2 3. cbn.
  split; [by destruct s|]. split; [by destruct s|]. split; [by destruct s|].
  split; [rewrite apply_updates_fields; by destruct s, u as [[?|] [?|] [?|]]|].
  split; [intros r' Hne; cbn; by apply list_lookup_insert_ne|].
  intros u2. unfold find_session. cbn. rewrite Hr0. cbn. rewrite Hr. cbn.
  rewrite list_insert_insert_eq. by rewrite apply_updates_then.
Qed.

(** ** Moving nodes on the canvas *)

Lemma place_node_lookup node pos entries (h : list Session) r s :
  h !! r = Some s ->
  exists s', place_node node pos entries h !! r = Some s'
    /\ same_but_position s s'
    /\ (s' = s \/ (nodeId s = node /\ position s' = Some pos)).
Proof.
  intros Hr. induction entries as [|[id r0] entries IH]; cbn.
  - exists s. split; [exact Hr|]. split; [by destruct s | by left].
  - destruct (h !! r0) as [s0|] eqn:Hr0; [|exact IH].
    destruct (decide (nodeId s0 = node)) as [Hn|Hn]; [|exact IH].
    destruct (decide (r0 = r)) as [->|Hne].
    + assert (s0 = s) as -> by congruence.
      exists (set_position (Some pos) s).
      split; [apply list_lookup_insert_eq; by eapply lookup_lt_Some|].
      split; [by destruct s | by right].
    + exists s. split; [by rewrite list_lookup_insert_ne|].
      split; [by destruct s | by left].
Qed.

Lemma place_node_first node pos pre id r post (h : list Session) s :
  (forall id' r' s', In (id', r') pre -> h !! r' = Some s' -> nodeId s' <> node) ->
  h !! r = Some s -> nodeId s = node ->
  place_node node pos (pre ++ (id, r) :: post) h = <[r := set_position (Some pos) s]> h.
Proof.
  intros Hpre Hr Hn. induction pre as [|[id0 r0] pre IH]; cbn.
  - rewrite Hr. by rewrite decide_True.
  - destruct (h !! r0) as [s0|] eqn:Hr0.
    + rewrite decide_False by (eapply Hpre; [by left | exact Hr0]).
      apply IH. intros id' r' s' Hin. apply (Hpre id' r' s'). by right.
    + apply IH. intros id' r' s' Hin. apply (Hpre id' r' s'). by right.
Qed.

Lemma place_node_length node pos entries (h : list Session) :
  length (place_node node pos entries h) = length h.
Proof.
  induction entries as [|[id r] entries IH]; cbn; [reflexivity|].
  destruct (h !! r) as [s|]; [|exact IH].
  destruct (decide _); [by rewrite length_insert | exact IH].
Qed.

Lemma same_but_position_trans s1 s2 s3 :
  same_but_position s1 s2 -> same_but_position s2 s3 -> same_but_position s1 s3.
Proof. unfold same_but_position. intros H12 ->. rewrite H12. by destruct s1. Qed.

Lemma positions_fold positions entries (h : list Session) r s :
  h !! r = Some s ->
  exists s', fold_left (fun h np => place_node (fst np) (snd np) entries h) positions h !! r
             = Some s'
    /\ same_but_position s s'
    /\ (nodeId s ∉ placed_nodes positions -> s' = s)
    /\ (position s' = position s
        \/ exists pos, (nodeId s, pos) ∈ positions /\ position s' = Some pos).
Proof.
  revert h s. induction positions as [|[node pos] positions IH]; intros h s Hr; cbn.
  - exists s. split; [exact Hr|]. split; [by destruct s|]. split; [done | by left].
  - destruct (place_node_lookup node pos entries h r s Hr) as (s1 & Hr1 & Hsame1 & Hcase).
    destruct (IH _ _ Hr1) as (s2 & Hr2 & Hsame2 & Hkeep & Hpos).
    assert (Hnode : nodeId s1 = nodeId s) by (rewrite Hsame1; by destruct s).
    exists s2. split; [exact Hr2|].
    split; [by eapply same_but_position_trans|]. split.
    + intros Hnot. apply not_elem_of_cons in Hnot as [Hne Hnot].
      rewrite Hkeep by (by rewrite Hnode).
      destruct Hcase as [->|[Heq _]]; [reflexivity | congruence].
    + destruct Hpos as [Heq|(p & Hin & Hp)].
      * destruct Hcase as [->|[Heq' Hp]].
        -- by left.
        -- right. exists pos. split; [subst node; apply list_elem_of_here | congruence].
      * right. exists p. split; [|exact Hp]. rewrite <- Hnode. by apply list_elem_of_further.
Qed.


(** ** Restoring starts nothing *)

Lemma restore_fold_fields env nodes w :
  let w' := fold_left (restore_node env) nodes w in
  ptys w' = ptys w /\ intervals w' = intervals w /\ timeouts w' = timeouts w
  /\ metricsCache w' = metricsCache w
  /\ heap w' = heap w ++ (placeholder env <$> nodes)
  /\ exists logs, trace w' = trace w ++ logs
       /\ Forall (fun e => exists entry, e = EffLog false entry \/ e = EffConsole false entry) logs.
Proof.
  revert w. induction nodes as [|node nodes IH]; intros w; cbn.
  - repeat (split; [reflexivity|]). split; [by rewrite app_nil_r|].
    exists []. split; [by rewrite app_nil_r | constructor].
  - destruct (IH (restore_node env w node)) as (Hp & Hi & Ht & Hc & Hh & logs & Htr & Hlogs).
    cbn zeta in *. rewrite Hp, Hi, Ht, Hc, Hh, Htr.
    repeat (split; [reflexivity|]). split; [cbn; by rewrite <- app_assoc|].
    eexists. cbn. split; [by rewrite <- app_assoc|].
    apply Forall_app. split; [|exact Hlogs].
    unfold do_log. destruct (QUIET env); repeat constructor; eauto.
Qed.

Lemma restore_starts_nothing_fields env w :
  metricsCache (restoreSessions env w) = metricsCache w.
Proof.
  unfold restoreSessions.
  by destruct (restore_fold_fields env (loadState env)
                 (emit (do_log env false (LogRestoreFound (length (loadState env)))) w))
    as (_ & _ & _ & -> & _).
Qed.

(** X6.  [restoreSessions] starts nothing.  It spawns no process and sets
    no timer, touches no session object that was there, and leaves the
    metrics cache alone: it adds one placeholder per saved node to the
    store, in the order of the nodes, and writes log lines. *)
Theorem restore_starts_nothing env w :
  let w' := restoreSessions env w in
  ptys w' = ptys w /\ intervals w' = intervals w /\ timeouts w' = timeouts w
  /\ metricsCache w' = metricsCache w
  /\ heap w' = heap w ++ (placeholder env <$> loadState env)
  /\ (forall s, s ∈ placeholder env <$> loadState env -> pty s = None)
  /\ exists logs, trace w' = trace w ++ logs
       /\ Forall (fun e => exists entry, e = EffLog false entry \/ e = EffConsole false entry) logs.
Proof.
  intros w'. subst w'. unfold restoreSessions.
  destruct (restore_fold_fields env (loadState env)
              (emit (do_log env false (LogRestoreFound (length (loadState env)))) w))
    as (Hp & Hi & Ht & Hc & Hh & logs & Htr & Hlogs).
  cbn zeta in *. rewrite Hp, Hi, Ht, Hc, Hh, Htr.
  repeat (split; [reflexivity|]).
  split; [intros s (node & -> & _)%list_elem_of_fmap; reflexivity|].
  eexists. cbn. split; [by rewrite <- app_assoc|].
  apply Forall_app. split; [|exact Hlogs].
  unfold do_log. destruct (QUIET env); repeat constructor; eauto.
Qed.

(** ** The saved nodes that are alive *)

Lemma state_views env w nodes :
  List.map nv_node (List.filter nv_isAlive (List.map (resolve_node env w) nodes))
  = List.filter (fun node => bool_decide (is_Some (lookup_session w (node_sessionId node)))) nodes.
Proof.
  induction nodes as [|node nodes IH]; cbn; [reflexivity|].
  destruct (lookup_session w (node_sessionId node)) as [s|] eqn:Hs; cbn.
  - try rewrite bool_decide_true by eauto. cbn. by rewrite IH.
  - try rewrite bool_decide_false by (by intros [? ?]). exact IH.
Qed.

Lemma state_views_alive env w nodes :
  Forall (fun v => In (nv_node v) nodes /\ v = resolve_node env w (nv_node v)
                   /\ nv_isAlive v = true)
    (List.filter nv_isAlive (List.map (resolve_node env w) nodes)).
Proof.
  apply Forall_forall. intros v Hv%list_elem_of_In%filter_In. destruct Hv as [Hin Halive].
  apply in_map_iff in Hin as (node & <- & Hin). by repeat split.
Qed.

Lemma filter_all {A} (p : A -> bool) (l : list A) :
  Forall (fun x => p x = true) l -> List.filter p l = l.
Proof. induction 1 as [|x l Hx _ IH]; cbn; [reflexivity|]. by rewrite Hx, IH. Qed.

Lemma restored_lookup env w node :
  In node (loadState env) ->
  exists last,
    last_node (node_sessionId node) (loadState env) = Some last
    /\ lookup_session (restoreSessions env w) (node_sessionId node) = Some (placeholder env last).
Proof.
  intros Hin. destruct (last_node_some node _ Hin) as [last Hlast]. exists last.
  split; [exact Hlast|]. unfold restoreSessions, lookup_session.
  pose proof (restore_fold env (loadState env)
                (emit (do_log env false (LogRestoreFound (length (loadState env)))) w)
                (node_sessionId node)) as (_ & _ & H).
  rewrite Hlast in H. destruct H as (r & -> & Hr). exact Hr.
Qed.

(** X7.  [GET /state].  The answer lists the saved nodes whose session id
    is registered, in the order they are saved, each with the status that
    [detectStatus] gives for its session; the others are left out.  Right
    after [restoreSessions] every saved node is listed, alive and marked
    as restored, with the status of its placeholder. *)
Theorem state_lists_live_nodes env w :
  (exists views,
     get_state env w = mkResponse 200 (BState views)
     /\ List.map nv_node views
        = List.filter (fun node => bool_decide (is_Some (lookup_session w (node_sessionId node))))
            (loadState env)
     /\ Forall (fun v =>
          exists s, lookup_session w (node_sessionId (nv_node v)) = Some s
                    /\ nv_isAlive v = true
                    /\ nv_status v = detectStatus env s
                    /\ nv_isRestored v = Some (isRestored s)) views)
  /\ (exists views,
        get_state env (restoreSessions env w) = mkResponse 200 (BState views)
        /\ List.map nv_node views = loadState env
        /\ Forall (fun v =>
             nv_isAlive v = true /\ nv_isRestored v = Some true
             /\ exists last,
                  last_node (node_sessionId (nv_node v)) (loadState env) = Some last
                  /\ nv_status v = detectStatus env (placeholder env last)) views).
Proof.
  split.
  - eexists. split; [reflexivity|]. split; [apply state_views|].
    eapply Forall_impl; [apply state_views_alive|].
    intros v (_ & Hv & Halive). rewrite Hv in Halive |- *. cbn in *.
    destruct (lookup_session w (node_sessionId (nv_node v))) as [s|]; [|discriminate].
    exists s. by repeat split.
  - set (w' := restoreSessions env w).
    assert (Hall : Forall (fun v => nv_isAlive v = true)
                     (List.map (resolve_node env w') (loadState env))).
    { apply Forall_forall. intros v (node & <- & Hin)%list_elem_of_In%in_map_iff.
      destruct (restored_lookup env w node Hin) as (last & _ & Hs). fold w' in Hs.
      unfold resolve_node. cbn. by rewrite Hs. }
    exists (List.map (resolve_node env w') (loadState env)).
    split; [unfold get_state; by rewrite (filter_all _ _ Hall)|].
    split; [rewrite map_map; cbn; apply map_id|].
    apply Forall_forall. intros v (node & <- & Hin)%list_elem_of_In%in_map_iff.
    destruct (restored_lookup env w node Hin) as (last & Hlast & Hs). fold w' in Hs.
    unfold resolve_node. cbn. rewrite Hs. cbn. eauto.
Qed.

(** ** The metrics cache of [GET /sessions] *)

Lemma refresh_session_cache env id s cache :
  snd (refresh_session env id s cache) = cache
  \/ exists m, snd (refresh_session env id s cache) = <[id := (m, now env)]> cache.
Proof.
  unfold refresh_session. destruct (decide _); [|by left].
  destruct (match cache !! id with Some _ => _ | None => _ end); [|by left].
  destruct (scanBufferForMetrics _) as [m|]; [right; by exists m | by left].
Qed.

Lemma list_entry_cache env acc entry id :
  let acc' := list_entry env acc entry in
  (is_Some (metricsCache (fst acc) !! id) -> is_Some (metricsCache (fst acc') !! id))
  /\ (forall m t, metricsCache (fst acc') !! id = Some (m, t) ->
        metricsCache (fst acc) !! id = Some (m, t) \/ t = now env).
Proof.
  destruct acc as [w out], entry as [id0 r]. cbn.
  destruct (heap w !! r) as [s|]; [|by split; [|left]].
  pose proof (refresh_session_cache env id0 s (metricsCache w)) as Hc.
  destruct (refresh_session env id0 s (metricsCache w)) as [s' cache]. cbn in *.
  destruct Hc as [->|[m ->]]; [by split; [|left]|].
  destruct (decide (id0 = id)) as [->|Hne].
  - rewrite lookup_insert_eq. split; [eauto|]. intros m' t [= _ <-]. by right.
  - rewrite lookup_insert_ne by exact Hne. by split; [|left].
Qed.

Lemma list_fold_cache env entries acc id :
  let acc' := fold_left (list_entry env) entries acc in
  (is_Some (metricsCache (fst acc) !! id) -> is_Some (metricsCache (fst acc') !! id))
  /\ (forall m t, metricsCache (fst acc') !! id = Some (m, t) ->
        metricsCache (fst acc) !! id = Some (m, t) \/ t = now env).
Proof.
  revert acc. induction entries as [|entry entries IH]; intros acc; cbn.
  - by split; [|left].
  - destruct (IH (list_entry env acc entry)) as [H1 H2].
    destruct (list_entry_cache env acc entry id) as [H3 H4]. cbn zeta in *. split.
    + auto.
    + intros m t Hmt. destruct (H2 m t Hmt) as [Hold|Hnow]; auto.
Qed.

Lemma metricsCache_with_session r f w : metricsCache (with_session r f w) = metricsCache w.
Proof.
  unfold with_session. destruct (heap w !! r) as [s|]; [|reflexivity]. by destruct (f s).
Qed.

Lemma metricsCache_step w env ev :
  ev <> EvList -> metricsCache (step w (env, ev)) = metricsCache w.
Proof.
  intros Hev. destruct ev; cbn; try done.
  - apply restore_starts_nothing_fields.
  - unfold create_route, createSession.
    destruct (provision_run env (create_params env b)) as [es [pv|]]; [|reflexivity].
    by destruct (pty_spawns env (workingDir pv)).
  - unfold get_status. by destruct (find_session w id) as [[r s]|].
  - unfold restart. destruct (find_session w id) as [[r s]|]; [|reflexivity].
    destruct (pty s); [reflexivity|]. by destruct (pty_spawns env (cwd s)).
  - unfold patch_session. by destruct (find_session w id) as [[r s]|].
  - unfold delete_route, deleteSession.
    destruct (map_get id (sessions w)) as [r|]; [|reflexivity].
    by destruct (heap w !! r ≫= pty).
  - unfold pty_data. destruct (ptys w !! handle) as [p|]; [|reflexivity].
    destruct (pty_onData p) as [[r agent|r]|]; [| |reflexivity];
      apply metricsCache_with_session.
  - unfold decay_tick. destruct (intervals w !! interval) as [iv|]; [|reflexivity].
    destruct (iv_cleared iv); [reflexivity|].
    destruct (heap w !! iv_session iv); [|reflexivity]. by destruct (_ || _).
  - unfold fire_timeout. destruct (timeouts w !! timeout) as [t|]; [|reflexivity].
    destruct (to_fired t); [reflexivity|].
    destruct (to_task t) as [h c url id title tpl|h tpl url id title|h r]; cbn.
    + by destruct url as [[|? ?]|].
    + reflexivity.
    + by destruct (heap w !! r).
Qed.

(** X8.  The metrics cache of [GET /sessions] only grows.  No request but
    [GET /sessions] writes to it, and that one only adds or replaces
    entries, stamped with the time of the request: an entry is never
    removed, not even when its session is deleted, so an id that was once
    cached stays cached for the rest of the run. *)
Theorem metrics_cache_only_grows w :
  (forall env ev, ev <> EvList -> metricsCache (step w (env, ev)) = metricsCache w)
  /\ (forall env id m t,
        metricsCache (fst (list_sessions env w)) !! id = Some (m, t) ->
        metricsCache w !! id = Some (m, t) \/ t = now env)
  /\ (forall events id,
        is_Some (metricsCache w !! id) -> is_Some (metricsCache (run w events) !! id)).
Proof.
  split; [apply metricsCache_step|]. split.
  - intros env id m t. unfold list_sessions.
    pose proof (list_fold_cache env (sessions w) (w, []) id) as [_ H]. cbn zeta in H.
    destruct (fold_left _ _ _). exact (H m t).
  - intros events. revert w. induction events as [|[env ev] events IH]; intros w id Hid;
      [exact Hid|].
    change (is_Some (metricsCache (run (step w (env, ev)) events) !! id)). apply IH.
    assert (Hcase : ev = EvList \/ ev <> EvList) by (destruct ev; first [by left | by right]).
    destruct Hcase as [->|Hne].
    + change (step w (env, EvList)) with (fst (list_sessions env w)). unfold list_sessions.
      pose proof (list_fold_cache env (sessions w) (w, []) id) as [H _]. cbn zeta in H.
      destruct (fold_left _ _ _). by apply H.
    + by rewrite metricsCache_step.
Qed.

(** ** Listing the sessions *)

Lemma refresh_session_local env id s C C0 :
  C !! id = C0 !! id ->
  fst (refresh_session env id s C) = fst (refresh_session env id s C0)
  /\ snd (refresh_session env id s C) !! id = snd (refresh_session env id s C0) !! id.
Proof.
  intros H. unfold refresh_session. destruct (decide _); [|by split].
  rewrite H. destruct (match C0 !! id with Some _ => _ | None => _ end); [|by split].
  destruct (scanBufferForMetrics _) as [m|]; [|by split].
  cbn. by rewrite !lookup_insert_eq.
Qed.

Lemma refresh_session_others env id s C id' :
  id' <> id -> snd (refresh_session env id s C) !! id' = C !! id'.
Proof.
  intros Hne. destruct (refresh_session_cache env id s C) as [->|[m ->]]; [reflexivity|].
  by apply lookup_insert_ne.
Qed.

Lemma list_fold_spec env entries : forall w0 out0,
  NoDup (fst <$> entries) -> NoDup (snd <$> entries) ->
  Forall (fun e => is_Some (heap w0 !! snd e)) entries ->
  let acc := fold_left (list_entry env) entries (w0, out0) in
  (exists outs, snd acc = out0 ++ outs /\ fst <$> outs = fst <$> entries
     /\ forall id s', (id, s') ∈ outs ->
          exists r, (id, r) ∈ entries /\ heap (fst acc) !! r = Some s')
  /\ (forall id r, (id, r) ∈ entries ->
        exists s, heap w0 !! r = Some s
          /\ heap (fst acc) !! r = Some (fst (refresh_session env id s (metricsCache w0)))
          /\ metricsCache (fst acc) !! id
             = snd (refresh_session env id s (metricsCache w0)) !! id)
  /\ (forall r, r ∉ snd <$> entries -> heap (fst acc) !! r = heap w0 !! r)
  /\ (forall id, id ∉ fst <$> entries -> metricsCache (fst acc) !! id = metricsCache w0 !! id)
  /\ sessions (fst acc) = sessions w0 /\ trace (fst acc) = trace w0.
Proof.
  induction entries as [|[id r] rest IH]; intros w0 out0 Hids Hrefs Hvalid.
  - cbn. split; [exists []; split; [by rewrite app_nil_r|]; split; [reflexivity|]|].
    + intros ? ? H. by apply elem_of_nil in H.
    + split; [intros ? ? H; by apply elem_of_nil in H|]. by repeat split.
  - cbn [fmap list_fmap fst snd] in Hids, Hrefs.
    apply NoDup_cons in Hids as [Hid Hids]. apply NoDup_cons in Hrefs as [Href Hrefs].
    apply Forall_cons in Hvalid as [[s Hs] Hvalid]. cbn [snd] in Hs.
    cbn [fold_left list_entry]. rewrite Hs.
    destruct (refresh_session env id s (metricsCache w0)) as [sA CA] eqn:HA.
    set (wA := set_metricsCache CA (set_heap (<[r := sA]> (heap w0)) w0)).
    assert (HvalidA : Forall (fun e => is_Some (heap wA !! snd e)) rest).
    { eapply Forall_impl; [exact Hvalid|]. intros e He. cbn.
      apply lookup_lt_is_Some. rewrite length_insert. by apply lookup_lt_is_Some. }
    destruct (IH wA (out0 ++ [(id, sA)]) Hids Hrefs HvalidA)
      as ((outs & Hout & Hfst & Hlisted) & Hent & Hheap & Hcache & Hsess & Htr).
    cbn zeta in *.
    set (acc := fold_left (list_entry env) rest (wA, out0 ++ [(id, sA)])) in *.
    assert (HrA : heap (fst acc) !! r = Some sA).
    { rewrite (Hheap r Href). cbn. apply list_lookup_insert_eq. by eapply lookup_lt_Some. }
    split; [|split; [|split; [|split]]].
    + exists ((id, sA) :: outs). split; [by rewrite Hout, <- app_assoc|].
      split; [cbn; by rewrite Hfst|].
      intros id' s' [[= -> ->]|Hin]%elem_of_cons.
      * exists r. split; [apply list_elem_of_here | exact HrA].
      * destruct (Hlisted id' s' Hin) as (r' & Hin' & Hr').
        exists r'. split; [by apply list_elem_of_further | exact Hr'].
    + intros id' r' [[= -> ->]|Hin]%elem_of_cons.
      * exists s. split; [exact Hs|]. rewrite HA. cbn. split; [exact HrA|].
        by rewrite (Hcache id Hid).
      * destruct (Hent id' r' Hin) as (s2 & Hs2 & Hr2 & Hc2).
        assert (Hne_r : r' <> r).
        { intros ->. apply Href. apply list_elem_of_fmap. by exists (id', r). }
        assert (Hne_id : id' <> id).
        { intros ->. apply Hid. apply list_elem_of_fmap. by exists (id, r'). }
        cbn in Hs2. rewrite list_lookup_insert_ne in Hs2 by congruence.
        exists s2. split; [exact Hs2|].
        assert (HCA : CA !! id' = metricsCache w0 !! id').
        { replace CA with (snd (refresh_session env id s (metricsCache w0))) by (by rewrite HA).
          by apply refresh_session_others. }
        cbn in Hr2, Hc2.
        destruct (refresh_session_local env id' s2 CA (metricsCache w0) HCA) as [H1 H2].
        split; [by rewrite Hr2, H1 | by rewrite Hc2, H2].
    + intros r' [Hne Hnot]%not_elem_of_cons. rewrite (Hheap r' Hnot). cbn.
      by apply list_lookup_insert_ne.
    + intros id' [Hne Hnot]%not_elem_of_cons. rewrite (Hcache id' Hnot). cbn.
      replace CA with (snd (refresh_session env id s (metricsCache w0))) by (by rewrite HA).
      by apply refresh_session_others.
    + by rewrite Hsess, Htr.
Qed.

Lemma well_formed_entries w :
  well_formed w ->
  NoDup (fst <$> sessions w) /\ NoDup (snd <$> sessions w)
  /\ Forall (fun e => is_Some (heap w !! snd e)) (sessions w).
Proof.
  intros [[Hlt Hrefs] Hids]. split; [exact Hids|]. split; [exact Hrefs|].
  eapply Forall_impl; [exact Hlt|]. intros e He. by apply lookup_lt_is_Some.
Qed.

Lemma well_formed_lookup_session w id r :
  well_formed w -> (id, r) ∈ sessions w -> lookup_session w id = heap w !! r.
Proof.
  intros [_ Hids] Hin. unfold lookup_session.
  assert (Hget : map_get id (sessions w) = Some r); [|by rewrite Hget].
  unfold ids_unique in Hids. induction (sessions w) as [|[k v] m IH]; cbn in *.
  - by apply elem_of_nil in Hin.
  - apply NoDup_cons in Hids as [Hk Hids].
    apply elem_of_cons in Hin as [[= -> ->]|Hin]; [by rewrite decide_True|].
    rewrite decide_False; [by apply IH|].
    intros ->. apply Hk. apply list_elem_of_fmap. by exists (id, r).
Qed.

Lemma refresh_session_status env id s cache :
  status (fst (refresh_session env id s cache)) = detectStatus env s
  /\ fst (refresh_session env id s cache)
     = set_metrics (metrics (fst (refresh_session env id s cache)))
         (set_status (detectStatus env s) s).
Proof.
  unfold refresh_session. destruct (decide _); [|by destruct s].
  destruct (match cache !! id with Some _ => _ | None => _ end); [|by destruct s].
  destruct (scanBufferForMetrics _); by destruct s.
Qed.

(** X9.  [GET /sessions] in a world reached by running the engine.  The
    answer lists every registered session once, in the order in which the
    ids were registered.  Each entry shows the session as the request
    leaves it in the store: its status is what [detectStatus] gave for it,
    and nothing of it but the status and the metrics has changed.  The
    request writes no log line and changes no registration. *)
Theorem sessions_listed_in_order events env :
  let w := run empty_world events in
  let w' := fst (list_sessions env w) in
  exists out,
    snd (list_sessions env w) = mkResponse 200 (BSessions out)
    /\ fst <$> out = fst <$> sessions w
    /\ sessions w' = sessions w /\ trace w' = trace w
    /\ (forall id s', (id, s') ∈ out ->
          lookup_session w' id = Some s'
          /\ exists s, lookup_session w id = Some s
               /\ status s' = detectStatus env s
               /\ s' = set_metrics (metrics s') (set_status (detectStatus env s) s))
    /\ (forall id s, lookup_session w id = Some s -> exists s', (id, s') ∈ out).
Proof.
  intros w w'. subst w'. pose proof (well_formed_run events) as Hwf. fold w in Hwf.
  destruct (well_formed_entries w Hwf) as (Hids & Hrefs & Hvalid).
  destruct (list_fold_spec env (sessions w) w [] Hids Hrefs Hvalid)
    as ((outs & Hout & Hfst & Hlisted) & Hent & _ & _ & Hsess & Htr).
  cbn zeta in *. unfold list_sessions.
  destruct (fold_left (list_entry env) (sessions w) (w, [])) as [w1 out] eqn:Hfold.
  cbn [fst snd] in *. rewrite app_nil_l in Hout. subst out.
  assert (Hwf1 : well_formed w1).
  { destruct Hwf as [[Hlt Hnd] Hu]. split; [split|]; unfold ids_unique; rewrite ?Hsess; auto.
    apply Forall_forall. intros [id r] Hin. cbn.
    destruct (Hent id r Hin) as (? & _ & Hr & _). by eapply lookup_lt_Some. }
  exists outs. split; [reflexivity|]. split; [exact Hfst|].
  split; [exact Hsess|]. split; [exact Htr|]. split.
  - intros id s' Hin. destruct (Hlisted id s' Hin) as (r & Hr & Hs').
    assert (Hr1 : (id, r) ∈ sessions w1) by (by rewrite Hsess).
    split; [by rewrite (well_formed_lookup_session w1 id r Hwf1 Hr1)|].
    destruct (Hent id r Hr) as (s & Hs & Hs1 & _).
    exists s. split; [by rewrite (well_formed_lookup_session w id r Hwf Hr)|].
    assert (s' = fst (refresh_session env id s (metricsCache w))) as -> by congruence.
    apply refresh_session_status.
  - intros id s Hs. unfold lookup_session in Hs.
    destruct (map_get id (sessions w)) as [r|] eqn:Hr; [|discriminate].
    apply map_get_In, list_elem_of_In in Hr.
    assert (Hin : id ∈ fst <$> outs).
    { rewrite Hfst. apply list_elem_of_fmap. by exists (id, r). }
    apply list_elem_of_fmap in Hin as ([id' s'] & -> & Hin). by exists s'.
Qed.

Lemma list_sessions_entry events env id s :
  let w := run empty_world events in
  let w' := fst (list_sessions env w) in
  lookup_session w id = Some s ->
  lookup_session w' id = Some (fst (refresh_session env id s (metricsCache w)))
  /\ metricsCache w' !! id = snd (refresh_session env id s (metricsCache w)) !! id.
Proof.
  intros w w' Hs. subst w'. pose proof (well_formed_run events) as Hwf. fold w in Hwf.
  destruct (well_formed_entries w Hwf) as (Hids & Hrefs & Hvalid).
  destruct (list_fold_spec env (sessions w) w [] Hids Hrefs Hvalid)
    as (_ & Hent & _ & _ & Hsess & _).
  cbn zeta in *. unfold list_sessions.
  destruct (fold_left (list_entry env) (sessions w) (w, [])) as [w1 out]. cbn [fst snd] in *.
  unfold lookup_session in Hs |- *. rewrite Hsess.
  destruct (map_get id (sessions w)) as [r|] eqn:Hr; [|discriminate]. cbn in Hs |- *.
  apply map_get_In, list_elem_of_In in Hr.
  destruct (Hent id r Hr) as (s0 & Hs0 & Hr1 & Hc1).
  assert (s0 = s) as -> by congruence. by split.
Qed.

Lemma refresh_session_cases env id s cache :
  let s0 := set_status (detectStatus env s) s in
  let stale := match cache !! id with
               | None => true
               | Some (_, t) => METRICS_CACHE_TTL <? now env - t
               end in
  refresh_session env id s cache
  = if decide (agentId s = lit "claude") then
      if stale then
        match scanBufferForMetrics s with
        | Some m => (set_metrics (Some m) s0, <[id := (m, now env)]> cache)
        | None => (s0, cache)
        end
      else (s0, cache)
    else (s0, cache).
Proof.
  cbn zeta. unfold refresh_session.
  rewrite (scanBufferForMetrics_ext s (set_status (detectStatus env s) s)) by (by destruct s).
  assert (Ha : agentId (set_status (detectStatus env s) s) = agentId s) by (by destruct s).
  rewrite Ha. reflexivity.
Qed.

(** X10.  The metrics cache of [GET /sessions] has a time to live of two
    seconds.  For a registered Claude session in a world reached by
    running the engine: while the cached scan of the session is at most
    2000 ms old, the request does not scan the output history, so the
    stored metrics stay as they are even when the history holds a newer
    tag; once the scan is older, or when there is none, a tag found in the
    history becomes the stored metrics and is cached with the time of the
    request; a scan that finds nothing is not cached. *)
Theorem cached_metrics_expire events env id s :
  let w := run empty_world events in
  let w' := fst (list_sessions env w) in
  lookup_session w id = Some s -> agentId s = lit "claude" ->
  exists s',
    lookup_session w' id = Some s'
    /\ (forall m t, metricsCache w !! id = Some (m, t) -> now env - t <= 2000 ->
          metrics s' = metrics s /\ metricsCache w' !! id = Some (m, t))
    /\ (forall m',
          metricsCache w !! id = None
          \/ (exists m t, metricsCache w !! id = Some (m, t) /\ 2000 < now env - t) ->
          scanBufferForMetrics s = Some m' ->
          metrics s' = Some m' /\ metricsCache w' !! id = Some (m', now env))
    /\ (scanBufferForMetrics s = None ->
        metrics s' = metrics s /\ metricsCache w' !! id = metricsCache w !! id).
Proof.
  intros w w' Hs Hagent.
  destruct (list_sessions_entry events env id s Hs) as [Hs' Hc']. fold w w' in Hs', Hc'.
  exists (fst (refresh_session env id s (metricsCache w))). split; [exact Hs'|].
  rewrite Hc'. rewrite (refresh_session_cases env id s (metricsCache w)).
  rewrite decide_True by exact Hagent. unfold METRICS_CACHE_TTL.
  split; [|split].
  - intros m t Hm Hfresh. rewrite Hm.
    destruct (Z.ltb_spec 2000 (now env - t)); [lia|]. cbn. split; [by destruct s | exact Hm].
  - intros m' Hstale Hscan.
    assert (Hst : match metricsCache w !! id with
                  | Some (_, t) => 2000 <? now env - t
                  | None => true
                  end = true).
    { destruct Hstale as [->|(m & t & -> & Hlt)]; [reflexivity|]. by apply Z.ltb_lt. }
    rewrite Hst, Hscan. cbn. split; [by destruct s | by rewrite lookup_insert_eq].
  - intros Hscan. rewrite Hscan.
    destruct (match metricsCache w !! id with Some _ => _ | None => _ end);
      cbn; split; first [by destruct s | reflexivity].
Qed.

(** ** Creating a session *)

Lemma createSession_fields env p w es pv :
  provision env p = Some (es, pv) ->
  pty_spawns env (workingDir pv) = true ->
  let branch := if str_truthy (prov_gitBranch pv) then prov_gitBranch pv
                else getGitBranch env (workingDir pv) in
  let w1 := fst (createSession env p w) in
  let r := length (heap w) in
  let h := length (ptys w) in
  snd (createSession env p w) = Some (mkCreateResult r (workingDir pv) (or_undefined branch))
  /\ heap w1 = heap w ++ [new_session env p pv branch h]
  /\ sessions w1 = map_set (p_sessionId p) r (sessions w)
  /\ ptys w1 = ptys w ++ [mkPty (workingDir pv) (Some (OnDataCreate r (p_agentId p))) false]
  /\ intervals w1 = intervals w ++ [mkInterval DECAY_PERIOD (p_sessionId p) r false]
  /\ timeouts w1
     = timeouts w ++ [mkTimeout 300 (TaskLaunch h (p_command p) (p_ticketUrl p) (p_ticketId p)
                                      (p_ticketTitle p) (p_ticketPromptTemplate p)) false]
  /\ metricsCache w1 = metricsCache w
  /\ trace w1 = trace w ++ es ++ [EffSpawn h (workingDir pv)]
                  ++ do_log env false
                       (LogCreated (p_sessionId p) (p_agentName p) (or_undefined (p_ticketId p))).
Proof.
  intros Hprov Hspawn. apply returned_Some in Hprov.
  cbn zeta. unfold createSession. rewrite Hprov, Hspawn. cbn [fst snd].
  repeat (split; [reflexivity|]). cbn. by rewrite <- !app_assoc.
Qed.

Lemma createSession_failed env p w es pv :
  provision env p = Some (es, pv) ->
  pty_spawns env (workingDir pv) = false ->
  createSession env p w = (emit es w, None).
Proof.
  intros Hprov Hspawn. apply returned_Some in Hprov.
  unfold createSession. by rewrite Hprov, Hspawn.
Qed.

Lemma createSession_thrown env p w es :
  provision_run env p = (es, None) -> createSession env p w = (emit es w, None).
Proof. intros Hrun. unfold createSession. by rewrite Hrun. Qed.

Lemma do_log_no_save env err entry : ~ In EffSaveState (do_log env err entry).
Proof. intros [H|H]%in_do_log; discriminate. Qed.

(** What [createWorktree] does to the outside, also when it throws:
    it makes a directory, runs git and writes log lines. *)
Lemma createWorktree_run_effects env dir branch base e :
  In e (fst (createWorktree_run env dir branch base)) ->
  (exists path, e = EffMkdir path) \/ (exists args d, e = EffGit args d)
  \/ (exists err entry, e = EffLog err entry \/ e = EffConsole err entry).
Proof.
  unfold createWorktree_run.
  destruct (getGitRoot env dir) as [[|c root]|] eqn:Hroot; [by intros []| |by intros []].
  unfold spawnSync_unguarded, spawnSync.
  set (wdir := path_join env [c :: root; lit ".."; _]).
  repeat (cbn [fst negb andb];
          match goal with
          | |- context [if ?b then _ else _] =>
              lazymatch b with
              | existsSync _ _ => destruct b
              | mkdirSync_ok _ _ => destruct b
              | spawn_ok _ _ _ => destruct b
              | git_available _ => destruct b
              | (_ =? _) => destruct b
              | negb ?b' => destruct b'
              end
          end);
    cbn [fst]; unfold do_log; destruct (QUIET env); cbn;
    intuition (subst; eauto 10).
Qed.

Lemma provision_run_effects env p e :
  In e (fst (provision_run env p)) ->
  (exists path, e = EffMkdir path) \/ (exists args d, e = EffGit args d)
  \/ (exists err entry, e = EffLog err entry \/ e = EffConsole err entry).
Proof.
  unfold provision_run.
  destruct (p_createWorktreeFlag _); [|by intros []].
  destruct (p_branchName _) as [[|c branch]|]; [by intros []| |by intros []].
  destruct (p_baseBranch _) as [[|c' base]|]; [by intros []| |by intros []].
  pose proof (createWorktree_run_effects env (p_cwd p) (c :: branch) (c' :: base) e) as Hc.
  destruct (createWorktree_run env _ (c :: branch) (c' :: base)) as [es' [result|]];
    cbn [fst] in *; [|exact Hc].
  destruct (success result); [destruct (wt_worktreePath result) as [[|? ?]|]|];
    cbn [fst]; intros [H|H]%in_app_or;
    first [by apply Hc | apply in_do_log in H as [H|H]; right; right; eauto].
Qed.

Lemma createWorktree_run_no_save env dir branch base :
  ~ In EffSaveState (fst (createWorktree_run env dir branch base)).
Proof.
  intros [(? & H)|[(? & ? & H)|(? & ? & [H|H])]]%createWorktree_run_effects; discriminate.
Qed.

Lemma createWorktree_no_save env dir branch base es result :
  createWorktree env dir branch base = Some (es, result) -> ~ In EffSaveState es.
Proof.
  intros Hc%returned_Some. pose proof (createWorktree_run_no_save env dir branch base) as H.
  by rewrite Hc in H.
Qed.

Lemma provision_run_no_save env p : ~ In EffSaveState (fst (provision_run env p)).
Proof.
  intros [(? & H)|[(? & ? & H)|(? & ? & [H|H])]]%provision_run_effects; discriminate.
Qed.

Lemma provision_no_save env p es pv :
  provision env p = Some (es, pv) -> ~ In EffSaveState es.
Proof.
  intros Hp%returned_Some. pose proof (provision_run_no_save env p) as H.
  by rewrite Hp in H.
Qed.

Lemma provision_plain env p :
  p_createWorktreeFlag p = false -> provision env p = Some ([], mkProvision (p_cwd p) None None).
Proof. unfold provision, provision_run. by intros ->. Qed.

(** X11.  [POST /sessions].  The id of the new session is [session-],
    the clock reading, a dash and the random tag; the directory asked for
    is the one of the request, or the launch directory when the request
    gives none or an empty one.  When the request succeeds, the id of the
    answer is registered, the directory and the branch of the answer are
    those of the registered session, which is starting with a process of
    its own on the node of the request, and the state is saved last.  When
    it fails, nothing is registered, no session object is made and no
    process is left. *)
Theorem created_session_matches_answer env b w :
  let p := create_params env b in
  let w' := fst (create_route env b w) in
  let answer := snd (create_route env b w) in
  p_sessionId p = lit "session-" ++ Z_to_jsstring (now env) ++ lit "-" ++ randomTag env
  /\ (b_cwd b = None \/ b_cwd b = Some [] -> p_cwd p = LAUNCH_CWD env)
  /\ (forall d, b_cwd b = Some d -> d <> [] -> p_cwd p = d)
  /\ (code answer = 200 ->
      exists r s before,
        answer = mkResponse 200 (BCreated (p_sessionId p) (b_nodeId b) (cwd s) (gitBranch s))
        /\ find_session w' (p_sessionId p) = Some (r, s)
        /\ nodeId s = b_nodeId b /\ agentId s = b_agentId b /\ command s = b_command b
        /\ status s = starting /\ pty s = Some (length (ptys w))
        /\ outputBuffer s = [] /\ isRestored s = false
        /\ (b_createWorktree b = false -> cwd s = p_cwd p /\ worktreePath s = None)
        /\ trace w' = before ++ [EffSaveState])
  /\ (code answer <> 200 ->
      answer = uncaught /\ sessions w' = sessions w /\ heap w' = heap w /\ ptys w' = ptys w
      /\ ~ In EffSaveState (drop (length (trace w)) (trace w'))).
Proof.
  intros p w' answer. subst w' answer.
  split; [reflexivity|]. split; [by intros [H|H]; subst p; unfold create_params; rewrite H|].
  split; [intros [|c d] H Hne; [congruence|]; subst p; unfold create_params; by rewrite H|].
  unfold create_route. fold p.
  destruct (provision_run env p) as [es [pv|]] eqn:Hrun.
  2: { pose proof (provision_run_no_save env p) as Hsave. rewrite Hrun in Hsave.
       rewrite (createSession_thrown env p w es Hrun). cbn [fst snd code].
       split; [by intros [=]|]. intros _. repeat (split; [reflexivity|]).
       cbn. by rewrite drop_app_length. }
  assert (Hprov : provision env p = Some (es, pv)) by (by apply returned_Some).
  destruct (pty_spawns env (workingDir pv)) eqn:Hspawn.
  - destruct (createSession_fields env p w es pv Hprov Hspawn)
      as (Hres & Hheap & Hsess & Hptys & _ & _ & _ & Htrace).
    cbn zeta in *.
    destruct (createSession env p w) as [w1 res]. cbn [fst snd] in *. subst res.
    cbn [fst snd code]. split; [intros _|by intros []].
    exists (length (heap w)),
      (new_session env p pv
         (if str_truthy (prov_gitBranch pv) then prov_gitBranch pv
          else getGitBranch env (workingDir pv)) (length (ptys w))), (trace w1).
    split; [reflexivity|].
    split; [unfold find_session; cbn; rewrite Hsess, map_get_set_eq; cbn;
            by rewrite Hheap, lookup_snoc|].
    repeat (split; [reflexivity|]). split; [|reflexivity].
    intros Hflag. assert (b_createWorktree b = p_createWorktreeFlag p) as Hp by reflexivity.
    rewrite Hp in Hflag. rewrite (provision_plain env p Hflag) in Hprov.
    by injection Hprov as <- <-.
  - rewrite (createSession_failed env p w es pv Hprov Hspawn). cbn [fst snd code].
    split; [by intros [=]|]. intros _. repeat (split; [reflexivity|]).
    cbn. rewrite drop_app_length. by eapply provision_no_save.
Qed.

(** ** A session in its own worktree *)

Lemma provision_success env p branch base es result path :
  wants_worktree p branch base ->
  createWorktree env (p_cwd p) branch base = Some (es, result) ->
  success result = true -> wt_worktreePath result = Some path -> path <> [] ->
  provision env p
  = Some (es ++ do_log env false (LogUsingWorktree path),
          mkProvision path (Some path) (Some branch)).
Proof.
  intros (Hflag & Hbranch & Hb & Hbase & Hbs) Hcreate Hok Hpath Hne.
  apply returned_Some in Hcreate. unfold provision, provision_run.
  rewrite Hflag, Hbranch, Hbase.
  destruct branch as [|b branch]; [congruence|]. destruct base as [|b' base]; [congruence|].
  rewrite Hcreate. cbn. rewrite Hok, Hpath. by destruct path.
Qed.

(** X12.  A session created with a worktree.  When a worktree was asked
    for and [createWorktree] reports success with a path, the process is
    spawned in that path and the session is registered with the path as
    its directory and as its worktree, and with the branch asked for as
    its git branch: the branch of the directory is not read from git at
    all.  The answer of [createSession] carries the same directory and
    branch. *)
Theorem worktree_session_runs_in_worktree env p w branch base es result path :
  wants_worktree p branch base ->
  createWorktree env (p_cwd p) branch base = Some (es, result) ->
  success result = true -> wt_worktreePath result = Some path -> path <> [] ->
  pty_spawns env path = true ->
  let w' := fst (createSession env p w) in
  exists r s,
    snd (createSession env p w) = Some (mkCreateResult r path (Some branch))
    /\ find_session w' (p_sessionId p) = Some (r, s)
    /\ cwd s = path /\ worktreePath s = Some path /\ gitBranch s = Some branch
    /\ pty s = Some (length (ptys w))
    /\ ptys w' !! length (ptys w)
       = Some (mkPty path (Some (OnDataCreate r (p_agentId p))) false)
    /\ In (EffLog false (LogUsingWorktree path)) (trace w')
    /\ In (EffSpawn (length (ptys w)) path) (trace w').
Proof.
  intros Hwants Hcreate Hok Hpath Hne Hspawn w'. subst w'.
  pose proof (provision_success env p branch base es result path Hwants Hcreate Hok Hpath Hne)
    as Hprov.
  destruct Hwants as (_ & _ & Hb & _).
  destruct (createSession_fields env p w _ _ Hprov Hspawn)
    as (Hres & Hheap & Hsess & Hptys & _ & _ & _ & Htrace).
  cbn zeta in *. cbn [prov_gitBranch workingDir prov_worktreePath] in *.
  assert (Hbranch : str_truthy (Some branch) = true) by (by destruct branch).
  rewrite Hbranch in *.
  assert (Hor : or_undefined (Some branch) = Some branch) by (by destruct branch).
  rewrite Hor in Hres.
  eexists (length (heap w)), _. split; [exact Hres|].
  split; [unfold find_session; rewrite Hsess, map_get_set_eq; cbn;
          by rewrite Hheap, lookup_snoc|].
  split; [reflexivity|]. split; [reflexivity|]. split; [exact Hor|]. split; [reflexivity|].
  split; [by rewrite Hptys, lookup_snoc|]. rewrite Htrace, !in_app_iff. cbn. split; tauto.
Qed.

(** ** Launching the agent *)

Lemma fire_timeout_fired i w t :
  timeouts w !! i = Some t -> to_fired t = true -> fire_timeout i w = w.
Proof. intros Ht Hf. unfold fire_timeout. by rewrite Ht, Hf. Qed.

Lemma fire_timeout_marks i w t :
  timeouts w !! i = Some t -> to_fired t = false ->
  timeouts (fire_timeout i w) !! i = Some (fire t).
Proof.
  intros Ht Hf.
  assert (Hi : <[i := fire t]> (timeouts w) !! i = Some (fire t))
    by (apply list_lookup_insert_eq; by eapply lookup_lt_Some).
  assert (Hlt : (i < length (<[i := fire t]> (timeouts w)))%nat)
    by (rewrite length_insert; by eapply lookup_lt_Some).
  unfold fire_timeout. rewrite Ht, Hf.
  destruct (to_task t) as [h c url id title tpl|h tpl url id title|h r]; cbn.
  - destruct url as [[|? ?]|]; cbn; [exact Hi| |exact Hi].
    by rewrite lookup_app_l.
  - exact Hi.
  - destruct (heap w !! r); exact Hi.
Qed.

Lemma fire_timeout_again i w : fire_timeout i (fire_timeout i w) = fire_timeout i w.
Proof.
  destruct (timeouts w !! i) as [t|] eqn:Ht.
  - destruct (to_fired t) eqn:Hf.
    + by rewrite !(fire_timeout_fired i w t Ht Hf).
    + apply (fire_timeout_fired _ _ (fire t)); [by apply fire_timeout_marks | reflexivity].
  - assert (H : fire_timeout i w = w) by (unfold fire_timeout; by rewrite Ht). by rewrite !H.
Qed.

(** X13.  The launch of a new session.  [createSession] writes nothing to
    the pty itself: it leaves one timer of 300 ms.  When that timer fires,
    the command of the session followed by a carriage return is written
    to the pty of the session, once: firing it again changes nothing.
    With a ticket address, the firing leaves one more timer, of 2000 ms,
    which writes the ticket prompt to the same pty, once; without one,
    no further timer is left and nothing more is written. *)
Theorem launch_writes_command_once env p w es pv :
  provision env p = Some (es, pv) -> pty_spawns env (workingDir pv) = true ->
  let w1 := fst (createSession env p w) in
  let i := length (timeouts w) in
  let h := length (ptys w) in
  let w2 := fire_timeout i w1 in
  (forall hd text, ~ In (EffWrite hd text) (drop (length (trace w)) (trace w1)))
  /\ timeouts w1
     = timeouts w ++ [mkTimeout 300 (TaskLaunch h (p_command p) (p_ticketUrl p) (p_ticketId p)
                                      (p_ticketTitle p) (p_ticketPromptTemplate p)) false]
  /\ trace w2 = trace w1 ++ [EffWrite h (TextCommand (p_command p))]
  /\ written (TextCommand (p_command p)) = p_command p ++ [13%N]
  /\ fire_timeout i w2 = w2
  /\ (str_truthy (p_ticketUrl p) = false -> length (timeouts w2) = length (timeouts w1))
  /\ (forall url, p_ticketUrl p = Some url -> url <> [] ->
        let prompt := TextTicketPrompt (or_undefined (p_ticketPromptTemplate p)) url
                        (p_ticketId p) (p_ticketTitle p) in
        let w3 := fire_timeout (S i) w2 in
        timeouts w2 !! S i
        = Some (mkTimeout 2000
                  (TaskTicketPrompt h (or_undefined (p_ticketPromptTemplate p)) url
                     (p_ticketId p) (p_ticketTitle p)) false)
        /\ trace w3 = trace w2 ++ [EffWrite h prompt]
        /\ written prompt
           = ticket_prompt (p_ticketPromptTemplate p) url (p_ticketId p) (p_ticketTitle p)
               ++ [13%N]
        /\ fire_timeout (S i) w3 = w3).
Proof.
  intros Hprov Hspawn w1 i h w2.
  destruct (createSession_fields env p w es pv Hprov Hspawn)
    as (_ & _ & _ & _ & _ & Htimeouts & _ & Htrace).
  cbn zeta in *. fold w1 i h in Htimeouts, Htrace.
  assert (Hi : timeouts w1 !! i
               = Some (mkTimeout 300 (TaskLaunch h (p_command p) (p_ticketUrl p) (p_ticketId p)
                                        (p_ticketTitle p) (p_ticketPromptTemplate p)) false))
    by (rewrite Htimeouts; apply lookup_snoc).
  assert (Hlen : length (timeouts w1) = S i) by (rewrite Htimeouts, length_app; cbn; lia).
  split.
  { intros hd text. rewrite Htrace, drop_app_length, !in_app_iff.
    intros [Hin|[Hin|Hin]].
    - apply returned_Some in Hprov.
      pose proof (provision_run_effects env p (EffWrite hd text)) as Heff.
      rewrite Hprov in Heff.
      destruct (Heff Hin) as [(? & H)|[(? & ? & H)|(? & ? & [H|H])]]; discriminate.
    - by destruct Hin as [|[]].
    - apply in_do_log in Hin as [H|H]; discriminate. }
  split; [exact Htimeouts|].
  assert (Hw2 : w2 = match p_ticketUrl p with
                     | Some ((_ :: _) as u) =>
                         set_timeouts
                           (<[i := fire (mkTimeout 300 (TaskLaunch h (p_command p) (p_ticketUrl p)
                                   (p_ticketId p) (p_ticketTitle p) (p_ticketPromptTemplate p))
                                   false)]> (timeouts w1)
                            ++ [mkTimeout 2000
                                  (TaskTicketPrompt h (or_undefined (p_ticketPromptTemplate p)) u
                                     (p_ticketId p) (p_ticketTitle p)) false])
                           (emit [EffWrite h (TextCommand (p_command p))] w1)
                     | _ =>
                         emit [EffWrite h (TextCommand (p_command p))]
                           (set_timeouts
                              (<[i := fire (mkTimeout 300 (TaskLaunch h (p_command p)
                                      (p_ticketUrl p) (p_ticketId p) (p_ticketTitle p)
                                      (p_ticketPromptTemplate p)) false)]> (timeouts w1)) w1)
                     end).
  { subst w2. unfold fire_timeout. rewrite Hi. cbn.
    by destruct (p_ticketUrl p) as [[|? ?]|]. }
  split; [rewrite Hw2; by destruct (p_ticketUrl p) as [[|? ?]|]|].
  split; [reflexivity|]. split; [apply fire_timeout_again|]. split.
  - intros Hurl. rewrite Hw2.
    destruct (p_ticketUrl p) as [[|? ?]|]; [|discriminate|]; cbn; by rewrite length_insert.
  - intros url Hurl Hne. cbn zeta.
    assert (Hsi : timeouts w2 !! S i
                  = Some (mkTimeout 2000
                            (TaskTicketPrompt h (or_undefined (p_ticketPromptTemplate p)) url
                               (p_ticketId p) (p_ticketTitle p)) false)).
    { rewrite Hw2, Hurl. destruct url as [|c url]; [congruence|]. cbn.
      rewrite lookup_app_r by (rewrite length_insert; lia).
      rewrite length_insert, Hlen, Nat.sub_diag. reflexivity. }
    split; [exact Hsi|]. split; [unfold fire_timeout; by rewrite Hsi|].
    split; [|apply fire_timeout_again].
    unfold written, ticket_prompt.
    by destruct (p_ticketPromptTemplate p) as [[|? ?]|].
Qed.

(** ** A restarted session *)

Lemma restart_fields env id w r s :
  find_session w id = Some (r, s) -> pty s = None -> pty_spawns env (cwd s) = true ->
  let w1 := fst (restart env id w) in
  let h := length (ptys w) in
  let s1 := set_lastOutputTime (now env)
              (set_status starting (set_isRestored false (set_pty (Some h) s))) in
  snd (restart env id w) = ok
  /\ heap w1 = <[r := s1]> (heap w)
  /\ sessions w1 = sessions w
  /\ ptys w1 = ptys w ++ [mkPty (cwd s) (Some (OnDataRestart r)) false]
  /\ intervals w1 = intervals w ++ [mkInterval DECAY_PERIOD id r false]
  /\ timeouts w1 = timeouts w ++ [mkTimeout 300 (TaskRelaunch h r) false]
  /\ trace w1 = trace w ++ [EffSpawn h (cwd s)] ++ do_log env false (LogRestarted id).
Proof.
  intros Hfind Hpty Hspawn. cbn zeta. unfold restart. rewrite Hfind, Hpty.
  assert (Hcwd : cwd (set_lastOutputTime (now env)
                        (set_status starting
                           (set_isRestored false (set_pty (Some (length (ptys w))) s))))
                 = cwd s) by (by destruct s).
  rewrite Hspawn. cbn [fst snd]. repeat (split; [reflexivity|]). cbn.
  by rewrite <- !app_assoc.
Qed.

(** X14.  The process of a restarted session only relays.  After a
    successful restart the session has a new process, a decay timer of
    500 ms and a timer of 300 ms that writes the command the session has
    when it fires.  The handler that the restart route sets on the process
    differs from the one of [createSession]: on a chunk it appends to the
    output history and sends the [output] event to the open sockets, and
    that is all: it neither reads metrics out of the chunk nor asks for a
    new status, so the session stays [starting] under its chunks. *)
Theorem restarted_session_only_relays env id w r s :
  find_session w id = Some (r, s) -> pty s = None -> pty_spawns env (cwd s) = true ->
  let w1 := fst (restart env id w) in
  let h := length (ptys w) in
  ptys w1 !! h = Some (mkPty (cwd s) (Some (OnDataRestart r)) false)
  /\ intervals w1 = intervals w ++ [mkInterval 500 id r false]
  /\ timeouts w1 = timeouts w ++ [mkTimeout 300 (TaskRelaunch h r) false]
  /\ (exists s1, heap w1 !! r = Some s1 /\ pty s1 = Some h /\ status s1 = starting
        /\ metrics s1 = metrics s /\ outputBuffer s1 = outputBuffer s
        /\ trace (fire_timeout (length (timeouts w)) w1)
           = trace w1 ++ [EffWrite h (TextCommand (command s1))])
  /\ (forall env' data,
        exists s2, heap (pty_data env' h data w1) !! r = Some s2
          /\ status s2 = starting /\ metrics s2 = metrics s
          /\ outputBuffer s2 = push_chunk (outputBuffer s) data
          /\ recentOutputSize s2 = recentOutputSize s + js_length data
          /\ lastOutputTime s2 = now env'
          /\ trace (pty_data env' h data w1)
             = trace w1 ++ send_all env' (clients s) [MsgOutput data]).
Proof.
  intros Hfind Hpty Hspawn w1 h.
  destruct (restart_fields env id w r s Hfind Hpty Hspawn)
    as (_ & Hheap & _ & Hptys & Hint & Htime & _).
  cbn zeta in *. fold w1 h in Hheap, Hptys, Hint, Htime.
  assert (Hlt : (r < length (heap w))%nat).
  { unfold find_session in Hfind. destruct (map_get id (sessions w)) as [r0|]; [|discriminate].
    cbn in Hfind. destruct (heap w !! r0) eqn:Hr0; [|discriminate].
    injection Hfind as <- _. by eapply lookup_lt_Some. }
  set (s1 := set_lastOutputTime (now env)
               (set_status starting (set_isRestored false (set_pty (Some h) s)))) in *.
  assert (Hr : heap w1 !! r = Some s1) by (rewrite Hheap; by apply list_lookup_insert_eq).
  assert (Hh : ptys w1 !! h = Some (mkPty (cwd s) (Some (OnDataRestart r)) false))
    by (rewrite Hptys; apply lookup_snoc).
  split; [exact Hh|]. split; [exact Hint|]. split; [exact Htime|]. split.
  - exists s1. split; [exact Hr|]. repeat (split; [by destruct s|]).
    unfold fire_timeout. rewrite Htime, lookup_snoc. cbn. by rewrite Hr.
  - intros env' data. unfold pty_data. rewrite Hh. cbn. unfold with_session. rewrite Hr.
    cbn. eexists. split; [apply list_lookup_insert_eq; by rewrite Hheap, length_insert|].
    by destruct s.
Qed.

(** ** The window that is scanned for metrics *)

Lemma js_slice_from_last {A} (l : list A) (n : nat) :
  (0 < n)%nat -> js_slice_from l (- Z.of_nat n) = keep_last n l.
Proof.
  intros Hn. unfold js_slice_from, js_slice, clamp_index, keep_last.
  destruct (Z.ltb_spec (- Z.of_nat n) 0); [|lia].
  destruct (Z.ltb_spec (Z.of_nat (length l)) 0); [lia|].
  rewrite Z.min_id.
  replace (Z.to_nat (Z.max (Z.of_nat (length l) + - Z.of_nat n) 0)) with (length l - n)%nat by lia.
  apply take_ge. rewrite length_drop. lia.
Qed.

Lemma scanBufferForMetrics_window s :
  scanBufferForMetrics s
  = if decide (agentId s = lit "claude") then parseMetrics (scan_window s) else None.
Proof.
  unfold scanBufferForMetrics, scan_window. destruct (decide _); [|reflexivity].
  by rewrite (js_slice_from_last _ 5000) by lia.
Qed.

(** X15.  [scanBufferForMetrics] reads the last 5000 code units of the
    joined output history, and only for a Claude session.  For another
    agent it finds nothing, whatever the history.  For a Claude session it
    is [parseMetrics] on those last code units, so the history before them
    does not matter: two sessions with the same agent and the same last
    5000 code units give the same answer, older chunks put in front of a
    history of 5000 code units or more change nothing, and a history of at
    most 5000 code units is scanned whole. *)
Theorem scan_reads_last_5000 s :
  (agentId s <> lit "claude" -> scanBufferForMetrics s = None)
  /\ (agentId s = lit "claude" -> scanBufferForMetrics s = parseMetrics (scan_window s))
  /\ (forall s', agentId s' = agentId s -> scan_window s' = scan_window s ->
        scanBufferForMetrics s' = scanBufferForMetrics s)
  /\ (forall older,
        (5000 <= length (js_join_empty (outputBuffer s)))%nat ->
        scanBufferForMetrics (set_outputBuffer (older ++ outputBuffer s) s)
        = scanBufferForMetrics s)
  /\ ((length (js_join_empty (outputBuffer s)) <= 5000)%nat ->
      scan_window s = js_join_empty (outputBuffer s))
  /\ (length (scan_window s) <= 5000)%nat.
Proof.
  split; [|split; [|split; [|split; [|split]]]].
  - intros Hne. rewrite scanBufferForMetrics_window. by rewrite decide_False.
  - intros He. rewrite scanBufferForMetrics_window. by rewrite decide_True.
  - intros s' Ha Hw. rewrite !scanBufferForMetrics_window. by rewrite Ha, Hw.
  - intros older Hlong. rewrite !scanBufferForMetrics_window.
    assert (Ha : agentId (set_outputBuffer (older ++ outputBuffer s) s) = agentId s)
      by (by destruct s).
    rewrite Ha. destruct (decide _); [|reflexivity]. f_equal.
    unfold scan_window, js_join_empty.
    assert (Hb : outputBuffer (set_outputBuffer (older ++ outputBuffer s) s)
                 = older ++ outputBuffer s) by (by destruct s).
    rewrite Hb, concat_app. by apply keep_last_app_long.
  - intros Hshort. unfold scan_window. by apply keep_last_short.
  - unfold scan_window. rewrite length_keep_last. lia.
Qed.

(** ** What git answers *)

(** X16.  [getGitBranch] and [getGitRoot].  Each gives an answer exactly
    when git can be run and the command exits with code 0, and gives
    [null] otherwise, also when git is not installed.  The answer is the
    standard output of the command without the white space around it: it
    neither begins nor ends with white space, and what was cut off at
    either end is white space only. *)
Theorem git_answers_are_trimmed env dir :
  let branch_args := [lit "git"; lit "rev-parse"; lit "--abbrev-ref"; lit "HEAD"] in
  let root_args := [lit "git"; lit "rev-parse"; lit "--show-toplevel"] in
  let trimmed (out raw : jsstring) :=
    (exists a z, raw = a ++ out ++ z
                 /\ Forall (fun c => is_space c = true) a
                 /\ Forall (fun c => is_space c = true) z)
    /\ (forall c rest, out = c :: rest -> is_space c = false)
    /\ (forall front c, out = front ++ [c] -> is_space c = false) in
  (getGitBranch env dir = None
   <-> git_available env = false \/ exitCode (git env branch_args dir) <> 0)
  /\ (forall out, getGitBranch env dir = Some out ->
        trimmed out (stdout (git env branch_args dir)))
  /\ (getGitRoot env dir = None
      <-> git_available env = false \/ exitCode (git env root_args dir) <> 0)
  /\ (forall out, getGitRoot env dir = Some out ->
        trimmed out (stdout (git env root_args dir))).
Proof.
  cbn zeta. unfold getGitBranch, getGitRoot.
  assert (H : forall args,
            (git_query env args dir = None
             <-> git_available env = false \/ exitCode (git env args dir) <> 0)
            /\ (forall out, git_query env args dir = Some out ->
                  (exists a z, stdout (git env args dir) = a ++ out ++ z
                               /\ Forall (fun c => is_space c = true) a
                               /\ Forall (fun c => is_space c = true) z)
                  /\ (forall c rest, out = c :: rest -> is_space c = false)
                  /\ (forall front c, out = front ++ [c] -> is_space c = false))).
  { intros args. pose proof (git_query_spec env args dir) as Hq.
    destruct (git_query env args dir) as [out|].
    - destruct Hq as (Hav & Hex & ->). split.
      + split; [discriminate|]. intros [Hno|Hno]; congruence.
      + intros ? [= <-]. apply js_trim_spec.
    - split; [by split|]. discriminate. }
  split; [apply H|]. split; [apply H|]. split; apply H.
Qed.

Lemma gitBranch_onData_create env agent data s :
  gitBranch (fst (onData_create env agent data s)) = gitBranch s.
Proof.
  unfold onData_create, onData_metrics.
  destruct (decide _); [destruct (parseMetrics data)|]; by destruct s.
Qed.

Lemma or_undefined_not_empty o : or_undefined o <> Some [].
Proof. by destruct o as [[|? ?]|]. Qed.

(** X17.  The branch of a session is never the empty string.  Both
    [createSession] and [restoreSessions] store [gitBranch || undefined],
    and nothing writes the field afterwards: in every world reached by
    running the engine, every session object has either no branch or a
    branch name of at least one code unit. *)
Theorem branch_never_empty events :
  heap_all (fun s => gitBranch s <> Some []) (run empty_world events).
Proof.
  apply sound_run with (admissible := fun _ => True);
    [ intros; apply or_undefined_not_empty
    | intros; apply or_undefined_not_empty
    | intros e a d s Hs; by rewrite gitBranch_onData_create
    | intros e d s Hs; by destruct s
    | intros s Hs; by destruct s
    | intros v s Hs; by destruct s ..
    | apply Forall_forall; intros; exact I
    | constructor ].
Qed.

(** ** Worktrees *)

Lemma createWorktree_outside env dir branch base :
  getGitRoot env dir = None \/ getGitRoot env dir = Some [] ->
  createWorktree env dir branch base
  = Some ([], mkWorktreeResult false None (Some (lit "Not a git repository"))).
Proof. unfold createWorktree, createWorktree_run. by intros [-> | ->]. Qed.

(** What [createWorktree] gives inside a repository when it returns. *)
Lemma createWorktree_inside env dir branch base root es result :
  getGitRoot env dir = Some root -> root <> [] ->
  createWorktree env dir branch base = Some (es, result) ->
  let wdir := path_join env [root; lit ".."; path_basename env root ++ lit "-worktrees"] in
  let path := worktree_path env root branch in
  let add := add_command env root branch base in
  let e_mkdir := if existsSync env wdir then [] else [EffMkdir wdir] in
  let fetch := [lit "git"; lit "fetch"; lit "origin"] in
  (if existsSync env path then
     Some (e_mkdir ++ do_log env false (LogWorktreeExists path),
           mkWorktreeResult true (Some path) None)
   else
     let verify ref :=
       exitCode (git env [lit "git"; lit "rev-parse"; lit "--verify"; ref] root) in
     let entry := if verify branch =? 0 then LogWorktreeLocal branch
                  else if verify (lit "origin/" ++ branch) =? 0
                       then LogWorktreeTracking branch
                       else LogWorktreeNew branch base in
     let before := e_mkdir ++ do_log env false LogFetching ++ [EffGit fetch root]
                     ++ do_log env false entry ++ [EffGit add root] in
     if exitCode (git env add root) =? 0 then
       Some (before ++ do_log env false (LogWorktreeCreated path),
             mkWorktreeResult true (Some path) None)
     else
       Some (before ++ do_log env true (LogWorktreeAddFailed (stderr (git env add root))),
             mkWorktreeResult false None (Some (stderr (git env add root)))))
  = Some (es, result).
Proof.
  intros Hroot Hne. cbn zeta. unfold createWorktree, createWorktree_run. rewrite Hroot.
  destruct root as [|c root]; [congruence|].
  pose proof (git_query_available _ _ _ _ Hroot) as Hgit.
  unfold spawnSync_unguarded, spawnSync, worktree_path, add_command, worktree_path.
  rewrite Hgit.
  set (wdir := path_join env [c :: root; _; _]).
  repeat (cbn [returned negb andb];
          match goal with
          | |- context [if ?b then _ else _] =>
              lazymatch b with
              | existsSync _ _ => destruct b
              | mkdirSync_ok _ _ => destruct b
              | spawn_ok _ _ _ => destruct b
              | (_ =? _) => destruct b
              | negb ?b' => destruct b'
              end
          end);
    cbn [returned]; first [discriminate | by intros].
Qed.

Lemma git_commands_app es1 es2 : git_commands (es1 ++ es2) = git_commands es1 ++ git_commands es2.
Proof. unfold git_commands. apply omap_app. Qed.

Lemma git_commands_do_log env err entry : git_commands (do_log env err entry) = [].
Proof. unfold do_log. by destruct (QUIET env). Qed.

(** X18.  What [createWorktree] answers.  Its result is well formed: it
    reports success exactly when it gives a worktree path, and failure
    exactly when it gives an error text.  A path it gives lies beside the
    repository, in the directory named after the repository with
    [-worktrees] appended, under the branch name with every slash
    replaced by a dash.  Outside a git repository, or when git gives an
    empty root, it fails with [Not a git repository] and does nothing
    more: no directory is made, nothing is logged, and neither the fetch
    nor a worktree command is run. *)
Theorem worktree_result_shape env dir branch base es result :
  createWorktree env dir branch base = Some (es, result) ->
  (success result = true <-> is_Some (wt_worktreePath result))
  /\ (success result = false <-> is_Some (wt_error result))
  /\ (forall path, wt_worktreePath result = Some path ->
        exists root, getGitRoot env dir = Some root /\ root <> []
                     /\ path = worktree_path env root branch)
  /\ (getGitRoot env dir = None \/ getGitRoot env dir = Some [] ->
      es = [] /\ result = mkWorktreeResult false None (Some (lit "Not a git repository"))).
Proof.
  intros Hcreate.
  destruct (getGitRoot env dir) as [[|c root]|] eqn:Hroot.
  - rewrite createWorktree_outside in Hcreate by auto. injection Hcreate as <- <-. cbn.
    split; [split; [discriminate | by intros [? ?]]|]. split; [by split; eauto|].
    split; [discriminate | by intros _].
  - assert (Hne : c :: root <> []) by discriminate.
    apply (createWorktree_inside env dir branch base _ _ _ Hroot Hne) in Hcreate.
    cbn zeta in Hcreate.
    assert (Hshape : (success result = true <-> is_Some (wt_worktreePath result))
                     /\ (success result = false <-> is_Some (wt_error result))
                     /\ (forall path, wt_worktreePath result = Some path ->
                           path = worktree_path env (c :: root) branch)).
    { destruct (existsSync env _); [|destruct (exitCode _ =? 0)];
        injection Hcreate as _ <-; cbn;
        (split; [split; first [by eauto | discriminate | by intros [? ?]]|]);
        (split; [split; first [by eauto | discriminate | by intros [? ?]]|]);
        first [by intros ? [= <-] | discriminate]. }
    destruct Hshape as (H1 & H2 & H3). split; [exact H1|]. split; [exact H2|].
    split; [intros path Hp; exists (c :: root); by auto|].
    intros [?|?]; discriminate.
  - rewrite createWorktree_outside in Hcreate by auto. injection Hcreate as <- <-. cbn.
    split; [split; [discriminate | by intros [? ?]]|]. split; [by split; eauto|].
    split; [discriminate | by intros _].
Qed.

(** X19.  The git commands of [createWorktree] inside a repository.  When
    the worktree directory exists already it is taken as it is: neither
    the fetch nor a worktree command is run and the result is success
    with that directory.
    Otherwise exactly two commands that change the repository are run, in
    this order: [git fetch origin], then one [git worktree add].  The
    second one checks out the branch if it exists locally, else tracks the
    branch of [origin] if that exists, else makes a new branch from the
    base branch of [origin].  The result is success exactly when that
    command exits with code 0, and otherwise carries its standard error as
    the error text. *)
Theorem worktree_git_commands env dir branch base es result root :
  createWorktree env dir branch base = Some (es, result) ->
  getGitRoot env dir = Some root -> root <> [] ->
  let path := worktree_path env root branch in
  let add := add_command env root branch base in
  let verify ref := exitCode (git env [lit "git"; lit "rev-parse"; lit "--verify"; ref] root) in
  (existsSync env path = true ->
   git_commands es = [] /\ result = mkWorktreeResult true (Some path) None)
  /\ (existsSync env path = false ->
      git_commands es = [([lit "git"; lit "fetch"; lit "origin"], root); (add, root)]
      /\ success result = (exitCode (git env add root) =? 0)
      /\ (success result = true -> wt_worktreePath result = Some path)
      /\ (success result = false -> wt_error result = Some (stderr (git env add root))))
  /\ (verify branch = 0 -> add = [lit "git"; lit "worktree"; lit "add"; path; branch])
  /\ (verify branch <> 0 -> verify (lit "origin/" ++ branch) = 0 ->
      add = [lit "git"; lit "worktree"; lit "add"; lit "--track"; lit "-b"; branch; path;
             lit "origin/" ++ branch])
  /\ (verify branch <> 0 -> verify (lit "origin/" ++ branch) <> 0 ->
      add = [lit "git"; lit "worktree"; lit "add"; lit "-b"; branch; path;
             lit "origin/" ++ base]).
Proof.
  intros Hcreate Hroot Hne path add verify.
  apply (createWorktree_inside env dir branch base root _ _ Hroot Hne) in Hcreate.
  cbn zeta in Hcreate. fold path add in Hcreate.
  split; [|split; [|split; [|split]]].
  - intros Hex. rewrite Hex in Hcreate. injection Hcreate as <- <-.
    split; [|reflexivity]. rewrite git_commands_app, git_commands_do_log, app_nil_r.
    by destruct (existsSync env (path_join env [root; _; _])).
  - intros Hex. rewrite Hex in Hcreate.
    assert (Hcmds : forall entry tail,
              git_commands tail = [] ->
              git_commands
                ((((if existsSync env
                         (path_join env [root; lit ".."; path_basename env root ++ lit "-worktrees"])
                    then []
                    else [EffMkdir
                            (path_join env
                               [root; lit ".."; path_basename env root ++ lit "-worktrees"])])
                   ++ do_log env false LogFetching
                   ++ [EffGit [lit "git"; lit "fetch"; lit "origin"] root]
                   ++ do_log env false entry ++ [EffGit add root]))
                 ++ tail)
              = [([lit "git"; lit "fetch"; lit "origin"], root); (add, root)]).
    { intros entry tail Htail. rewrite !git_commands_app, !git_commands_do_log, Htail.
      by destruct (existsSync env (path_join env [root; _; _])). }
    destruct (exitCode (git env add root) =? 0); injection Hcreate as <- <-;
      (split; [apply Hcmds, git_commands_do_log|]); cbn; by repeat split.
  - intros Hlocal. subst add verify path. cbv beta in *. unfold add_command.
    by rewrite Hlocal.
  - intros Hlocal Hremote. subst add verify path. cbv beta in *. unfold add_command.
    destruct (Z.eqb_spec (exitCode (git env [lit "git"; lit "rev-parse"; lit "--verify"; branch]
                                      root)) 0); [congruence|].
    by rewrite Hremote.
  - intros Hlocal Hremote. subst add verify path. cbv beta in *. unfold add_command.
    destruct (Z.eqb_spec (exitCode (git env [lit "git"; lit "rev-parse"; lit "--verify"; branch]
                                      root)) 0); [congruence|].
    by destruct (Z.eqb_spec (exitCode (git env [lit "git"; lit "rev-parse"; lit "--verify";
                                                    lit "origin/" ++ branch] root)) 0).
Qed.

Lemma sanitize_branch_idem branch : sanitize_branch (sanitize_branch branch) = sanitize_branch branch.
Proof.
  unfold sanitize_branch. rewrite map_map. apply map_ext. intros c.
  destruct (N.eqb_spec c 47); [reflexivity|]. by destruct (N.eqb_spec c 47).
Qed.

(** X20.  The directory of a worktree is named after the branch with
    every slash replaced by a dash.  The name has the length of the branch
    name and holds no slash, so it is one path component; a branch name
    without slash is its own directory name.  The replacement is not
    one-to-one: a branch and the branch named like it with dashes for
    slashes get the same directory. *)
Theorem worktree_directory_name env root branch :
  length (sanitize_branch branch) = length branch
  /\ (47%N ∉ sanitize_branch branch)
  /\ ((47%N ∉ branch) -> sanitize_branch branch = branch)
  /\ sanitize_branch (sanitize_branch branch) = sanitize_branch branch
  /\ worktree_path env root (sanitize_branch branch) = worktree_path env root branch.
Proof.
  split; [apply length_map|]. split; [|split; [|split]].
  - unfold sanitize_branch. intros Hin%list_elem_of_In%in_map_iff.
    destruct Hin as (c & Hc & _). by destruct (N.eqb_spec c 47).
  - unfold sanitize_branch. induction branch as [|c branch IH]; [reflexivity|].
    intros [Hne Hnot]%not_elem_of_cons. cbn. rewrite IH by exact Hnot.
    by destruct (N.eqb_spec c 47).
  - apply sanitize_branch_idem.
  - unfold worktree_path. by rewrite sanitize_branch_idem.
Qed.

(** ** The ticket prompt *)

Lemma get_substitution_plain matched before after repl :
  (36%N ∉ repl) -> get_substitution matched before after repl = repl.
Proof.
  induction repl as [|c r IH]; [reflexivity|].
  intros [Hc Hr]%not_elem_of_cons. cbn [get_substitution].
  destruct (N.eqb_spec c 36); [congruence|]. by rewrite IH.
Qed.

Lemma replace_from_skip pat repl x : forall before l,
  replace_from pat repl before (length x) (x ++ l) = replace_from pat repl (before ++ x) 0 l.
Proof.
  induction x as [|c x IH]; intros before l.
  - cbn [length app]. rewrite app_nil_r. by destruct l.
  - cbn [length app replace_from]. rewrite IH. by rewrite <- app_assoc.
Qed.

Lemma replace_from_passes p0 pat repl a : forall before l,
  (p0 ∉ a) ->
  replace_from (p0 :: pat) repl before 0 (a ++ l)
  = a ++ replace_from (p0 :: pat) repl (before ++ a) 0 l.
Proof.
  induction a as [|c a IH]; intros before l Ha.
  - cbn [app]. by rewrite app_nil_r.
  - apply not_elem_of_cons in Ha as [Hc Ha]. cbn [app replace_from strip_prefix].
    destruct (N.eqb_spec p0 c); [congruence|].
    rewrite IH by exact Ha. by rewrite <- app_assoc.
Qed.

Lemma replace_from_plain p0 pat repl before l :
  (p0 ∉ l) -> replace_from (p0 :: pat) repl before 0 l = l.
Proof.
  intros Hl. rewrite <- (app_nil_r l) at 1. rewrite replace_from_passes by exact Hl.
  cbn. by rewrite app_nil_r.
Qed.

Lemma replace_from_match p0 pat repl before l :
  replace_from (p0 :: pat) repl before 0 ((p0 :: pat) ++ l)
  = get_substitution (p0 :: pat) before l repl
      ++ replace_from (p0 :: pat) repl (before ++ p0 :: pat) 0 l.
Proof.
  cbn [app]. cbn [replace_from].
  change (p0 :: pat ++ l) with ((p0 :: pat) ++ l). rewrite strip_prefix_app.
  replace (length (p0 :: pat) - 1)%nat with (length pat) by (cbn [length]; lia).
  rewrite replace_from_skip. by rewrite <- app_assoc.
Qed.

Lemma replace_from_join p0 pat repl segments : forall before,
  Forall (fun seg => p0 ∉ seg) segments -> (36%N ∉ repl) ->
  replace_from (p0 :: pat) repl before 0 (join_with (p0 :: pat) segments)
  = join_with repl segments.
Proof.
  induction segments as [|seg rest IH]; intros before Hsegs Hrepl; [reflexivity|].
  apply Forall_cons in Hsegs as [Hseg Hrest].
  destruct rest as [|seg' rest].
  - cbn [join_with]. by apply replace_from_plain.
  - change (join_with (p0 :: pat) (seg :: seg' :: rest))
      with (seg ++ (p0 :: pat) ++ join_with (p0 :: pat) (seg' :: rest)).
    change (join_with repl (seg :: seg' :: rest))
      with (seg ++ repl ++ join_with repl (seg' :: rest)).
    rewrite replace_from_passes by exact Hseg. rewrite replace_from_match.
    rewrite get_substitution_plain by exact Hrepl. by rewrite IH.
Qed.

Lemma join_with_free c sep segments :
  (c ∉ sep) -> Forall (fun seg => c ∉ seg) segments -> c ∉ join_with sep segments.
Proof.
  intros Hsep. induction 1 as [|seg rest Hseg Hrest IH]; [apply not_elem_of_nil|].
  destruct rest as [|seg' rest]; [exact Hseg|].
  change (join_with sep (seg :: seg' :: rest)) with (seg ++ sep ++ join_with sep (seg' :: rest)).
  rewrite !not_elem_of_app. auto.
Qed.

Lemma default_template_segments :
  DEFAULT_TICKET_TEMPLATE
  = join_with (lit "{{url}}")
      [lit "Here is the ticket for this session: ";
       [10%N; 10%N] ++ lit "Please use the Linear MCP tool or fetch the URL to read the full ticket details before starting work."].
Proof. vm_compute. reflexivity. Qed.

(** X21.  The ticket prompt.  For a template made of text without braces
    around the placeholder of the ticket address, and an address without
    dollar sign or brace, the prompt written to the agent is the template
    with the address put in at every placeholder, the text being left as
    it is.  The default template, used when none or an empty one is
    configured, gives the sentence of the default with the address in it.
    A template without any brace is written as it is. *)
Theorem ticket_prompt_fills_in_address url id title :
  (36%N ∉ url) -> (123%N ∉ url) ->
  (forall template segments,
     template = join_with (lit "{{url}}") segments -> template <> [] ->
     Forall (fun seg => 123%N ∉ seg) segments ->
     ticket_prompt (Some template) url id title = join_with url segments)
  /\ (forall template,
        template = None \/ template = Some [] ->
        ticket_prompt template url id title
        = lit "Here is the ticket for this session: " ++ url ++ [10%N; 10%N]
            ++ lit "Please use the Linear MCP tool or fetch the URL to read the full ticket details before starting work.")
  /\ (forall template,
        template <> [] -> (123%N ∉ template) ->
        ticket_prompt (Some template) url id title = template).
Proof.
  intros Hdollar Hbrace.
  assert (Hjoin : forall segments,
            Forall (fun seg => 123%N ∉ seg) segments ->
            replace_all (lit "{{title}}") (default [] title)
              (replace_all (lit "{{id}}") (default [] id)
                 (replace_all (lit "{{url}}") url (join_with (lit "{{url}}") segments)))
            = join_with url segments).
  { intros segments Hsegs. unfold replace_all.
    change (lit "{{url}}") with (123%N :: lit "{url}}").
    change (lit "{{id}}") with (123%N :: lit "{id}}").
    change (lit "{{title}}") with (123%N :: lit "{title}}").
    rewrite replace_from_join by assumption.
    assert (Hfree : 123%N ∉ join_with url segments) by (by apply join_with_free).
    rewrite (replace_from_plain _ _ _ _ _ Hfree). by rewrite (replace_from_plain _ _ _ _ _ Hfree). }
  split; [|split].
  - intros template segments -> Hne Hsegs. unfold ticket_prompt.
    destruct (join_with (lit "{{url}}") segments) as [|c t] eqn:Ht; [congruence|].
    rewrite <- Ht. by apply Hjoin.
  - intros template Htemplate.
    assert (Hdefault : ticket_prompt template url id title
                       = replace_all (lit "{{title}}") (default [] title)
                           (replace_all (lit "{{id}}") (default [] id)
                              (replace_all (lit "{{url}}") url DEFAULT_TICKET_TEMPLATE)))
      by (by destruct Htemplate as [-> | ->]).
    rewrite Hdefault, default_template_segments, Hjoin; [reflexivity|].
    repeat (apply Forall_cons_2; [by apply (bool_decide_unpack _); vm_compute|]).
    apply Forall_nil_2.
  - intros template Hne Hfree.
    assert (Hone : Forall (fun seg : jsstring => 123%N ∉ seg) [template])
      by (apply Forall_cons_2; [exact Hfree | apply Forall_nil_2]).
    specialize (Hjoin [template] Hone).
    cbn [join_with] in Hjoin. unfold ticket_prompt. by destruct template.
Qed.

Lemma replace_from_no_match pat repl x :
  (forall n l, (n < length x)%nat -> strip_prefix pat (drop n x ++ l) = None) ->
  forall before l,
    replace_from pat repl before 0 (x ++ l) = x ++ replace_from pat repl (before ++ x) 0 l.
Proof.
  induction x as [|c x IH]; intros Hx before l.
  - cbn [app]. by rewrite app_nil_r.
  - cbn [app replace_from]. change (c :: x ++ l) with (drop 0 (c :: x) ++ l).
    rewrite Hx by (cbn; lia). rewrite IH; [by rewrite <- app_assoc|].
    intros n l' Hn. apply (Hx (S n) l'). cbn. lia.
Qed.

Lemma replace_from_other p0 pat repl placeholder segments :
  (forall n l, (n < length placeholder)%nat ->
     strip_prefix (p0 :: pat) (drop n placeholder ++ l) = None) ->
  Forall (fun seg => p0 ∉ seg) segments ->
  forall before,
    replace_from (p0 :: pat) repl before 0 (join_with placeholder segments)
    = join_with placeholder segments.
Proof.
  intros Hph. induction 1 as [|seg rest Hseg Hrest IH]; intros before; [reflexivity|].
  destruct rest as [|seg' rest].
  - cbn [join_with]. by apply replace_from_plain.
  - change (join_with placeholder (seg :: seg' :: rest))
      with (seg ++ placeholder ++ join_with placeholder (seg' :: rest)).
    rewrite replace_from_passes by exact Hseg.
    rewrite replace_from_no_match by exact Hph. by rewrite IH.
Qed.

(** X22.  The ticket id and title in the prompt.  In a template made of
    text without braces around the placeholder of the ticket id, every
    placeholder is replaced by the id, and by nothing when the ticket has
    no id; the same holds of the placeholder of the title.  The id is to
    hold no dollar sign and no brace, the title no dollar sign. *)
Theorem ticket_prompt_fills_in_id_and_title url id title segments :
  Forall (fun seg => 123%N ∉ seg) segments ->
  ((36%N ∉ default [] id) -> (123%N ∉ default [] id) ->
   join_with (lit "{{id}}") segments <> [] ->
   ticket_prompt (Some (join_with (lit "{{id}}") segments)) url id title
   = join_with (default [] id) segments)
  /\ ((36%N ∉ default [] title) ->
      join_with (lit "{{title}}") segments <> [] ->
      ticket_prompt (Some (join_with (lit "{{title}}") segments)) url id title
      = join_with (default [] title) segments)
  /\ join_with [] segments = concat segments.
Proof.
  intros Hsegs.
  assert (Hurl_id : forall n l, (n < length (lit "{{id}}"))%nat ->
            strip_prefix (lit "{{url}}") (drop n (lit "{{id}}") ++ l) = None).
  { intros n l Hn. do 6 (destruct n as [|n]; [reflexivity|]).
    change (length (lit "{{id}}")) with 6%nat in Hn. lia. }
  assert (Hurl_title : forall n l, (n < length (lit "{{title}}"))%nat ->
            strip_prefix (lit "{{url}}") (drop n (lit "{{title}}") ++ l) = None).
  { intros n l Hn. do 9 (destruct n as [|n]; [reflexivity|]).
    change (length (lit "{{title}}")) with 9%nat in Hn. lia. }
  assert (Hid_title : forall n l, (n < length (lit "{{title}}"))%nat ->
            strip_prefix (lit "{{id}}") (drop n (lit "{{title}}") ++ l) = None).
  { intros n l Hn. do 9 (destruct n as [|n]; [reflexivity|]).
    change (length (lit "{{title}}")) with 9%nat in Hn. lia. }
  split; [|split].
  - intros Hdollar Hbrace Hne. unfold ticket_prompt.
    destruct (join_with (lit "{{id}}") segments) as [|c t] eqn:Ht; [congruence|].
    rewrite <- Ht. unfold replace_all.
    change (lit "{{url}}") with (123%N :: lit "{url}}") in *.
    rewrite (replace_from_other _ _ _ _ _ Hurl_id Hsegs).
    change (lit "{{id}}") with (123%N :: lit "{id}}").
    rewrite replace_from_join by assumption.
    change (lit "{{title}}") with (123%N :: lit "{title}}").
    apply replace_from_plain. by apply join_with_free.
  - intros Hdollar Hne. unfold ticket_prompt.
    destruct (join_with (lit "{{title}}") segments) as [|c t] eqn:Ht; [congruence|].
    rewrite <- Ht. unfold replace_all.
    change (lit "{{url}}") with (123%N :: lit "{url}}") in *.
    change (lit "{{id}}") with (123%N :: lit "{id}}") in *.
    rewrite (replace_from_other _ _ _ _ _ Hurl_title Hsegs).
    rewrite (replace_from_other _ _ _ _ _ Hid_title Hsegs).
    change (lit "{{title}}") with (123%N :: lit "{title}}").
    by apply replace_from_join.
  - clear. induction segments as [|seg rest IH]; [reflexivity|].
    destruct rest as [|seg' rest]; [cbn; by rewrite app_nil_r|].
    change (join_with [] (seg :: seg' :: rest)) with (seg ++ [] ++ join_with [] (seg' :: rest)).
    rewrite IH. reflexivity.
Qed.

(** ** Categories *)

Lemma has_id_cases id cat :
  match has_id id cat with
  | Some true => member cat (lit "id") = JStr id
  | Some false => cat <> JNull /\ cat <> JUndefined /\ member cat (lit "id") <> JStr id
  | None => cat = JNull \/ cat = JUndefined
  end.
Proof.
  unfold has_id, member, get_prop.
  destruct cat as [| | | | | |ms]; cbn; try (by repeat split); try (by auto).
  destruct (assoc_last (lit "id") ms JUndefined) as [| | | |s| |]; cbn; try (by repeat split).
  destruct (bool_decide_reflect (s = id)) as [->|Hne]; [reflexivity|].
  repeat split; congruence.
Qed.

Lemma has_id_true id cat :
  has_id id cat = Some true <-> member cat (lit "id") = JStr id.
Proof.
  pose proof (has_id_cases id cat) as H. destruct (has_id id cat) as [[|]|].
  - by split.
  - split; [discriminate|]. by destruct H as (_ & _ & ?).
  - split; [discriminate|]. by destruct H as [-> | ->].
Qed.

Lemma find_index_found id l i :
  find_index id l = Some (Some i) <->
  (exists cat, l !! i = Some cat /\ member cat (lit "id") = JStr id)
  /\ (forall j cat, (j < i)%nat -> l !! j = Some cat ->
        cat <> JNull /\ cat <> JUndefined /\ member cat (lit "id") <> JStr id).
Proof.
  revert i. induction l as [|c l IH]; intros i; cbn [find_index].
  - split; [discriminate|]. by intros [(cat & Hc & _) _].
  - pose proof (has_id_cases id c) as Hc. destruct (has_id id c) as [[|]|]; cbn.
    + split.
      * intros [= <-]. split; [by exists c|]. intros j cat Hj. lia.
      * intros [(cat & Hi & Hcat) Hfirst]. destruct i as [|i]; [reflexivity|].
        destruct (Hfirst 0%nat c) as (_ & _ & Hne); [lia|reflexivity|]. contradiction.
    + assert (Hrest : forall i, find_index id l = Some (Some i) <->
                (exists cat, (c :: l) !! S i = Some cat /\ member cat (lit "id") = JStr id)
                /\ (forall j cat, (j < S i)%nat -> (c :: l) !! j = Some cat ->
                      cat <> JNull /\ cat <> JUndefined /\ member cat (lit "id") <> JStr id)).
      { intros i'. rewrite IH. split.
        - intros [Hat Hfirst]. split; [exact Hat|].
          intros [|j] cat Hj Hcat; [by injection Hcat as <-|]. apply (Hfirst j); [lia|exact Hcat].
        - intros [Hat Hfirst]. split; [exact Hat|].
          intros j cat Hj Hcat. apply (Hfirst (S j)); [lia|exact Hcat]. }
      destruct i as [|i].
      * split.
        -- destruct (find_index id l) as [[i'|]|]; discriminate.
        -- intros [(cat & [= <-] & Hcat) _]. by destruct Hc as (_ & _ & Hne).
      * rewrite <- Hrest. destruct (find_index id l) as [[i'|]|]; cbn;
          (split; [intros [= ->] || discriminate | intros [= ->] || discriminate]);
          reflexivity.
    + split; [discriminate|]. intros [(cat & Hi & Hcat) Hfirst]. destruct i as [|i].
      * injection Hi as <-. by destruct Hc as [-> | ->].
      * destruct (Hfirst 0%nat c) as (Hn & Hu & _); [lia|reflexivity|]. by destruct Hc.
Qed.

Lemma find_index_absent id l :
  find_index id l = Some None <->
  Forall (fun cat => cat <> JNull /\ cat <> JUndefined /\ member cat (lit "id") <> JStr id) l.
Proof.
  induction l as [|c l IH]; cbn [find_index]; [by split|].
  rewrite Forall_cons, <- IH. pose proof (has_id_cases id c) as Hc.
  destruct (has_id id c) as [[|]|]; cbn.
  - split; [discriminate | by intros [(_ & _ & ?) _]].
  - destruct (find_index id l) as [[i|]|]; cbn;
      (split; [discriminate || (intros _; by split) | by intros [_ ?] || by intros _]).
  - split; [discriminate|]. intros [(? & ? & _) _]. by destruct Hc.
Qed.

Lemma find_index_object id l i cat :
  find_index id l = Some (Some i) -> l !! i = Some cat -> exists ms, cat = JObj ms.
Proof.
  intros [(cat' & Hi & Hid) _]%find_index_found Hcat.
  assert (cat' = cat) as -> by congruence. destruct cat; try discriminate. eauto.
Qed.


Lemma assoc_last_app k a b found :
  assoc_last k (a ++ b) found = assoc_last k b (assoc_last k a found).
Proof. revert found. induction a as [|[k' v] a IH]; intros found; cbn; [reflexivity|]. apply IH. Qed.

Lemma assoc_last_absent k ms found : (k ∉ fst <$> ms) -> assoc_last k ms found = found.
Proof.
  revert found. induction ms as [|[k' v] ms IH]; intros found; cbn; [reflexivity|].
  intros [Hne Hnot]%not_elem_of_cons. cbn in Hne. rewrite decide_False by congruence.
  by apply IH.
Qed.

Lemma assoc_last_filter k (keep : jsstring * jsval -> bool) entries found :
  (forall kv, fst kv = k -> keep kv = true) ->
  assoc_last k (List.filter keep entries) found = assoc_last k entries found.
Proof.
  intros Hkeep. revert found. induction entries as [|[k' v] entries IH]; intros found;
    [reflexivity|].
  cbn [List.filter]. destruct (keep (k', v)) eqn:Hk; cbn [assoc_last]; [apply IH|].
  rewrite decide_False; [apply IH|]. intros ->. by rewrite (Hkeep (k, v) eq_refl) in Hk.
Qed.

Lemma assoc_last_filter_out k (keep : jsstring * jsval -> bool) entries found :
  (forall kv, fst kv = k -> keep kv = false) ->
  assoc_last k (List.filter keep entries) found = found.
Proof.
  intros Hkeep. revert found. induction entries as [|[k' v] entries IH]; intros found;
    [reflexivity|].
  cbn [List.filter]. destruct (keep (k', v)) eqn:Hk; [|apply IH].
  cbn [assoc_last]. rewrite decide_False; [apply IH|].
  intros ->. by rewrite (Hkeep (k, v) eq_refl) in Hk.
Qed.

Lemma assign_member_proto target kv :
  bool_decide (lit "__proto__" ∈ fst <$> assign_member target kv)
  = bool_decide (lit "__proto__" ∈ fst <$> target).
Proof.
  apply bool_decide_ext. unfold assign_member.
  destruct (decide (fst kv = lit "__proto__")) as [Hk|Hk].
  - destruct (bool_decide_reflect (fst kv ∈ fst <$> target)) as [Hhas|Hno]; [|reflexivity].
    rewrite fmap_app, elem_of_app. rewrite Hk in Hhas. tauto.
  - rewrite fmap_app, elem_of_app. cbn. rewrite list_elem_of_singleton.
    split; [intros [?|?]; [done|congruence] | tauto].
Qed.

Lemma object_assign_fold entries : forall target,
  fold_left assign_member entries target
  = target ++ List.filter
                (fun kv => negb (bool_decide (fst kv = lit "__proto__"))
                           || bool_decide (lit "__proto__" ∈ fst <$> target)) entries.
Proof.
  induction entries as [|[k v] entries IH]; intros target; cbn [fold_left List.filter].
  - by rewrite app_nil_r.
  - rewrite IH, assign_member_proto. unfold assign_member. cbn [fst].
    destruct (decide (k = lit "__proto__")) as [->|Hk].
    + rewrite (bool_decide_true (lit "__proto__" = lit "__proto__")) by reflexivity.
      cbn [negb orb].
      destruct (bool_decide (lit "__proto__" ∈ fst <$> target));
        [by rewrite <- app_assoc | reflexivity].
    + rewrite (bool_decide_false _ Hk). cbn [negb orb]. by rewrite <- app_assoc.
Qed.

Lemma object_assign_lookup ms source k :
  assoc_last k (object_assign ms source) JUndefined
  = if decide (k = lit "__proto__") then
      if bool_decide (k ∈ fst <$> ms)
      then assoc_last k (own_entries source) (assoc_last k ms JUndefined)
      else JUndefined
    else assoc_last k (own_entries source) (assoc_last k ms JUndefined).
Proof.
  unfold object_assign. rewrite object_assign_fold, assoc_last_app.
  destruct (decide (k = lit "__proto__")) as [->|Hk].
  - destruct (bool_decide_reflect (lit "__proto__" ∈ fst <$> ms)) as [Hhas|Hno].
    + apply assoc_last_filter. intros kv _. apply orb_true_r.
    + rewrite assoc_last_filter_out.
      * by apply assoc_last_absent.
      * intros kv Hkv. by rewrite (bool_decide_true _ Hkv).
  - apply assoc_last_filter. intros kv Hkv. rewrite bool_decide_false by congruence.
    reflexivity.
Qed.


Lemma find_index_app_absent id l l' :
  find_index id l = Some None ->
  find_index id (l ++ l') = (fun found : option nat => (fun i => length l + i)%nat <$> found)
                               <$> find_index id l'.
Proof.
  induction l as [|c l IH]; cbn [find_index app length].
  - intros _. destruct (find_index id l') as [[i|]|]; reflexivity.
  - destruct (has_id id c) as [[|]|]; cbn; [discriminate| |discriminate].
    destruct (find_index id l) as [[i|]|] eqn:Hl; cbn; [discriminate| |discriminate].
    intros _. rewrite IH by reflexivity.
    destruct (find_index id l') as [[i|]|]; reflexivity.
Qed.


(** ** The Linear settings *)

Lemma default_prompts_agree : DEFAULT_TICKET_PROMPT = DEFAULT_TICKET_TEMPLATE.
Proof. reflexivity. Qed.

(** X26.  The ticket template of the settings.  When the configuration
    holds a string or nothing as its template, [GET /linear/config] shows
    a non-empty string, and that string is the template with which the
    session manager writes the ticket prompt: the default of the route and
    the default of [createSession] are the same text, and both give way
    to a configured template under the same condition.  The settings
    show [createWorktree] as it is configured unless it is missing or
    [null], so that a configured [false] stays [false], whereas an empty
    base branch shows as [main].  A post without a template leaves the
    template as it is, and a post of [null] fails without a
    configuration to save. *)
Theorem shown_template_is_used config :
  (forall url id title,
     lc_ticketPromptTemplate config = JUndefined
     \/ (exists s, lc_ticketPromptTemplate config = JStr s) ->
     exists shown,
       view_ticketPromptTemplate (get_linear_config config) = JStr shown
       /\ shown <> []
       /\ ticket_prompt (template_text (lc_ticketPromptTemplate config)) url id title
          = ticket_prompt (Some shown) url id title)
  /\ (lc_createWorktree config = JBool false ->
      view_createWorktree (get_linear_config config) = JBool false)
  /\ (lc_createWorktree config = JUndefined \/ lc_createWorktree config = JNull ->
      view_createWorktree (get_linear_config config) = JBool true)
  /\ (truthy (lc_defaultBaseBranch config) = false ->
      view_defaultBaseBranch (get_linear_config config) = JStr (lit "main"))
  /\ (forall body config',
        post_linear_config body config = Some config' ->
        get_prop body (lit "ticketPromptTemplate") = Some JUndefined ->
        lc_ticketPromptTemplate config' = lc_ticketPromptTemplate config)
  /\ (forall body config' v,
        post_linear_config body config = Some config' ->
        get_prop body (lit "ticketPromptTemplate") = Some v -> v <> JUndefined ->
        lc_ticketPromptTemplate config' = v)
  /\ (forall body, post_linear_config body config = None <-> body = JNull \/ body = JUndefined).
Proof.
  split; [|split; [|split; [|split; [|split; [|split]]]]].
  - intros url id title [Hnone|[s Hs]]; unfold get_linear_config; cbn.
    + rewrite Hnone. cbn. exists DEFAULT_TICKET_PROMPT. split; [reflexivity|].
      split; [by vm_compute|]. reflexivity.
    + rewrite Hs. destruct s as [|c s]; cbn.
      * exists DEFAULT_TICKET_PROMPT. split; [reflexivity|]. split; [by vm_compute|]. reflexivity.
      * exists (c :: s). by repeat split.
  - intros H. unfold get_linear_config. cbn. by rewrite H.
  - intros [H|H]; unfold get_linear_config; cbn; by rewrite H.
  - intros H. unfold get_linear_config, js_or. cbn. by rewrite H.
  - intros body config' Hpost Htpl. unfold post_linear_config in Hpost. rewrite Htpl in Hpost.
    destruct (get_prop body (lit "apiKey")); [|discriminate].
    destruct (get_prop body (lit "defaultTeamId")); [|discriminate].
    destruct (get_prop body (lit "defaultBaseBranch")); [|discriminate].
    destruct (get_prop body (lit "createWorktree")); [|discriminate].
    cbn in Hpost. by injection Hpost as <-.
  - intros body config' v Hpost Htpl Hv. unfold post_linear_config in Hpost.
    rewrite Htpl in Hpost.
    destruct (get_prop body (lit "apiKey")); [|discriminate].
    destruct (get_prop body (lit "defaultTeamId")); [|discriminate].
    destruct (get_prop body (lit "defaultBaseBranch")); [|discriminate].
    destruct (get_prop body (lit "createWorktree")); [|discriminate].
    cbn in Hpost. injection Hpost as <-. cbn. unfold updated. by destruct v.
  - intros body. unfold post_linear_config, get_prop.
    destruct body; cbn; split; try discriminate; try (by intros [?|?]); auto.
Qed.

(** ** The cost cache *)

Lemma refreshCache_fresh t file c :
  t - lastReadTime c < CACHE_TTL -> refreshCache t file c = c.
Proof.
  intros Hfresh. unfold refreshCache. by destruct (Z.ltb_spec (t - lastReadTime c) CACHE_TTL); [|lia].
Qed.

Lemma refreshCache_due t file c :
  CACHE_TTL <= t - lastReadTime c ->
  refreshCache t file c
  = match file with
    | FileContent raw =>
        match JSON_parse raw ≫= (fun data => get_prop data (lit "sessions")) with
        | Some sessions => {| cachedSessions := js_or sessions (JObj []); lastReadTime := t |}
        | None => {| cachedSessions := cachedSessions c; lastReadTime := t |}
        end
    | _ => {| cachedSessions := cachedSessions c; lastReadTime := t |}
    end.
Proof.
  intros Hdue. unfold refreshCache.
  destruct (Z.ltb_spec (t - lastReadTime c) CACHE_TTL); [lia|]. by destruct file.
Qed.

(** X27.  The cost cache is read at most once in ten seconds, also when
    reading fails.  Within 10000 ms of the last attempt
    [getTokensForSession] does not look at the file: its answer is the
    same whatever the file holds, and the module state is unchanged.
    After that it looks, and notes the time even when the file is
    missing, cannot be read, is no JSON or is the JSON [null]; in those
    cases it keeps the sessions it had, so that a good file that appears
    within the next ten seconds is not seen either.  Without a session id,
    or with the empty one, the answer is [null] and the file is not
    looked at. *)
Theorem cost_cache_read_once_in_ten_seconds t file id c :
  (forall file',
     t - lastReadTime c < CACHE_TTL ->
     getTokensForSession t file id c = getTokensForSession t file' id c
     /\ fst (getTokensForSession t file id c) = c)
  /\ (id = None \/ id = Some [] -> getTokensForSession t file id c = (c, JNull))
  /\ (forall key,
        id = Some key -> key <> [] ->
        CACHE_TTL <= t - lastReadTime c ->
        file = FileMissing \/ file = FileUnreadable
        \/ (exists raw, file = FileContent raw
              /\ (JSON_parse raw = None \/ JSON_parse raw = Some JNull)) ->
        let c' := fst (getTokensForSession t file id c) in
        cachedSessions c' = cachedSessions c /\ lastReadTime c' = t
        /\ snd (getTokensForSession t file id c) = tokens_of (session_entry (cachedSessions c) key)
        /\ forall t' file',
             t' - t < CACHE_TTL ->
             getTokensForSession t' file' id c'
             = (c', tokens_of (session_entry (cachedSessions c) key))).
Proof.
  split; [|split].
  - intros file' Hfresh. unfold getTokensForSession.
    destruct id as [[|k key]|]; [by split| |by split].
    by rewrite !refreshCache_fresh.
  - by intros [-> | ->].
  - intros key -> Hkey Hdue Hbad. cbn zeta. unfold getTokensForSession.
    destruct key as [|k key]; [congruence|].
    assert (Hstale : refreshCache t file c
                     = {| cachedSessions := cachedSessions c; lastReadTime := t |}).
    { rewrite refreshCache_due by exact Hdue.
      destruct Hbad as [->|[->|(raw & -> & [Hraw|Hraw])]]; try reflexivity;
        by rewrite Hraw. }
    rewrite Hstale. cbn [fst snd cachedSessions lastReadTime].
    repeat (split; [reflexivity|]). intros t' file' Hfresh.
    by rewrite refreshCache_fresh.
Qed.

(** X28.  What [getTokensForSession] answers after it has read the file.
    When the time to live has passed and the file holds a JSON value other
    than [null], the sessions kept are the member [sessions] of that
    value, or the empty object when there is none or it is falsy.  With an
    object of sessions, the answer for a session id is the member [tokens]
    of the entry under that id when the entry is an object that has one
    other than [null]; it is [null] when there is no entry under the id,
    when the entry is no object, and when the entry has no [tokens]. *)
Theorem cost_cache_answers_tokens t raw data key c :
  key <> [] -> CACHE_TTL <= t - lastReadTime c ->
  JSON_parse raw = Some data -> data <> JNull -> data <> JUndefined ->
  let c' := fst (getTokensForSession t (FileContent raw) (Some key) c) in
  let answer := snd (getTokensForSession t (FileContent raw) (Some key) c) in
  lastReadTime c' = t
  /\ cachedSessions c' = js_or (member data (lit "sessions")) (JObj [])
  /\ answer = tokens_of (session_entry (cachedSessions c') key)
  /\ (forall entries,
        member data (lit "sessions") = JObj entries ->
        ((key ∉ fst <$> entries) -> answer = JNull)
        /\ (forall ms, assoc_last key entries JUndefined = JObj ms ->
              answer = nullish_or (assoc_last (lit "tokens") ms JUndefined) JNull)
        /\ (forall ms v, assoc_last key entries JUndefined = JObj ms ->
              assoc_last (lit "tokens") ms JUndefined = v ->
              v <> JUndefined -> v <> JNull -> answer = v)
        /\ ((forall ms, assoc_last key entries JUndefined <> JObj ms) -> answer = JNull))
  /\ (truthy (member data (lit "sessions")) = false -> answer = JNull).
Proof.
  intros Hkey Hdue Hparse Hnull Hundef. cbn zeta. unfold getTokensForSession.
  destruct key as [|k key]; [congruence|].
  rewrite refreshCache_due by exact Hdue. rewrite Hparse. cbn [mbind option_bind].
  assert (Hget : get_prop data (lit "sessions") = Some (member data (lit "sessions")))
    by (by destruct data).
  rewrite Hget. cbn [fst snd cachedSessions lastReadTime].
  split; [reflexivity|]. split; [reflexivity|]. split; [reflexivity|]. split.
  - intros entries ->. cbn [js_or truthy session_entry]. split; [|split; [|split]].
    + intros Hnot. by rewrite assoc_last_absent.
    + intros ms ->. reflexivity.
    + intros ms v -> <- Hu Hn. unfold tokens_of, member, nullish_or.
      by destruct (assoc_last (lit "tokens") ms JUndefined).
    + intros Hno. unfold tokens_of, member.
      destruct (assoc_last (k :: key) entries JUndefined) as [| | | | | |ms]; try reflexivity.
      by destruct (Hno ms).
  - intros Hfalsy. unfold js_or. by rewrite Hfalsy.
Qed.

(** ** The order of the events of a chunk *)

Lemma messages_to_app c es1 es2 :
  messages_to c (es1 ++ es2) = messages_to c es1 ++ messages_to c es2.
Proof. unfold messages_to. apply omap_app. Qed.

Lemma messages_to_do_log c env err entry : messages_to c (do_log env err entry) = [].
Proof. unfold do_log. by destruct (QUIET env). Qed.

Lemma messages_to_send c msgs :
  messages_to c (List.map (EffSend c) msgs) = msgs.
Proof.
  induction msgs as [|msg msgs IH]; [reflexivity|].
  cbn. rewrite decide_True by reflexivity. cbn. f_equal. exact IH.
Qed.

Lemma messages_to_send_other c c' msgs :
  c' <> c -> messages_to c (List.map (EffSend c') msgs) = [].
Proof.
  intros Hne. induction msgs as [|msg msgs IH]; [reflexivity|].
  cbn. rewrite decide_False by exact Hne. exact IH.
Qed.

Lemma messages_to_send_all c env cs msgs :
  NoDup cs ->
  messages_to c (send_all env cs msgs)
  = if bool_decide (c ∈ cs) && (readyState env c =? 1) then msgs else [].
Proof.
  unfold send_all. induction 1 as [|c0 cs Hc0 Hnd IH]; [reflexivity|].
  cbn [flat_map]. rewrite messages_to_app, IH.
  destruct (decide (c0 = c)) as [->|Hne].
  - rewrite (bool_decide_true (c ∈ c :: cs)) by apply list_elem_of_here.
    rewrite (bool_decide_false (c ∈ cs)) by exact Hc0. cbn [andb].
    rewrite app_nil_r. destruct (readyState env c =? 1); [|reflexivity].
    apply messages_to_send.
  - assert (Hm : messages_to c (if readyState env c0 =? 1 then List.map (EffSend c0) msgs else [])
                 = []).
    { destruct (readyState env c0 =? 1); [by apply messages_to_send_other | reflexivity]. }
    rewrite Hm. cbn [app].
    assert (Hb : bool_decide (c ∈ c0 :: cs) = bool_decide (c ∈ cs)).
    { apply bool_decide_ext. rewrite elem_of_cons. split; [|tauto].
      intros [?|?]; [congruence|done]. }
    by rewrite Hb.
Qed.

(** X29.  The order of the events of a chunk.  For each attached socket
    that is open, the handler of [createSession] sends, for one chunk: the
    [metrics] event if the session is Claude's and the chunk carries an
    acceptable tag, then the [output] event with the chunk, then the
    [status] event if the status changed; nothing else, and nothing at
    all to a socket that is not open or not attached.  So the metrics of
    a chunk reach an observer before the chunk itself. *)
Theorem chunk_events_in_order env agent data s c :
  NoDup (clients s) ->
  let s' := fst (onData_create env agent data s) in
  let sent := snd (onData_create env agent data s) in
  let metrics_part :=
    match (if decide (agent = lit "claude") then parseMetrics data else None) with
    | Some m => [MsgMetrics m]
    | None => []
    end in
  let status_part :=
    if bool_decide (status s' = status s) then []
    else [MsgStatus (status s') (isRestored s)] in
  ((c ∈ clients s) -> readyState env c = 1 ->
   messages_to c sent = metrics_part ++ [MsgOutput data] ++ status_part)
  /\ ((c ∉ clients s) \/ readyState env c <> 1 -> messages_to c sent = []).
Proof.
  intros Hnd. cbn zeta. unfold onData_create, onData_metrics.
  set (e_debug := if js_includes (lit "OPENUI") data then _ else _).
  assert (Hdebug : messages_to c e_debug = []).
  { subst e_debug. destruct (js_includes _ data); [apply messages_to_do_log | reflexivity]. }
  assert (Hclients : forall m, clients (set_metrics m
                       (set_recentOutputSize
                          (recentOutputSize (set_lastOutputTime (now env)
                             (set_outputBuffer (push_chunk (outputBuffer s) data) s))
                           + js_length data)
                          (set_lastOutputTime (now env)
                             (set_outputBuffer (push_chunk (outputBuffer s) data) s))))
                     = clients s) by (intros; by destruct s).
  destruct (decide (agent = lit "claude")) as [Ha|Ha];
    [destruct (parseMetrics data) as [m|]|];
    cbn [fst snd];
    rewrite !messages_to_app, Hdebug, ?messages_to_do_log;
    repeat match goal with
           | |- context [messages_to c (send_all env ?cs ?msgs)] =>
               rewrite (messages_to_send_all c env cs msgs)
                 by (by first [assumption | destruct s])
           end;
    cbn [app];
    (split;
     [ intros Hin Hopen;
       repeat match goal with
              | |- context [bool_decide (c ∈ ?cs)] =>
                  rewrite (bool_decide_true (c ∈ cs)) by (by destruct s)
              end;
       rewrite Hopen; cbn [andb Z.eqb Pos.eqb app];
       destruct s; cbn;
       repeat match goal with
              | |- context [bool_decide ?P] => destruct (bool_decide_reflect P)
              end; cbn; congruence
     | intros [Hnot|Hclosed];
       [ repeat match goal with
                | |- context [bool_decide (c ∈ ?cs)] =>
                    rewrite (bool_decide_false (c ∈ cs)) by (by destruct s)
                end; reflexivity
       | destruct (Z.eqb_spec (readyState env c) 1); [congruence|];
         by rewrite ?andb_false_r ] ]).
Qed.

(** ** The two revisions of [GET /sessions] *)

(** X30.  The two revisions of the callback of [GET /sessions] agree on
    the session they leave whenever the cache has no entry for the
    session or only one older than 2000 ms: the revision with the cache
    then scans as the revision without it does.  They always agree on the
    status.  Within the life of a cache entry the later revision leaves
    the metrics alone where the earlier one would have scanned. *)
Theorem cached_revision_refines_plain env id s cache :
  status (fst (refresh_session env id s cache)) = status (fst (refresh_session_v0 env id s))
  /\ (cache !! id = None
      \/ (exists m t, cache !! id = Some (m, t) /\ 2000 < now env - t) ->
      fst (refresh_session env id s cache) = fst (refresh_session_v0 env id s))
  /\ (forall m t, cache !! id = Some (m, t) -> now env - t <= 2000 ->
        fst (refresh_session env id s cache) = set_status (detectStatus env s) s
        /\ snd (refresh_session env id s cache) = cache).
Proof.
  rewrite refresh_session_cases. unfold refresh_session_v0, METRICS_CACHE_TTL.
  rewrite (scanBufferForMetrics_ext s (set_status (detectStatus env s) s)) by (by destruct s).
  assert (Ha : agentId (set_status (detectStatus env s) s) = agentId s) by (by destruct s).
  rewrite Ha. split; [|split].
  - destruct (decide _); [|reflexivity].
    destruct (match cache !! id with Some _ => _ | None => _ end);
      destruct (scanBufferForMetrics s); by destruct s.
  - intros Hstale.
    assert (Hst : match cache !! id with
                  | Some (_, t) => 2000 <? now env - t
                  | None => true
                  end = true).
    { destruct Hstale as [->|(m & t & -> & Hlt)]; [reflexivity|]. by apply Z.ltb_lt. }
    rewrite Hst. destruct (decide _); [|reflexivity]. by destruct (scanBufferForMetrics s).
  - intros m t Hm Hfresh. rewrite Hm.
    destruct (Z.ltb_spec 2000 (now env - t)); [lia|]. by destruct (decide _).
Qed.

(** ** The further properties at work on the sample installation *)

Lemma delete_unregisters_witness :
  map_get demo_id (sessions (run empty_world demo_events)) = Some 2%nat
  /\ lookup_session (fst (delete_route e0 demo_id (run empty_world demo_events))) demo_id = None
  /\ delete_route e0 demo_id (fst (delete_route e0 demo_id (run empty_world demo_events)))
     = (fst (delete_route e0 demo_id (run empty_world demo_events)), not_found).
Proof.
  assert (H : map_get demo_id (sessions (run empty_world demo_events)) = Some 2%nat)
    by (vm_compute; reflexivity).
  destruct (delete_unregisters demo_events e0 demo_id) as [_ Hdel].
  destruct (Hdel 2%nat H) as (_ & _ & Hgone & _ & _ & _ & _ & _ & _ & _ & Hagain).
  split; [exact H|]. split; [exact Hgone | exact Hagain].
Defined.

Lemma timer_stops_after_delete_witness :
  map_get demo_id (sessions (run empty_world demo_events)) = Some 2%nat
  /\ intervals (run empty_world demo_events) !! 0%nat = Some (mkInterval 500 demo_id 2 false)
  /\ heap (decay_tick 0 (fst (delete_route e0 demo_id (run empty_world demo_events))))
     = heap (fst (delete_route e0 demo_id (run empty_world demo_events)))
  /\ intervals (decay_tick 0 (fst (delete_route e0 demo_id (run empty_world demo_events))))
       !! 0%nat = Some (mkInterval 500 demo_id 2 true).
Proof.
  assert (H1 : map_get demo_id (sessions (run empty_world demo_events)) = Some 2%nat)
    by (vm_compute; reflexivity).
  assert (H2 : intervals (run empty_world demo_events) !! 0%nat
               = Some (mkInterval 500 demo_id 2 false)) by (vm_compute; reflexivity).
  destruct (timer_stops_after_delete demo_events e0 demo_id 2%nat 0%nat
              (mkInterval 500 demo_id 2 false) H1 H2 eq_refl) as (_ & Hheap & Hclear & _).
  split; [exact H1|]. split; [exact H2|]. split; [exact Hheap|].
  apply Hclear; [reflexivity|]. eexists. vm_compute. reflexivity.
Defined.

Lemma not_found_iff_unregistered_witness :
  map_get (lit "session-9") (sessions (run empty_world demo_events)) = None
  /\ restart e0 (lit "session-9") (run empty_world demo_events)
     = (run empty_world demo_events, not_found).
Proof.
  assert (H : map_get (lit "session-9") (sessions (run empty_world demo_events)) = None)
    by (vm_compute; reflexivity).
  destruct (not_found_iff_unregistered demo_events e0 (lit "session-9") (mkUpdates None None None))
    as (_ & _ & _ & _ & Hall & _).
  split; [exact H|]. exact (proj1 (proj2 (Hall H))).
Defined.

Lemma patch_changes_named_fields_witness :
  find_session (run empty_world demo_events) (lit "session-1")
  = Some (0%nat, placeholder e0 node_one)
  /\ snd (patch_session (lit "session-1") (mkUpdates None None (Some (lit "check CI")))
            (run empty_world demo_events)) = ok
  /\ notes (apply_updates (mkUpdates None None (Some (lit "check CI"))) (placeholder e0 node_one))
     = Some (lit "check CI")
  /\ customName (apply_updates (mkUpdates None None (Some (lit "check CI")))
                   (placeholder e0 node_one))
     = Some (lit "backend").
Proof.
  assert (H : find_session (run empty_world demo_events) (lit "session-1")
              = Some (0%nat, placeholder e0 node_one)) by (vm_compute; reflexivity).
  destruct (patch_changes_named_fields (lit "session-1")
              (mkUpdates None None (Some (lit "check CI"))) _ _ _ H)
    as (Hok & _ & _ & _ & Hname & _ & Hnotes & _).
  split; [exact H|]. split; [exact Hok|]. split; [exact Hnotes | exact Hname].
Defined.


Lemma cached_metrics_expire_witness :
  lookup_session (run empty_world demo_events) (lit "session-1") = Some (placeholder e0 node_one)
  /\ agentId (placeholder e0 node_one) = lit "claude"
  /\ exists s', lookup_session (fst (list_sessions e0 (run empty_world demo_events)))
                  (lit "session-1") = Some s'
                /\ metrics s' = None.
Proof.
  assert (H : lookup_session (run empty_world demo_events) (lit "session-1")
              = Some (placeholder e0 node_one)) by (vm_compute; reflexivity).
  assert (Ha : agentId (placeholder e0 node_one) = lit "claude") by reflexivity.
  destruct (cached_metrics_expire demo_events e0 (lit "session-1") _ H Ha)
    as (s' & Hs' & _ & _ & Hmiss).
  split; [exact H|]. split; [exact Ha|]. exists s'. split; [exact Hs'|].
  apply Hmiss. vm_compute. reflexivity.
Defined.

Lemma worktree_session_runs_in_worktree_witness :
  exists es result,
    wants_worktree demo_params (lit "feat/x") (lit "main")
    /\ createWorktree e0 (lit "/srv/app") (lit "feat/x") (lit "main") = Some (es, result)
    /\ success result = true
    /\ wt_worktreePath result = Some (lit "/srv/app/../app-worktrees/feat-x")
    /\ exists r s,
         find_session (fst (createSession e0 demo_params empty_world)) (lit "session-7")
         = Some (r, s)
         /\ cwd s = lit "/srv/app/../app-worktrees/feat-x"
         /\ gitBranch s = Some (lit "feat/x").
Proof.
  eexists _, _.
  assert (Hw : wants_worktree demo_params (lit "feat/x") (lit "main"))
    by (by repeat split).
  split; [exact Hw|]. split; [vm_compute; reflexivity|]. split; [reflexivity|].
  split; [vm_compute; reflexivity|].
  destruct (worktree_session_runs_in_worktree e0 demo_params empty_world (lit "feat/x")
              (lit "main") _ _ (lit "/srv/app/../app-worktrees/feat-x") Hw
              ltac:(vm_compute; reflexivity) eq_refl ltac:(vm_compute; reflexivity)
              ltac:(discriminate) ltac:(vm_compute; reflexivity))
    as (r & s & _ & Hfind & Hcwd & _ & Hbranch & _).
  exists r, s. split; [exact Hfind|]. split; [exact Hcwd | exact Hbranch].
Defined.

Lemma launch_writes_command_once_witness :
  provision e0 (create_params e0 (demo_body "claude" None))
  = Some ([], mkProvision (lit "/srv/site") None None)
  /\ trace (fire_timeout 0 (fst (createSession e0 (create_params e0 (demo_body "claude" None))
                                   empty_world)))
     = trace (fst (createSession e0 (create_params e0 (demo_body "claude" None)) empty_world))
         ++ [EffWrite 0 (TextCommand (lit "claude"))]
  /\ written (TextCommand (lit "claude")) = lit "claude" ++ [13%N].
Proof.
  assert (H : provision e0 (create_params e0 (demo_body "claude" None))
              = Some ([], mkProvision (lit "/srv/site") None None)) by (vm_compute; reflexivity).
  destruct (launch_writes_command_once e0 (create_params e0 (demo_body "claude" None))
              empty_world _ _ H ltac:(vm_compute; reflexivity))
    as (_ & _ & Htrace & Hwritten & _).
  split; [exact H|]. split; [exact Htrace | exact Hwritten].
Defined.

Lemma restarted_session_only_relays_witness :
  find_session (run empty_world demo_events) (lit "session-1")
  = Some (0%nat, placeholder e0 node_one)
  /\ exists s2,
       heap (pty_data e0 1 (lit "[OPENUI:{}]")
               (fst (restart e0 (lit "session-1") (run empty_world demo_events)))) !! 0%nat
       = Some s2
       /\ status s2 = starting /\ metrics s2 = None.
Proof.
  assert (H : find_session (run empty_world demo_events) (lit "session-1")
              = Some (0%nat, placeholder e0 node_one)) by (vm_compute; reflexivity).
  destruct (restarted_session_only_relays e0 (lit "session-1") _ _ _ H eq_refl
              ltac:(vm_compute; reflexivity)) as (_ & _ & _ & _ & Hdata).
  split; [exact H|].
  destruct (Hdata e0 (lit "[OPENUI:{}]")) as (s2 & Hs2 & Hst & Hm & _).
  exists s2. split; [exact Hs2|]. split; [exact Hst | exact Hm].
Defined.

Lemma worktree_result_shape_witness :
  createWorktree e0 (lit "/srv/site") (lit "feat/x") (lit "main")
  = Some ([], mkWorktreeResult false None (Some (lit "Not a git repository")))
  /\ (success (mkWorktreeResult false None (Some (lit "Not a git repository"))) = false
      <-> is_Some (wt_error (mkWorktreeResult false None (Some (lit "Not a git repository"))))).
Proof.
  assert (H : createWorktree e0 (lit "/srv/site") (lit "feat/x") (lit "main")
              = Some ([], mkWorktreeResult false None (Some (lit "Not a git repository"))))
    by (vm_compute; reflexivity).
  split; [exact H|].
  exact (proj1 (proj2 (worktree_result_shape e0 _ _ _ _ _ H))).
Defined.

Lemma worktree_git_commands_witness :
  exists es result,
    createWorktree e0 (lit "/srv/app") (lit "feat/x") (lit "main") = Some (es, result)
    /\ getGitRoot e0 (lit "/srv/app") = Some (lit "/srv/app")
    /\ git_commands es
       = [([lit "git"; lit "fetch"; lit "origin"], lit "/srv/app");
          ([lit "git"; lit "worktree"; lit "add"; lit "/srv/app/../app-worktrees/feat-x";
            lit "feat/x"], lit "/srv/app")].
Proof.
  eexists _, _.
  assert (Hroot : getGitRoot e0 (lit "/srv/app") = Some (lit "/srv/app"))
    by (vm_compute; reflexivity).
  split; [vm_compute; reflexivity|]. split; [exact Hroot|].
  destruct (worktree_git_commands e0 (lit "/srv/app") (lit "feat/x") (lit "main") _ _
              (lit "/srv/app") ltac:(vm_compute; reflexivity) Hroot ltac:(discriminate))
    as (_ & Hnew & _).
  destruct (Hnew ltac:(vm_compute; reflexivity)) as (Hcmds & _).
  rewrite Hcmds. vm_compute. reflexivity.
Defined.

Lemma ticket_prompt_fills_in_address_witness :
  (36%N ∉ lit "https://linear.app/t/T-1") /\ (123%N ∉ lit "https://linear.app/t/T-1")
  /\ ticket_prompt None (lit "https://linear.app/t/T-1") (Some (lit "T-1")) None
     = lit "Here is the ticket for this session: https://linear.app/t/T-1" ++ [10%N; 10%N]
         ++ lit "Please use the Linear MCP tool or fetch the URL to read the full ticket details before starting work.".
Proof.
  assert (H1 : 36%N ∉ lit "https://linear.app/t/T-1")
    by (apply (bool_decide_unpack _); vm_compute; exact I).
  assert (H2 : 123%N ∉ lit "https://linear.app/t/T-1")
    by (apply (bool_decide_unpack _); vm_compute; exact I).
  split; [exact H1|]. split; [exact H2|].
  destruct (ticket_prompt_fills_in_address (lit "https://linear.app/t/T-1") (Some (lit "T-1"))
              None H1 H2) as (_ & Hdefault & _).
  rewrite (Hdefault None (or_introl eq_refl)). vm_compute. reflexivity.
Defined.

Lemma ticket_prompt_fills_in_id_and_title_witness :
  Forall (fun seg => 123%N ∉ seg) [lit "Work on "; lit " now"]
  /\ ticket_prompt (Some (lit "Work on {{id}} now")) (lit "https://linear.app/t/T-1")
       (Some (lit "T-1")) None
     = lit "Work on T-1 now"
  /\ ticket_prompt (Some (lit "Work on {{id}} now")) (lit "https://linear.app/t/T-1") None None
     = lit "Work on  now".
Proof.
  assert (H : Forall (fun seg : jsstring => 123%N ∉ seg) [lit "Work on "; lit " now"]).
  { repeat (apply Forall_cons_2; [apply (bool_decide_unpack _); vm_compute; exact I|]).
    apply Forall_nil_2. }
  split; [exact H|]. split.
  - destruct (ticket_prompt_fills_in_id_and_title (lit "https://linear.app/t/T-1")
                (Some (lit "T-1")) None _ H) as (Hid & _).
    change (lit "Work on {{id}} now") with (join_with (lit "{{id}}") [lit "Work on "; lit " now"]).
    rewrite Hid; [vm_compute; reflexivity | | | discriminate];
      apply (bool_decide_unpack _); vm_compute; exact I.
  - destruct (ticket_prompt_fills_in_id_and_title (lit "https://linear.app/t/T-1")
                None None _ H) as (Hid & _).
    change (lit "Work on {{id}} now") with (join_with (lit "{{id}}") [lit "Work on "; lit " now"]).
    rewrite Hid; [vm_compute; reflexivity | | | discriminate];
      apply (bool_decide_unpack _); vm_compute; exact I.
Defined.




Lemma cost_cache_answers_tokens_witness :
  JSON_parse demo_cost_file
  = Some (JObj [(lit "sessions",
                 JObj [(lit "abc", JObj [(lit "tokens", JNum (Dec false 1200 0));
                                         (lit "cost", JNum (Dec false 5 (-1)))]);
                       (lit "old", JObj [(lit "cost", JNum (Dec false 1 0))])])])
  /\ snd (getTokensForSession 20000 (FileContent demo_cost_file) (Some (lit "abc"))
            initial_cost_cache) = JNum (Dec false 1200 0)
  /\ snd (getTokensForSession 20000 (FileContent demo_cost_file) (Some (lit "old"))
            initial_cost_cache) = JNull.
Proof.
  assert (H : JSON_parse demo_cost_file
              = Some (JObj [(lit "sessions",
                             JObj [(lit "abc", JObj [(lit "tokens", JNum (Dec false 1200 0));
                                                     (lit "cost", JNum (Dec false 5 (-1)))]);
                                   (lit "old", JObj [(lit "cost", JNum (Dec false 1 0))])])]))
    by (vm_compute; reflexivity).
  split; [exact H|]. split.
  - destruct (cost_cache_answers_tokens 20000 demo_cost_file _ (lit "abc") initial_cost_cache
                ltac:(discriminate) ltac:(vm_compute; discriminate) H
                ltac:(discriminate) ltac:(discriminate)) as (_ & _ & _ & Hentries & _).
    destruct (Hentries _ eq_refl) as (_ & _ & Htokens & _).
    apply (Htokens [(lit "tokens", JNum (Dec false 1200 0)); (lit "cost", JNum (Dec false 5 (-1)))]);
      [vm_compute; reflexivity | vm_compute; reflexivity | discriminate | discriminate].
  - destruct (cost_cache_answers_tokens 20000 demo_cost_file _ (lit "old") initial_cost_cache
                ltac:(discriminate) ltac:(vm_compute; discriminate) H
                ltac:(discriminate) ltac:(discriminate)) as (_ & _ & _ & Hentries & _).
    destruct (Hentries _ eq_refl) as (_ & Hobj & _).
    rewrite (Hobj [(lit "cost", JNum (Dec false 1 0))]); vm_compute; reflexivity.
Defined.

Lemma cost_cache_read_once_in_ten_seconds_witness :
  getTokensForSession 5000 (FileContent demo_cost_file) (Some (lit "abc")) initial_cost_cache
  = (initial_cost_cache, JNull)
  /\ getTokensForSession 5000 FileMissing (Some (lit "abc")) initial_cost_cache
     = (initial_cost_cache, JNull).
Proof.
  destruct (cost_cache_read_once_in_ten_seconds 5000 (FileContent demo_cost_file)
              (Some (lit "abc")) initial_cost_cache) as (Hfresh & _).
  destruct (Hfresh FileMissing ltac:(vm_compute; reflexivity)) as [Hsame Hstate].
  assert (H : getTokensForSession 5000 FileMissing (Some (lit "abc")) initial_cost_cache
              = (initial_cost_cache, JNull)) by (vm_compute; reflexivity).
  split; [by rewrite Hsame | exact H].
Defined.

Lemma chunk_events_in_order_witness :
  NoDup (clients watched_session)
  /\ messages_to 4 (snd (onData_create e0 (lit "claude") demo_text watched_session))
     = [MsgMetrics demo_metrics; MsgOutput demo_text]
  /\ messages_to 7 (snd (onData_create e0 (lit "claude") demo_text watched_session)) = [].
Proof.
  assert (H : NoDup (clients watched_session)).
  { apply (bool_decide_unpack _). vm_compute. exact I. }
  split; [exact H|]. split.
  - destruct (chunk_events_in_order e0 (lit "claude") demo_text watched_session 4%nat H)
      as [Hopen _].
    rewrite Hopen; [vm_compute; reflexivity | | reflexivity].
    apply (bool_decide_unpack _). vm_compute. exact I.
  - destruct (chunk_events_in_order e0 (lit "claude") demo_text watched_session 7%nat H)
      as [_ Hclosed].
    apply Hclosed. right. vm_compute. discriminate.
Defined.
